(** * Elasticsearch upgrade monitoring: a shallow embedding of the core logic

    The development follows the TypeScript sources:
    - [utils/version.ts]            : [compareVersions], [getHighestVersion]
    - [utils/upgradeOrder.ts]       : [calculateUpgradeOrder]
    - [services/elasticsearch.ts]   : [getNodes] (the pure part after the request)
    - [App.tsx]                     : [nodesWithSequentialOrder]
    - [types/api.ts], [types/app.ts]: the records
    - [context/MonitoringProvider.tsx] : [mergeHealthHistory], the cluster list
      operations and the [fetchAll] cycle.

    JavaScript numbers are modelled by [jsnum]; strings are byte strings. *)

From Stdlib Require Import String Ascii List ZArith QArith Bool Lia Lqa.
From Stdlib Require Import Permutation Sorted DecimalString.
Import ListNotations.

Local Open Scope string_scope.
Local Open Scope list_scope.
Local Open Scope Z_scope.

(* ================================================================== *)
(** * Part I. Definitions *)
(* ================================================================== *)

(** ** JavaScript numbers

    A JavaScript number is NaN, an infinity, or a finite value.  Finite
    values are kept as exact rationals: the rounding of binary doubles
    is not modelled, and [-0] is identified with [0] (no operation used
    by the program tells them apart). *)

Inductive jsnum : Type :=
| NaN
| NegInf
| Fin (q : Q)
| PosInf.

(** [a < b] of JavaScript: false as soon as one side is NaN. *)
Definition js_ltb (a b : jsnum) : bool :=
  match a, b with
  | NaN, _ => false
  | _, NaN => false
  | NegInf, NegInf => false
  | NegInf, _ => true
  | _, NegInf => false
  | Fin x, Fin y => negb (Qle_bool y x)
  | Fin _, PosInf => true
  | PosInf, _ => false
  end.

(** [a > b] is [b < a]. *)
Definition js_gtb (a b : jsnum) : bool := js_ltb b a.

(** [a <= b] of JavaScript. *)
Definition js_leb (a b : jsnum) : bool :=
  match a, b with
  | NaN, _ => false
  | _, NaN => false
  | NegInf, _ => true
  | _, PosInf => true
  | Fin x, Fin y => Qle_bool x y
  | _, _ => false
  end.

(** Truthiness of a number: NaN and zero are falsy. *)
Definition js_truthy (a : jsnum) : bool :=
  match a with
  | NaN => false
  | Fin q => negb (Qeq_bool q 0)
  | _ => true
  end.

(** [x || 0] on a number. *)
Definition js_or0 (a : jsnum) : jsnum :=
  if js_truthy a then a else Fin 0.

(** [a - b]. *)
Definition js_sub (a b : jsnum) : jsnum :=
  match a, b with
  | NaN, _ => NaN
  | _, NaN => NaN
  | Fin x, Fin y => Fin (x - y)
  | PosInf, PosInf => NaN
  | NegInf, NegInf => NaN
  | PosInf, _ => PosInf
  | NegInf, _ => NegInf
  | Fin _, PosInf => NegInf
  | Fin _, NegInf => PosInf
  end.

(** [a * b]. *)
Definition js_mul (a b : jsnum) : jsnum :=
  let sign (x : jsnum) : Z :=
    match x with
    | NaN => 0
    | NegInf => -1
    | PosInf => 1
    | Fin q => Z.sgn (Qnum q)
    end in
  match a, b with
  | NaN, _ => NaN
  | _, NaN => NaN
  | Fin x, Fin y => Fin (x * y)
  | _, _ =>
      match sign a * sign b with
      | Z0 => NaN
      | Zpos _ => PosInf
      | Zneg _ => NegInf
      end
  end.

Definition js_of_Z (z : Z) : jsnum := Fin (inject_Z z).

(** ** Strings *)

Definition is_digit (c : ascii) : bool :=
  let n := nat_of_ascii c in (48 <=? n)%nat && (n <=? 57)%nat.

Definition digit_value (c : ascii) : Z := Z.of_nat (nat_of_ascii c) - 48.

(** A string is truthy when it is not empty. *)
Definition str_truthy (s : string) : bool :=
  match s with
  | EmptyString => false
  | String _ _ => true
  end.

(** [s.split(sep)] for a one-character separator. *)
Fixpoint split_on (sep : ascii) (s : string) : list string :=
  match s with
  | EmptyString => [EmptyString]
  | String c r =>
      if Ascii.eqb c sep then EmptyString :: split_on sep r
      else match split_on sep r with
           | [] => [String c EmptyString]
           | p :: ps => String c p :: ps
           end
  end.

(** [s.includes(sub)]. *)
Fixpoint includes (sub s : string) : bool :=
  String.prefix sub s ||
  match s with
  | EmptyString => false
  | String _ r => includes sub r
  end.

(** [c.toLowerCase()] on the ASCII letters. *)
Definition lower_ascii (c : ascii) : ascii :=
  let n := nat_of_ascii c in
  if (65 <=? n)%nat && (n <=? 90)%nat then ascii_of_nat (n + 32) else c.

(** [s.toLowerCase()]; bytes outside A-Z are left as they are. *)
Fixpoint toLowerCase (s : string) : string :=
  match s with
  | EmptyString => EmptyString
  | String c r => String (lower_ascii c) (toLowerCase r)
  end.

(** The value of a string of decimal digits, most significant first. *)
Fixpoint digits_value (acc : Z) (s : string) : Z :=
  match s with
  | EmptyString => acc
  | String c r => digits_value (10 * acc + digit_value c) r
  end.

Fixpoint all_digits (s : string) : bool :=
  match s with
  | EmptyString => true
  | String c r => is_digit c && all_digits r
  end.

(** ** utils/version.ts *)

(** [Number(s)] on the segments met in version strings: a run of decimal
    digits has its decimal value, the empty string is [0], and a segment
    with any other character is NaN.  The other literal forms accepted
    by the builtin (signs, exponents, radix prefixes, surrounding white
    space) do not occur in the strings evaluated below; the general
    results are stated for an arbitrary conversion function instead. *)
Definition NumberDigits (s : string) : jsnum :=
  if all_digits s then js_of_Z (digits_value 0 s) else NaN.

Section Version.

(** The builtin string-to-number conversion. *)
Variable Number : string -> jsnum.

(** [v.split('.').map(Number)] *)
Definition versionParts (v : string) : list jsnum :=
  map Number (split_on "." v).

(** [parts[i] || 0]: an index past the end reads [undefined], which is
    falsy. *)
Definition partAt (parts : list jsnum) (i : nat) : jsnum :=
  match nth_error parts i with
  | Some x => js_or0 x
  | None => Fin 0
  end.

(** The body of the [for] loop, with [n] iterations left from index [i]. *)
Fixpoint compareLoop (parts1 parts2 : list jsnum) (n i : nat) : Z :=
  match n with
  | O => 0
  | S n' =>
      let part1 := partAt parts1 i in
      let part2 := partAt parts2 i in
      if js_ltb part1 part2 then -1
      else if js_gtb part1 part2 then 1
      else compareLoop parts1 parts2 n' (S i)
  end.

Definition compareVersions (v1 v2 : string) : Z :=
  let parts1 := versionParts v1 in
  let parts2 := versionParts v2 in
  let maxLength := Nat.max (length parts1) (length parts2) in
  compareLoop parts1 parts2 maxLength 0.

(** [versions.reduce(...)] without an initial value starts from the
    first element. *)
Definition getHighestVersion (versions : list string) : option string :=
  match versions with
  | [] => None
  | first :: rest =>
      Some (fold_left
              (fun highest current =>
                 if compareVersions current highest >? 0 then current
                 else highest)
              rest first)
  end.

(** The numeric value a version string denotes: its segments read as
    numbers ([|| 0] applied), with trailing zero segments removed. *)
Fixpoint dropTrailingZeros (l : list jsnum) : list jsnum :=
  match l with
  | [] => []
  | x :: r =>
      match dropTrailingZeros r with
      | [] => if js_truthy x then [x] else []
      | r' => x :: r'
      end
  end.

Definition versionValue (v : string) : list jsnum :=
  dropTrailingZeros (map js_or0 (versionParts v)).

End Version.

(** ** types/api.ts *)

Inductive ClusterStatus : Type := green | yellow | red | unknown.

Module CatAllocationRow.
Record t : Type := mk {
  shards : Z;
  diskAvail : string;
  node : string;
  ip : option string
}.
End CatAllocationRow.

Module RecoveryRow.
Record t : Type := mk {
  index : string;
  shard : string;
  time : string;
  sourceNode : string;
  targetNode : string;
  target : string;
  filesPercent : string;
  bytesPercent : string;
  stage : string;
  translog : string
}.
End RecoveryRow.

Module ClusterHealth.
Record t : Type := mk {
  cluster_name : string;
  status : ClusterStatus;
  timed_out : bool;
  number_of_nodes : Z;
  number_of_data_nodes : Z;
  active_primary_shards : Z;
  active_shards : Z;
  relocating_shards : Z;
  initializing_shards : Z;
  unassigned_shards : Z;
  delayed_unassigned_shards : Z;
  number_of_pending_tasks : Z;
  task_max_waiting_in_queue_millis : Z;
  active_shards_percent_as_number : Z
}.
End ClusterHealth.

(** [upgradeOrder?: number | null]: the field may be absent ([None]),
    [null] ([Some None]) or a number. *)
Module NodeInfo.
Record t : Type := mk {
  nodeRole : string;
  name : string;
  ip : option string;
  version : string;
  uptime : string;
  upgradeOrder : option (option Z)
}.
(** [{ ...node, upgradeOrder: o }] and [node.upgradeOrder = o]. *)
Definition with_upgradeOrder (n : t) (o : option Z) : t :=
  mk (nodeRole n) (name n) (ip n) (version n) (uptime n) (Some o).
End NodeInfo.

Module ClusterSettings.
Record t : Type := mk {
  persistent : list (string * string);
  transient : list (string * string);
  defaults : option (list (string * string))
}.
End ClusterSettings.

Module CatHealthRow.
Record t : Type := mk {
  epoch : string;
  timestamp : string;
  cluster : string;
  status : ClusterStatus;
  node_total : string;
  node_data : string;
  shards : string;
  pri : string;
  relo : string;
  init : string;
  unassign : string;
  pending_tasks : string;
  max_task_wait_time : string;
  active_shards_percent : string
}.
End CatHealthRow.

Module MonitoringSnapshot.
Record t : Type := mk {
  allocation : list CatAllocationRow.t;
  recovery : list RecoveryRow.t;
  health : ClusterHealth.t;
  nodes : list NodeInfo.t;
  settings : ClusterSettings.t;
  catHealth : list CatHealthRow.t;
  fetchedAt : string
}.
(** A snapshot holding the given node list. *)
Definition with_nodes (s : t) (l : list NodeInfo.t) : t :=
  mk (allocation s) (recovery s) (health s) l (settings s) (catHealth s)
     (fetchedAt s).
End MonitoringSnapshot.

(** ** utils/upgradeOrder.ts *)

(** One row of [/_cat/nodes]. *)
Record CatNodesRow : Type := mkCatNodesRow {
  row_node_role : string;
  row_name : string;
  row_ip : option string;
  row_version : string;
  row_uptime : string
}.

Section UpgradeOrder.

Variable Number : string -> jsnum.

(** The guard of the first [if]: both versions present (a [null] or
    empty string is falsy) and the node's version not below the
    highest one. *)
Definition alreadyUpgraded (node : NodeInfo.t) (highestVersion : option string)
  : bool :=
  match highestVersion with
  | Some h =>
      str_truthy h && str_truthy (NodeInfo.version node) &&
      (compareVersions Number (NodeInfo.version node) h >=? 0)
  | None => false
  end.

Definition calculateUpgradeOrder
  (node : NodeInfo.t) (highestVersion : option string) : option Z :=
  if alreadyUpgraded node highestVersion then None
  else
    (* node.nodeRole || '': the empty string is its own default *)
    let role := NodeInfo.nodeRole node in
    if includes "f" role then Some 1
    else if includes "c" role then Some 2
    else if includes "w" role then Some 3
    else if includes "h" role then Some 4
    else if includes "d" role || includes "s" role then Some 5
    else if includes "l" role || includes "i" role || includes "t" role ||
            includes "r" role || includes "v" role then Some 6
    else if includes "m" role then Some 7
    else Some 8.

(** *** services/elasticsearch.ts: [getNodes], after the request *)

Definition getNodes (catNodesData : list CatNodesRow) : list NodeInfo.t :=
  let versions := filter str_truthy (map row_version catNodesData) in
  let highestVersion := getHighestVersion Number versions in
  map (fun row =>
         let nodeInfo :=
           NodeInfo.mk (row_node_role row) (row_name row) (row_ip row)
                       (row_version row) (row_uptime row) None in
         NodeInfo.with_upgradeOrder nodeInfo
           (calculateUpgradeOrder nodeInfo highestVersion))
      catNodesData.

End UpgradeOrder.

(** The tier table in the words of the specification: the first rule
    one of whose role letters occurs in the role string gives the tier;
    tier 8 when no rule applies. *)
Definition tierRules : list (list string * Z) :=
  [ (["f"], 1); (["c"], 2); (["w"], 3); (["h"], 4);
    (["d"; "s"], 5); (["l"; "i"; "t"; "r"; "v"], 6); (["m"], 7) ].

Fixpoint firstMatchingTier (rules : list (list string * Z)) (role : string)
  : Z :=
  match rules with
  | [] => 8
  | (letters, tier) :: rest =>
      if existsb (fun l => includes l role) letters then tier
      else firstMatchingTier rest role
  end.

(** ** [Array.prototype.sort]

    The builtin is stable; it uses only the sign of the comparator's
    result, a NaN result counting as [0].  When the comparator is
    consistent, every engine returns the same array, the one computed
    here by stable insertion.  For a comparator that is not consistent
    (one that answers NaN for some pairs only, say) the language leaves
    the order to the engine, and the insertion below is one conforming
    engine among others: on uptimes 3s, .s, 5s it answers 5s, 3s, .s
    where an engine that detects runs first may leave the three as they
    are.  What is said below about the order of a sorted array carries
    over to every engine where the comparator is consistent on the
    elements sorted. *)

Section ArraySort.

Context {A : Type}.
Variable comparefn : A -> A -> jsnum.

(** [comparefn(x, y) < 0]: [x] has to come before [y]. *)
Definition sortsBefore (x y : A) : bool := js_ltb (comparefn x y) (Fin 0).

Fixpoint insertSorted (x : A) (l : list A) : list A :=
  match l with
  | [] => [x]
  | y :: r => if sortsBefore x y then x :: y :: r else y :: insertSorted x r
  end.

Definition Array_sort (l : list A) : list A :=
  fold_left (fun acc x => insertSorted x acc) l [].

(** The order left by the sort: [a] stands before [b] only if [b] does
    not have to come before [a]. *)
Definition inOrder (a b : A) : Prop := sortsBefore b a = false.

End ArraySort.

(** ** App.tsx: [nodesWithSequentialOrder] *)

(** [str.match(/^([\d.]+)([smhd])$/)]: the two groups, when the string is
    a non-empty run of digits and dots followed by one unit letter. *)
Fixpoint matchUptime (s : string) : option (string * ascii) :=
  match s with
  | EmptyString => None
  | String c EmptyString => None
  | String c r =>
      if is_digit c || Ascii.eqb c "." then
        match r with
        | String u EmptyString =>
            if Ascii.eqb u "s" || Ascii.eqb u "m" || Ascii.eqb u "h" ||
               Ascii.eqb u "d"
            then Some (String c EmptyString, u) else None
        | _ =>
            match matchUptime r with
            | Some (num, u) => Some (String c num, u)
            | None => None
            end
        end
      else None
  end.

(** The longest prefix of decimal digits, and what follows it. *)
Fixpoint spanDigits (s : string) : string * string :=
  match s with
  | EmptyString => (EmptyString, EmptyString)
  | String c r =>
      if is_digit c then
        let (d, rest) := spanDigits r in (String c d, rest)
      else (EmptyString, s)
  end.

(** [parseFloat] on a run of digits and dots (the only strings it is
    called on): the longest prefix of the form [digits], [digits.digits]
    or [.digits] is read as a decimal; NaN when there is none.  The
    value is exact: the rounding to a binary double is not modelled, nor
    is it in [js_mul] and [js_sub].  The exact value is the one of the
    code for whole numbers below 2^53 and for their products and
    differences that stay below 2^53; outside of this range the code
    rounds (2^53 + 1 is read as 2^53) and, past the largest double,
    answers Infinity. *)
Definition parseFloat (s : string) : jsnum :=
  let (ipart, rest) := spanDigits s in
  let fpart :=
    match rest with
    | String "."%char r => fst (spanDigits r)
    | _ => EmptyString
    end in
  match ipart, fpart with
  | EmptyString, EmptyString => NaN
  | _, _ =>
      Fin (Qmake (digits_value 0 (ipart ++ fpart)%string)
                 (Z.to_pos (10 ^ Z.of_nat (String.length fpart))))
  end.

(** [multipliers[unit]] *)
Definition multipliers (unit : ascii) : option Z :=
  if Ascii.eqb unit "s" then Some 1
  else if Ascii.eqb unit "m" then Some 60
  else if Ascii.eqb unit "h" then Some 3600
  else if Ascii.eqb unit "d" then Some 86400
  else None.

Definition parseUptime (uptime : string) : jsnum :=
  if negb (str_truthy uptime) then Fin 0
  else
    match matchUptime uptime with
    | None => Fin 0
    | Some (num, unit) =>
        let value := parseFloat num in
        (* multipliers[unit] || 1 *)
        let m :=
          match multipliers unit with
          | Some k => if js_truthy (js_of_Z k) then js_of_Z k else Fin 1
          | None => Fin 1
          end in
        js_mul value m
    end.

(** [s || '0s'] *)
Definition orZeroSeconds (s : string) : string :=
  if str_truthy s then s else "0s".

(** [o === null] *)
Definition isNull (o : option (option Z)) : bool :=
  match o with
  | Some None => true
  | _ => false
  end.

(** [o ?? 999] *)
Definition orElse999 (o : option (option Z)) : Z :=
  match o with
  | Some (Some n) => n
  | _ => 999
  end.

(** The comparator of the branch taken when all nodes share a version:
    a [null] order sorts last. *)
Definition compareSameVersion (a b : NodeInfo.t) : jsnum :=
  if isNull (NodeInfo.upgradeOrder a) && isNull (NodeInfo.upgradeOrder b)
  then Fin 0
  else if isNull (NodeInfo.upgradeOrder a) then Fin 1
  else if isNull (NodeInfo.upgradeOrder b) then Fin (-1)
  else
    let orderDiff :=
      orElse999 (NodeInfo.upgradeOrder a) - orElse999 (NodeInfo.upgradeOrder b) in
    if negb (orderDiff =? 0) then js_of_Z orderDiff
    else
      let uptimeA := parseUptime (orZeroSeconds (NodeInfo.uptime a)) in
      let uptimeB := parseUptime (orZeroSeconds (NodeInfo.uptime b)) in
      js_sub uptimeB uptimeA.

(** The comparator of the other branch: a [null] order sorts first. *)
Definition compareMixedVersions (a b : NodeInfo.t) : jsnum :=
  if isNull (NodeInfo.upgradeOrder a) && isNull (NodeInfo.upgradeOrder b)
  then Fin 0
  else if isNull (NodeInfo.upgradeOrder a) then Fin (-1)
  else if isNull (NodeInfo.upgradeOrder b) then Fin 1
  else
    let orderDiff :=
      orElse999 (NodeInfo.upgradeOrder a) - orElse999 (NodeInfo.upgradeOrder b) in
    if negb (orderDiff =? 0) then js_of_Z orderDiff
    else
      let uptimeA := parseUptime (orZeroSeconds (NodeInfo.uptime a)) in
      let uptimeB := parseUptime (orZeroSeconds (NodeInfo.uptime b)) in
      js_sub uptimeB uptimeA.

(** The two sort keys of a node with a tier: [upgradeOrder ?? 999] and
    [parseUptime(uptime || '0s')]. *)
Definition tierOf (n : NodeInfo.t) : Z := orElse999 (NodeInfo.upgradeOrder n).

Definition uptimeSeconds (n : NodeInfo.t) : jsnum :=
  parseUptime (orZeroSeconds (NodeInfo.uptime n)).

(** Tier ascending, and for equal tiers the earlier node's uptime is not
    below the later one's. *)
Definition tierThenUptime (a b : NodeInfo.t) : Prop :=
  tierOf a < tierOf b \/
  (tierOf a = tierOf b /\ js_ltb (uptimeSeconds a) (uptimeSeconds b) = false).

(** [{ ...node, sequentialOrder }] *)
Record SequencedNode : Type := mkSequencedNode {
  node : NodeInfo.t;
  sequentialOrder : option Z
}.

(** The final [map] with its running [upgradeCounter]. *)
Fixpoint assignSequentialOrder (upgradeCounter : Z) (l : list NodeInfo.t)
  : list SequencedNode :=
  match l with
  | [] => []
  | n :: r =>
      if isNull (NodeInfo.upgradeOrder n)
      then mkSequencedNode n None :: assignSequentialOrder upgradeCounter r
      else mkSequencedNode n (Some (upgradeCounter + 1))
             :: assignSequentialOrder (upgradeCounter + 1) r
  end.

(** [[...new Set(l)]]: the distinct strings, in order of first occurrence. *)
Fixpoint distinctStrings (seen l : list string) : list string :=
  match l with
  | [] => []
  | x :: r =>
      if existsb (String.eqb x) seen then distinctStrings seen r
      else x :: distinctStrings (x :: seen) r
  end.

Section SequentialOrder.

Variable Number : string -> jsnum.

Definition allSameVersion (nodes : list NodeInfo.t) : bool :=
  let versions := distinctStrings [] (map NodeInfo.version nodes) in
  (length versions =? 1)%nat.

Definition nodesWithSequentialOrder
  (snapshot : option MonitoringSnapshot.t) : list SequencedNode :=
  match snapshot with
  | None => []
  | Some snapshot =>
      let nodes := MonitoringSnapshot.nodes snapshot in
      if allSameVersion nodes then
        let nodesWithOrder :=
          map (fun n =>
                 NodeInfo.with_upgradeOrder n
                   (calculateUpgradeOrder Number n None))
              nodes in
        let sortedNodes := Array_sort compareSameVersion nodesWithOrder in
        assignSequentialOrder 0 sortedNodes
      else
        let sortedNodes := Array_sort compareMixedVersions nodes in
        assignSequentialOrder 0 sortedNodes
  end.

End SequentialOrder.

(** ** context/MonitoringProvider.tsx: the health history *)

(** [l.slice(-n)]: the last [n] elements. *)
Definition sliceLast {A : Type} (n : nat) (l : list A) : list A :=
  skipn (length l - n) l.

(** [merged.set(key, item)] on a [Map] kept in insertion order: a key
    already present keeps its place and takes the new value, a new key
    goes last. *)
Fixpoint Map_set {V : Type} (m : list (string * V)) (key : string) (item : V)
  : list (string * V) :=
  match m with
  | [] => [(key, item)]
  | (k, v) :: r =>
      if String.eqb k key then (k, item) :: r
      else (k, v) :: Map_set r key item
  end.

(** [Array.from(merged.values())] *)
Definition Map_values {V : Type} (m : list (string * V)) : list V :=
  map snd m.

Section HealthHistory.

(** [new Date(s).getTime()]: the time value of the date a string
    denotes, NaN when the string is not a date. *)
Variable getTime : string -> jsnum.

Definition timeOf (row : CatHealthRow.t) : jsnum :=
  getTime (CatHealthRow.timestamp row).

(** The comparator handed to [sort]. *)
Definition compareByTime (a b : CatHealthRow.t) : jsnum :=
  js_sub (timeOf a) (timeOf b).

(** The [forEach] filling the map. *)
Definition mergedMap (items : list CatHealthRow.t)
  : list (string * CatHealthRow.t) :=
  fold_left (fun merged item => Map_set merged (CatHealthRow.timestamp item) item)
            items [].

Definition mergeHealthHistory (prev incoming : list CatHealthRow.t)
  : list CatHealthRow.t :=
  let merged := mergedMap (prev ++ incoming) in
  sliceLast 40 (Array_sort compareByTime (Map_values merged)).

(** Ordered non-decreasing by timestamp: each row's time is [<=] the
    time of every later row. *)
Definition orderedByTime (l : list CatHealthRow.t) : Prop :=
  StronglySorted (fun a b => js_leb (timeOf a) (timeOf b) = true) l.

(** Every timestamp is a date. *)
Definition allDates (l : list CatHealthRow.t) : Prop :=
  Forall (fun r => exists q, timeOf r = Fin q) l.

(** Rows with different timestamps are at different times, one strictly
    before the other. *)
Definition distinctTimes (l : list CatHealthRow.t) : Prop :=
  forall a b, In a l -> In b l ->
    CatHealthRow.timestamp a <> CatHealthRow.timestamp b ->
    js_ltb (timeOf a) (timeOf b) = true \/ js_ltb (timeOf b) (timeOf a) = true.

End HealthHistory.

(** The timestamps of the rows are drawn from at most [n] values. *)
Definition fewTimestamps (n : nat) (l : list CatHealthRow.t) : Prop :=
  exists ks : list string,
    (length ks <= n)%nat /\
    forall r, In r l -> In (CatHealthRow.timestamp r) ks.

(** The last row of a list with a given timestamp: the one provided
    latest. *)
Definition lastWithTimestamp (l : list CatHealthRow.t) (ts : string)
  : option CatHealthRow.t :=
  find (fun r => String.eqb (CatHealthRow.timestamp r) ts) (rev l).

(** *** A model of [Date] for the examples

    Days from 1970-01-01 to a civil date. *)
Definition daysFromCivil (y m d : Z) : Z :=
  let y' := if m <=? 2 then y - 1 else y in
  let era := y' / 400 in
  let yoe := y' - era * 400 in
  let mp := (m + 9) mod 12 in
  let doy := (153 * mp + 2) / 5 + d - 1 in
  let doe := yoe * 365 + yoe / 4 - yoe / 100 + doy in
  era * 146097 + doe - 719468.

Definition daysInMonth (y m : Z) : Z :=
  if m =? 2 then
    if ((y mod 4 =? 0) && negb (y mod 100 =? 0)) || (y mod 400 =? 0)
    then 29 else 28
  else if (m =? 4) || (m =? 6) || (m =? 9) || (m =? 11) then 30
  else 31.

(** The decimal number written in [len] characters from position [pos]. *)
Definition numberAt (s : string) (pos len : nat) : option Z :=
  let sub := String.substring pos len s in
  if (String.length sub =? len)%nat && all_digits sub
  then Some (digits_value 0 sub) else None.

Definition charAt (s : string) (pos : nat) (c : ascii) : bool :=
  match String.get pos s with
  | Some d => Ascii.eqb d c
  | None => false
  end.

(** [new Date(s).getTime()] on the two UTC forms of the ECMAScript date
    time string format, [YYYY-MM-DDTHH:mm:ssZ] and
    [YYYY-MM-DDTHH:mm:ss.sssZ], in milliseconds.  Any other string is
    taken as an invalid date (NaN): this is what engines answer for the
    time-of-day strings ([HH:MM:SS]) that [/_cat/health] reports in its
    [timestamp] column; other formats an engine may accept are outside
    the examples. *)
Definition Date_getTime (s : string) : jsnum :=
  let n := String.length s in
  let shape :=
    charAt s 4 "-" && charAt s 7 "-" && charAt s 10 "T" &&
    charAt s 13 ":" && charAt s 16 ":" &&
    (((n =? 20)%nat && charAt s 19 "Z") ||
     ((n =? 24)%nat && charAt s 19 "." && charAt s 23 "Z")) in
  if shape then
    match numberAt s 0 4, numberAt s 5 2, numberAt s 8 2,
          numberAt s 11 2, numberAt s 14 2, numberAt s 17 2 with
    | Some y, Some mo, Some d, Some h, Some mi, Some sec =>
        let ms :=
          if (n =? 24)%nat then numberAt s 20 3 else Some 0 in
        match ms with
        | Some ms =>
            if (1 <=? mo) && (mo <=? 12) && (1 <=? d) &&
               (d <=? daysInMonth y mo) && (h <=? 23) && (mi <=? 59) &&
               (sec <=? 59)
            then js_of_Z (daysFromCivil y mo d * 86400000 + h * 3600000 +
                          mi * 60000 + sec * 1000 + ms)
            else NaN
        | None => NaN
        end
    | _, _, _, _, _, _ => NaN
    end
  else NaN.

(** ** types/app.ts *)

Module ClusterConnection.
Record t : Type := mk {
  label : string;
  baseUrl : string;
  username : string;
  password : string
}.
End ClusterConnection.

Module CreateClusterInput.
Record t : Type := mk {
  label : string;
  baseUrl : string;
  username : option string;
  password : option string
}.
End CreateClusterInput.

(** ** context/MonitoringProvider.tsx: the provider *)

(** White space removed by [trim], among the one-byte characters. *)
Definition is_space (c : ascii) : bool :=
  let n := nat_of_ascii c in
  (n =? 32)%nat || ((9 <=? n)%nat && (n <=? 13)%nat).

Fixpoint trimStart (s : string) : string :=
  match s with
  | EmptyString => EmptyString
  | String c r => if is_space c then trimStart r else s
  end.

(** Drops the white space at the end. *)
Fixpoint trimEnd (s : string) : string :=
  match s with
  | EmptyString => EmptyString
  | String c r =>
      match trimEnd r with
      | EmptyString => if is_space c then EmptyString else String c EmptyString
      | r' => String c r'
      end
  end.

(** [s.trim()] *)
Definition trim (s : string) : string := trimEnd (trimStart s).

(** [s.replace(/\/$/, '')]: one slash at the very end is removed. *)
Fixpoint dropTrailingSlash (s : string) : string :=
  match s with
  | EmptyString => EmptyString
  | String c EmptyString => if Ascii.eqb c "/" then EmptyString else s
  | String c r => String c (dropTrailingSlash r)
  end.

(** [a || b] on strings. *)
Definition str_or (a b : string) : string := if str_truthy a then a else b.

(** [o?.trim() || ''] *)
Definition trimOrEmpty (o : option string) : string :=
  match o with
  | Some s => str_or (trim s) EmptyString
  | None => EmptyString
  end.

Inductive Toast : Type :=
| ToastError (title : string) (description : option string)
| ToastSuccess (title : string) (description : option string).

(** The state held by [MonitoringProvider]: its [useState] cells, the
    refs read below, and the toasts emitted so far. *)
Record Provider : Type := mkProvider {
  snapshot : option MonitoringSnapshot.t;
  healthHistory : list CatHealthRow.t;
  loading : bool;
  refreshing : bool;
  error : option string;
  connectionFailed : bool;
  pollInterval : Z;
  clusters : list ClusterConnection.t;
  activeClusterLabel : string;
  lastUpdated : option string;
  healthCheckDone : bool;
  toasts : list Toast
}.

Definition setSnapshot (st : Provider) (v : option MonitoringSnapshot.t) :=
  mkProvider v (healthHistory st) (loading st) (refreshing st) (error st)
    (connectionFailed st) (pollInterval st) (clusters st)
    (activeClusterLabel st) (lastUpdated st) (healthCheckDone st) (toasts st).

Definition setHealthHistory (st : Provider) (v : list CatHealthRow.t) :=
  mkProvider (snapshot st) v (loading st) (refreshing st) (error st)
    (connectionFailed st) (pollInterval st) (clusters st)
    (activeClusterLabel st) (lastUpdated st) (healthCheckDone st) (toasts st).

Definition setLoading (st : Provider) (v : bool) :=
  mkProvider (snapshot st) (healthHistory st) v (refreshing st) (error st)
    (connectionFailed st) (pollInterval st) (clusters st)
    (activeClusterLabel st) (lastUpdated st) (healthCheckDone st) (toasts st).

Definition setRefreshing (st : Provider) (v : bool) :=
  mkProvider (snapshot st) (healthHistory st) (loading st) v (error st)
    (connectionFailed st) (pollInterval st) (clusters st)
    (activeClusterLabel st) (lastUpdated st) (healthCheckDone st) (toasts st).

Definition setError (st : Provider) (v : option string) :=
  mkProvider (snapshot st) (healthHistory st) (loading st) (refreshing st) v
    (connectionFailed st) (pollInterval st) (clusters st)
    (activeClusterLabel st) (lastUpdated st) (healthCheckDone st) (toasts st).

Definition setConnectionFailed (st : Provider) (v : bool) :=
  mkProvider (snapshot st) (healthHistory st) (loading st) (refreshing st)
    (error st) v (pollInterval st) (clusters st)
    (activeClusterLabel st) (lastUpdated st) (healthCheckDone st) (toasts st).

Definition setClusters (st : Provider) (v : list ClusterConnection.t) :=
  mkProvider (snapshot st) (healthHistory st) (loading st) (refreshing st)
    (error st) (connectionFailed st) (pollInterval st) v
    (activeClusterLabel st) (lastUpdated st) (healthCheckDone st) (toasts st).

Definition setActiveClusterLabel (st : Provider) (v : string) :=
  mkProvider (snapshot st) (healthHistory st) (loading st) (refreshing st)
    (error st) (connectionFailed st) (pollInterval st) (clusters st)
    v (lastUpdated st) (healthCheckDone st) (toasts st).

Definition setLastUpdated (st : Provider) (v : option string) :=
  mkProvider (snapshot st) (healthHistory st) (loading st) (refreshing st)
    (error st) (connectionFailed st) (pollInterval st) (clusters st)
    (activeClusterLabel st) v (healthCheckDone st) (toasts st).

Definition setHealthCheckDone (st : Provider) (v : bool) :=
  mkProvider (snapshot st) (healthHistory st) (loading st) (refreshing st)
    (error st) (connectionFailed st) (pollInterval st) (clusters st)
    (activeClusterLabel st) (lastUpdated st) v (toasts st).

Definition toast (st : Provider) (t : Toast) :=
  mkProvider (snapshot st) (healthHistory st) (loading st) (refreshing st)
    (error st) (connectionFailed st) (pollInterval st) (clusters st)
    (activeClusterLabel st) (lastUpdated st) (healthCheckDone st)
    (toasts st ++ [t]).

(** [clusters.find(c => c.label === activeClusterLabel) ?? clusters[0] ?? null] *)
Definition activeCluster (st : Provider) : option ClusterConnection.t :=
  match find (fun c => String.eqb (ClusterConnection.label c)
                                  (activeClusterLabel st)) (clusters st) with
  | Some c => Some c
  | None => hd_error (clusters st)
  end.

(** *** The connection list

    The callbacks read [clusters] and [activeClusterLabel] of the render
    that created them; they are modelled on the current state. *)

Definition addCluster (st : Provider) (input : CreateClusterInput.t) : Provider :=
  let sanitizedBaseUrl :=
    dropTrailingSlash (trim (CreateClusterInput.baseUrl input)) in
  let clusterLabel :=
    trim (str_or (CreateClusterInput.label input) sanitizedBaseUrl) in
  let newCluster :=
    ClusterConnection.mk clusterLabel sanitizedBaseUrl
      (trimOrEmpty (CreateClusterInput.username input))
      (trimOrEmpty (CreateClusterInput.password input)) in
  let sameLabel c :=
    String.eqb (ClusterConnection.label c) (ClusterConnection.label newCluster) in
  let prev := clusters st in
  let st1 :=
    setClusters st
      (if existsb sameLabel prev
       then map (fun c => if sameLabel c then newCluster else c) prev
       else prev ++ [newCluster]) in
  let st2 := setActiveClusterLabel st1 (ClusterConnection.label newCluster) in
  toast st2
    (ToastSuccess "Cluster added"
       (Some (ClusterConnection.label newCluster ++ " is now active.")%string)).

Definition updateCluster (st : Provider) (clusterLabel : string)
  (input : CreateClusterInput.t) : Provider :=
  let sanitizedBaseUrl :=
    dropTrailingSlash (trim (CreateClusterInput.baseUrl input)) in
  let newLabel := str_or (CreateClusterInput.label input) sanitizedBaseUrl in
  let st1 :=
    setClusters st
      (map (fun cluster =>
              if String.eqb (ClusterConnection.label cluster) clusterLabel
              then ClusterConnection.mk newLabel sanitizedBaseUrl
                     (trimOrEmpty (CreateClusterInput.username input))
                     (trimOrEmpty (CreateClusterInput.password input))
              else cluster)
           (clusters st)) in
  let st2 :=
    if String.eqb (activeClusterLabel st) clusterLabel
    then setActiveClusterLabel st1 newLabel else st1 in
  toast st2
    (ToastSuccess "Cluster updated"
       (Some (newLabel ++ " has been updated.")%string)).

Definition deleteCluster (st : Provider) (clusterLabel : string) : Provider :=
  let differs c := negb (String.eqb (ClusterConnection.label c) clusterLabel) in
  let clusterToDelete :=
    find (fun c => String.eqb (ClusterConnection.label c) clusterLabel)
         (clusters st) in
  if (length (clusters st) =? 1)%nat then
    toast st (ToastError "Cannot delete"
                (Some "At least one cluster must remain."))
  else
    let st1 := setClusters st (filter differs (clusters st)) in
    let st2 :=
      if String.eqb (activeClusterLabel st) clusterLabel then
        let remaining := filter differs (clusters st) in
        setActiveClusterLabel st1
          match remaining with
          | c :: _ => ClusterConnection.label c
          | [] => EmptyString
          end
      else st1 in
    toast st2
      (ToastSuccess "Cluster deleted"
         match clusterToDelete with
         | Some c =>
             Some (ClusterConnection.label c ++ " has been removed.")%string
         | None => None
         end).

(** [setActiveCluster] of the context value. *)
Definition setActiveCluster (st : Provider) (clusterLabel : string) : Provider :=
  setHealthCheckDone (setActiveClusterLabel st clusterLabel) false.

(** The labels of the connection list. *)
Definition labels (st : Provider) : list string :=
  map ClusterConnection.label (clusters st).

(** *** The fetch cycle

    [fetchAll] is an async function: it runs up to the [await], and
    goes on when the six requests have all resolved or one of them has
    rejected.  What it read from its closure when it started stays with
    the outstanding cycle. *)

Record FetchClosure : Type := mkFetchClosure {
  cl_activeCluster : option ClusterConnection.t;
  cl_connectionFailed : bool
}.

(** The closure of the current render. *)
Definition currentClosure (st : Provider) : FetchClosure :=
  mkFetchClosure (activeCluster st) (connectionFailed st).

(** What [Promise.all] resolves to. *)
Record Fetched : Type := mkFetched {
  f_allocation : list CatAllocationRow.t;
  f_recovery : list RecoveryRow.t;
  f_health : ClusterHealth.t;
  f_nodes : list NodeInfo.t;
  f_settings : ClusterSettings.t;
  f_catHealth : list CatHealthRow.t
}.

(** A thrown value: an [Error] with its name and message, or anything
    else. *)
Inductive Thrown : Type :=
| ThrownError (name message : string)
| ThrownOther.

(** The answer of [checkClusterHealth]. *)
Record HealthResult : Type := mkHealthResult {
  success : bool;
  healthError : option string
}.

(** The [finally] block. *)
Definition fetchAll_finally (st : Provider) : Provider :=
  setRefreshing (setLoading st false) false.

(** [fetchAll] up to the [await]: the next state, and whether the six
    requests have been sent. *)
Definition fetchAll_start (st : Provider) (cl : FetchClosure)
  : Provider * bool :=
  match cl_activeCluster cl with
  | None =>
      let st := setError st (Some "Please add a cluster to start monitoring.") in
      let st := setLoading st false in
      let st := setRefreshing st false in
      let st := setConnectionFailed st false in
      (fetchAll_finally st, false)
  | Some _ =>
      if cl_connectionFailed cl then (fetchAll_finally st, false)
      else
        let st := setRefreshing st true in
        let st := setError st None in
        let st := setConnectionFailed st false in
        (st, true)
  end.

Section FetchCycle.

Variable getTime : string -> jsnum.

(** [fetchAll] after the [await], when all six requests resolved;
    [fetchedAt] is the clock reading. *)
Definition fetchAll_resolved (st : Provider) (cl : FetchClosure)
  (data : Fetched) (fetchedAt : string) : Provider :=
  let st := setLastUpdated st (Some fetchedAt) in
  let st :=
    setSnapshot st
      (Some (MonitoringSnapshot.mk (f_allocation data) (f_recovery data)
               (f_health data) (f_nodes data) (f_settings data)
               (f_catHealth data) fetchedAt)) in
  let st :=
    setHealthHistory st
      (mergeHealthHistory getTime (healthHistory st) (f_catHealth data)) in
  let st := setConnectionFailed st false in
  fetchAll_finally st.

End FetchCycle.

(** The message of the [catch] block, after its first rewriting. *)
Definition failureMessage (err : Thrown) : string :=
  let message :=
    match err with
    | ThrownError _ m => m
    | ThrownOther => "Unknown error occurred"
    end in
  let lower := toLowerCase message in
  if includes "fetch" lower && (includes "failed" lower || includes "error" lower)
  then "Network error" else message.

Definition isTimeout (err : Thrown) : bool :=
  match err with
  | ThrownError name _ =>
      let lower := toLowerCase (failureMessage err) in
      String.eqb name "AbortError" || String.eqb name "TimeoutError" ||
      includes "timeout" lower || includes "aborted" lower
  | ThrownOther => false
  end.

Definition cannotAccess (cluster : ClusterConnection.t) : string :=
  ("Network error, cannot access your cluster. Cluster uri: " ++
   ClusterConnection.baseUrl cluster)%string.

(** The toast after the classification. *)
Definition refreshFailedToast (st : Provider) (message : string) : Provider :=
  if negb (includes "mock" (toLowerCase message))
  then toast st (ToastError "Data refresh failed" (Some message))
  else st.

(** The [catch] block of [fetchAll]; [healthResult] is the answer of the
    probe, awaited only on the time-out path. *)
Definition fetchAll_rejected (st : Provider) (cl : FetchClosure)
  (err : Thrown) (healthResult : HealthResult) : Provider :=
  let message := failureMessage err in
  match isTimeout err, cl_activeCluster cl with
  | true, Some cluster =>
      if negb (success healthResult) then
        let st := setConnectionFailed st true in
        let st :=
          setError st
            (Some match healthError healthResult with
                  | Some e => str_or e (cannotAccess cluster)
                  | None => cannotAccess cluster
                  end) in
        let st := setLoading st false in
        let st := setRefreshing st false in
        fetchAll_finally st
      else
        let st := setError st (Some message) in
        let st := setConnectionFailed st false in
        fetchAll_finally (refreshFailedToast st message)
  | _, _ =>
      let st :=
        match cl_activeCluster cl with
        | Some cluster =>
            if includes "network error" (toLowerCase message)
            then setError st (Some (cannotAccess cluster))
            else setError st (Some message)
        | None => setError st (Some message)
        end in
      let st := setConnectionFailed st true in
      fetchAll_finally (refreshFailedToast st message)
  end.

(** The guard of the polling effect: the interval timer exists only
    while it holds. *)
Definition pollingActive (st : Provider) : bool :=
  negb (connectionFailed st) &&
  match activeCluster st with
  | Some _ => true
  | None => false
  end.

(** *** Interleavings

    The provider together with its outstanding fetch cycles.  Each event
    is one task of the single thread. *)

Record System : Type := mkSystem {
  provider : Provider;
  outstanding : list FetchClosure
}.

Inductive Event : Type :=
| CallFetchAll
| SelectCluster (clusterLabel : string)
| CycleResolved (i : nat) (data : Fetched) (fetchedAt : string)
| CycleRejected (i : nat) (err : Thrown) (healthResult : HealthResult).

(** The list without its [i]-th element. *)
Definition removeAt {A : Type} (i : nat) (l : list A) : list A :=
  firstn i l ++ skipn (S i) l.

Section Interleaving.

Variable getTime : string -> jsnum.

Definition handle (sys : System) (ev : Event) : System :=
  let st := provider sys in
  match ev with
  | CallFetchAll =>
      let cl := currentClosure st in
      let (st', sent) := fetchAll_start st cl in
      mkSystem st' (if sent then outstanding sys ++ [cl] else outstanding sys)
  | SelectCluster clusterLabel =>
      mkSystem (setActiveCluster st clusterLabel) (outstanding sys)
  | CycleResolved i data fetchedAt =>
      match nth_error (outstanding sys) i with
      | Some cl =>
          mkSystem (fetchAll_resolved getTime st cl data fetchedAt)
                   (removeAt i (outstanding sys))
      | None => sys
      end
  | CycleRejected i err healthResult =>
      match nth_error (outstanding sys) i with
      | Some cl =>
          mkSystem (fetchAll_rejected st cl err healthResult)
                   (removeAt i (outstanding sys))
      | None => sys
      end
  end.

Definition run (sys : System) (evs : list Event) : System :=
  fold_left handle evs sys.

End Interleaving.

(** ** Sample data used in the examples *)

Definition sampleSnapshot : MonitoringSnapshot.t :=
  MonitoringSnapshot.mk [] []
    (ClusterHealth.mk "es" green false 3 2 0 0 0 0 0 0 0 0 100)
    [] (ClusterSettings.mk [] [] None) [] "2024-05-01T10:00:00.000Z".

(** Two nodes at 8.15.0 and one at 8.19.0. *)
Definition mixedRows : list CatNodesRow :=
  [ mkCatNodesRow "m" "master-1" None "8.15.0" "3d";
    mkCatNodesRow "h" "hot-2" None "8.19.0" "1h";
    mkCatNodesRow "h" "hot-1" None "8.15.0" "12d" ].

Definition hotNode : NodeInfo.t :=
  NodeInfo.mk "h" "hot-1" None "8.15.0" "12d" None.

Definition masterNode : NodeInfo.t :=
  NodeInfo.mk "m" "master-1" None "8.15.0" "3d" None.

(** A health row with the given timestamp and shard count. *)
Definition healthRow (ts shards : string) : CatHealthRow.t :=
  CatHealthRow.mk "1714557600" ts "es" green "3" "2" shards "5" "0" "0" "0"
                  "0" "-" "100.0%".

Definition twoDigits (n : nat) : string :=
  String (ascii_of_nat (48 + n / 10))
         (String (ascii_of_nat (48 + n mod 10)) EmptyString).

(** History rows stamped with full dates. *)
Definition datedPrev : list CatHealthRow.t :=
  [ healthRow "2024-05-01T10:00:05Z" "10";
    healthRow "2024-05-01T10:00:01Z" "10" ].

Definition datedIncoming : list CatHealthRow.t :=
  [ healthRow "2024-05-01T10:00:03Z" "10";
    healthRow "2024-05-01T10:00:05Z" "11" ].

(** History rows stamped the way [/_cat/health] does, with the time of
    day only. *)
Definition clockPrev : list CatHealthRow.t := [ healthRow "16:17:04" "10" ].

Definition clockIncoming : list CatHealthRow.t := [ healthRow "16:17:03" "10" ].

(** Forty-one rows, one per second from 16:17:00 to 16:17:40. *)
Definition clockRows41 : list CatHealthRow.t :=
  map (fun n => healthRow ("16:17:" ++ twoDigits n)%string "10") (seq 0 41).

(** Forty-one rows with forty distinct times: the first two denote the
    same instant written in two ways, the others follow second by
    second. *)
Definition tiedRows41 : list CatHealthRow.t :=
  healthRow "2024-05-01T10:00:00Z" "10" ::
  healthRow "2024-05-01T10:00:00.000Z" "10" ::
  map (fun n => healthRow ("2024-05-01T10:00:" ++ twoDigits n ++ "Z")%string "10")
      (seq 1 39).

(** Two connections and a provider that knows both, the first active. *)
Definition clusterA : ClusterConnection.t :=
  ClusterConnection.mk "prod" "http://prod:9200" "" "".

Definition clusterB : ClusterConnection.t :=
  ClusterConnection.mk "staging" "http://staging:9200" "" "".

Definition twoClusters : Provider :=
  mkProvider None [] false false None false 5000 [clusterA; clusterB] "prod"
             None true [].

Definition oneCluster : Provider :=
  mkProvider None [] false false None false 5000 [clusterA] "prod"
             None true [].

(** An edit of "prod" that renames it to the label of the other
    connection. *)
Definition renameToStaging : CreateClusterInput.t :=
  CreateClusterInput.mk "staging" "http://prod:9200" None None.

(** What the requests sent to [clusterA] answer. *)
Definition fetchedFromA : Fetched :=
  mkFetched [] []
    (ClusterHealth.mk "prod-cluster" green false 3 2 0 0 0 0 0 0 0 0 100)
    [] (ClusterSettings.mk [] [] None)
    [healthRow "16:17:04" "10"].

(** What the requests sent to [clusterB] answer. *)
Definition fetchedFromB : Fetched :=
  mkFetched [] []
    (ClusterHealth.mk "staging-cluster" yellow false 1 1 0 0 0 0 0 0 0 0 100)
    [] (ClusterSettings.mk [] [] None)
    [healthRow "16:17:05" "4"].

(** A response with a non-2xx status, as thrown by [request]. *)
Definition http500 : Thrown :=
  ThrownError "Error" "Elasticsearch 500 Internal Server Error".

(** What [request] throws for a reply with status 504. *)
Definition http504 : Thrown :=
  ThrownError "Error" "Elasticsearch 504 Gateway Timeout".

(** A body that is not JSON, as thrown by [response.json()]. *)
Definition badJson : Thrown :=
  ThrownError "SyntaxError" "Unexpected token < in JSON at position 0".

Definition probeOk : HealthResult := mkHealthResult true None.

(* ------------------------------------------------------------------ *)
(** ** Further functions of the sources *)

(** [`${n}`] for an integer [n] (below 10^21 in magnitude, where the
    builtin prints all the digits). *)
Definition numberToString (z : Z) : string :=
  NilZero.string_of_int (Z.to_int z).

(** *** utils/upgradeOrder.ts: [getUpgradeOrderLabel] *)

Definition getUpgradeOrderLabel (order : option Z) : string :=
  match order with
  | None => "Upgraded"
  | Some n =>
      if n =? 1 then "1 - Frozen"
      else if n =? 2 then "2 - Cold"
      else if n =? 3 then "3 - Warm"
      else if n =? 4 then "4 - Hot"
      else if n =? 5 then "5 - Data"
      else if n =? 6 then "6 - Other"
      else if n =? 7 then "7 - Master"
      else (numberToString n ++ " - Unknown")%string
  end.

(** *** utils/format.ts *)

(** [parseUptimeToSeconds]: the body is the one of the local
    [parseUptime] of App.tsx; the argument may be null or undefined. *)
Definition parseUptimeToSeconds (uptime : option string) : jsnum :=
  match uptime with
  | None => Fin 0
  | Some s => parseUptime s
  end.

(** The positions handed out, in the order of the list. *)
Definition positions (l : list SequencedNode) : list Z :=
  flat_map (fun s => match sequentialOrder s with
                     | Some p => [p]
                     | None => []
                     end) l.

(** *** context/MonitoringProvider.tsx: [statusSummary] *)

Record StatusSummary : Type := mkStatusSummary {
  n_green : Z;
  n_yellow : Z;
  n_red : Z;
  n_unknown : Z
}.

(** [statusSummary[status] = statusSummary[status] + 1] *)
Definition bumpStatus (acc : StatusSummary) (status : ClusterStatus)
  : StatusSummary :=
  match status with
  | green => mkStatusSummary (n_green acc + 1) (n_yellow acc) (n_red acc) (n_unknown acc)
  | yellow => mkStatusSummary (n_green acc) (n_yellow acc + 1) (n_red acc) (n_unknown acc)
  | red => mkStatusSummary (n_green acc) (n_yellow acc) (n_red acc + 1) (n_unknown acc)
  | unknown => mkStatusSummary (n_green acc) (n_yellow acc) (n_red acc) (n_unknown acc + 1)
  end.

Definition statusSummary (st : Provider) : StatusSummary :=
  fold_left (fun acc row => bumpStatus acc (CatHealthRow.status row))
            (healthHistory st) (mkStatusSummary 0 0 0 0).

Definition statusEqb (a b : ClusterStatus) : bool :=
  match a, b with
  | green, green | yellow, yellow | red, red | unknown, unknown => true
  | _, _ => false
  end.

(** The number of rows with a given status. *)
Definition rowsWithStatus (status : ClusterStatus) (l : list CatHealthRow.t) : Z :=
  Z.of_nat (length (filter (fun r => statusEqb (CatHealthRow.status r) status) l)).

(** Forty-one dated rows, one per second from 10:00:00 to 10:00:40. *)
Definition datedRows41 : list CatHealthRow.t :=
  map (fun n => healthRow ("2024-05-01T10:00:" ++ twoDigits n ++ "Z")%string "10")
      (seq 0 41).

(** The connection [addCluster] builds from the form. *)
Definition newClusterOf (input : CreateClusterInput.t) : ClusterConnection.t :=
  let sanitizedBaseUrl :=
    dropTrailingSlash (trim (CreateClusterInput.baseUrl input)) in
  ClusterConnection.mk
    (trim (str_or (CreateClusterInput.label input) sanitizedBaseUrl))
    sanitizedBaseUrl
    (trimOrEmpty (CreateClusterInput.username input))
    (trimOrEmpty (CreateClusterInput.password input)).

(** The connection [updateCluster] puts in place of the edited one. *)
Definition updatedClusterOf (input : CreateClusterInput.t) : ClusterConnection.t :=
  let sanitizedBaseUrl :=
    dropTrailingSlash (trim (CreateClusterInput.baseUrl input)) in
  ClusterConnection.mk
    (str_or (CreateClusterInput.label input) sanitizedBaseUrl)
    sanitizedBaseUrl
    (trimOrEmpty (CreateClusterInput.username input))
    (trimOrEmpty (CreateClusterInput.password input)).

(** The bounds kept on the health history. *)
Definition historyWithinBounds (st : Provider) : Prop :=
  NoDup (map CatHealthRow.timestamp (healthHistory st)) /\
  (length (healthHistory st) <= 40)%nat.

(** A form filled with a new connection, its URL ending in a slash. *)
Definition devForm : CreateClusterInput.t :=
  CreateClusterInput.mk " dev " "http://dev:9200/" (Some "elastic") None.

(** An edit of "prod" that keeps the label and changes the URL. *)
Definition prodEdit : CreateClusterInput.t :=
  CreateClusterInput.mk "prod" "https://prod:9243" None None.

(** *** services/elasticsearch.ts: [request] and [checkClusterHealth] *)

(** What one call of [fetch] comes to: the promise rejects (the host
    cannot be reached, or the timeout aborts the call), or a response
    arrives, with its status and what reading its body as JSON gives. *)
Inductive FetchOutcome (T : Type) : Type :=
| FetchRejected (err : Thrown)
| FetchResponded (ok : bool) (status : Z) (statusText : string)
                 (body : T + Thrown).

Arguments FetchRejected {T} err.
Arguments FetchResponded {T} ok status statusText body.

(** [`Elasticsearch ${response.status} ${response.statusText}`] *)
Definition statusMessage (status : Z) (statusText : string) : string :=
  ("Elasticsearch " ++ numberToString status ++ " " ++ statusText)%string.

(** The [try] block of [request]. *)
Definition requestAttempt {T : Type} (o : FetchOutcome T) : T + Thrown :=
  match o with
  | FetchRejected err => inr err
  | FetchResponded ok status statusText body =>
      if ok then body
      else inr (ThrownError "Error" (statusMessage status statusText))
  end.

(** The end of the [catch] block of [request], when no attempt is
    left. *)
Definition surfacedError (error : Thrown) : Thrown :=
  match error with
  | ThrownError name message =>
      if String.eqb name "AbortError"
      then ThrownError "Error" "Request timeout"
      else if includes "fetch" (toLowerCase message) ||
              includes "network" (toLowerCase message)
      then ThrownError "Error" "Network error"
      else error
  | ThrownOther => error
  end.

(** [request(endpoint, cluster, attempt)]: [outcome k] is what the
    [fetch] of attempt [k] comes to; [retries] is [2 - attempt], so that
    [attempt < 2] reads [retries = S _]. *)
Fixpoint requestWith {T : Type} (retries : nat)
  (outcome : nat -> FetchOutcome T) (attempt : nat) : T + Thrown :=
  match requestAttempt (outcome attempt) with
  | inl v => inl v
  | inr error =>
      match retries with
      | S r => requestWith r outcome (attempt + 1)
      | O => inr (surfacedError error)
      end
  end.

Definition request {T : Type} (outcome : nat -> FetchOutcome T) (attempt : nat)
  : T + Thrown :=
  requestWith (2 - attempt) outcome attempt.

(** [checkClusterHealth(cluster)], given what its [fetch] comes to; the
    body of the response is not read. *)
Definition checkClusterHealth {T : Type} (cluster : ClusterConnection.t)
  (o : FetchOutcome T) : HealthResult :=
  match o with
  | FetchResponded ok status statusText _ =>
      if ok then mkHealthResult true None
      else mkHealthResult false (Some (statusMessage status statusText))
  | FetchRejected _ =>
      mkHealthResult false (Some (cannotAccess cluster))
  end.

(** The message of a thrown value as the [catch] block of [fetchAll]
    first reads it. *)
Definition thrownMessage (err : Thrown) : string :=
  match err with
  | ThrownError _ m => m
  | ThrownOther => "Unknown error occurred"
  end.

(** *** context/MonitoringProvider.tsx: [setPollInterval] *)

(** [Math.max(a, b)] and [Math.min(a, b)]: NaN as soon as one argument
    is NaN. *)
Definition js_max (a b : jsnum) : jsnum :=
  match a, b with
  | NaN, _ => NaN
  | _, NaN => NaN
  | _, _ => if js_ltb a b then b else a
  end.

Definition js_min (a b : jsnum) : jsnum :=
  match a, b with
  | NaN, _ => NaN
  | _, NaN => NaN
  | _, _ => if js_ltb b a then b else a
  end.

(** [safeValue] of [setPollInterval], the value stored as the polling
    interval. *)
Definition safePollInterval (ms : jsnum) : jsnum :=
  js_min (js_max ms (js_of_Z 3000)) (js_of_Z 60000).

(** *** components/data/DataTable.tsx *)

(** ['asc' | 'desc']; [null] is [None]. *)
Inductive SortDirection : Type := asc | desc.

(** [sortColumn] and [sortDirection]. *)
Record SortState : Type := mkSortState {
  sortColumn : option string;
  sortDirection : option SortDirection
}.

(** The value of a cell: [null] or [undefined], a number, or a string. *)
Inductive CellValue : Type :=
| CellNull
| CellNumber (n : jsnum)
| CellText (s : string).

Section DataTable.

Context {T : Type}.

(** The fields of a column that sorting reads; [sortable] and [sortFn]
    are optional. *)
Record Column : Type := mkColumn {
  col_key : string;
  sortable : option bool;
  sortFn : option (T -> T -> jsnum)
}.

(** [columns.find((col) => col.key === key)] *)
Definition findColumn (columns : list Column) (key : string) : option Column :=
  find (fun col => String.eqb (col_key col) key) columns.

(** [handleSort]: the next sort state (which is also what is written
    to the local storage). *)
Definition handleSort (columns : list Column) (s : SortState)
  (columnKey : string) : SortState :=
  match findColumn columns columnKey with
  | None => s
  | Some column =>
      match sortable column with
      | Some false => s
      | _ =>
          let same :=
            match sortColumn s with
            | Some c => String.eqb c columnKey
            | None => false
            end in
          if same then
            match sortDirection s with
            | Some asc => mkSortState (Some columnKey) (Some desc)
            | Some desc => mkSortState None None
            | None => mkSortState (Some columnKey) (Some asc)
            end
          else mkSortState (Some columnKey) (Some asc)
      end
  end.

(** [item[key]] *)
Variable cell : T -> string -> CellValue.

(** [String(n)] for a number. *)
Variable numberText : jsnum -> string.

(** [String(value).toLowerCase()] *)
Definition cellText (v : CellValue) : string :=
  toLowerCase
    match v with
    | CellNull => "null"
    | CellNumber n => numberText n
    | CellText s => s
    end.

(** The comparator used for a column without [sortFn]. *)
Definition defaultCompare (key : string) (direction : SortDirection)
  (a b : T) : jsnum :=
  match cell a key, cell b key with
  | CellNull, CellNull => Fin 0
  | CellNull, _ => Fin 1
  | _, CellNull => Fin (-1)
  | CellNumber x, CellNumber y =>
      match direction with
      | asc => js_sub x y
      | desc => js_sub y x
      end
  | aValue, bValue =>
      let aStr := cellText aValue in
      let bStr := cellText bValue in
      match direction with
      | asc =>
          if String.ltb aStr bStr then Fin (-1)
          else if String.ltb bStr aStr then Fin 1 else Fin 0
      | desc =>
          if String.ltb bStr aStr then Fin (-1)
          else if String.ltb aStr bStr then Fin 1 else Fin 0
      end
  end.

Definition columnCompare (column : Column) (direction : SortDirection)
  (a b : T) : jsnum :=
  match sortFn column with
  | Some f =>
      match direction with
      | asc => f a b
      | desc => f b a
      end
  | None => defaultCompare (col_key column) direction a b
  end.

Definition sortedData (columns : list Column) (s : SortState) (data : list T)
  : list T :=
  match sortColumn s, sortDirection s with
  | Some c, Some direction =>
      if str_truthy c then
        match findColumn columns c with
        | None => data
        | Some column => Array_sort (columnCompare column direction) data
        end
      else data
  | _, _ => data
  end.

(** The cell of a row under a column is null. *)
Definition nullCell (key : string) (row : T) : bool :=
  match cell row key with
  | CellNull => true
  | _ => false
  end.

End DataTable.

(** The sort state is coherent: a column is chosen exactly when a
    direction is. *)
Definition coherent (s : SortState) : Prop :=
  sortColumn s = None <-> sortDirection s = None.

(** The cells of an allocation row, by column key. *)
Definition allocationCell (row : CatAllocationRow.t) (key : string) : CellValue :=
  if String.eqb key "node" then CellText (CatAllocationRow.node row)
  else if String.eqb key "ip" then
    match CatAllocationRow.ip row with
    | Some ip => CellText ip
    | None => CellNull
    end
  else if String.eqb key "shards" then
    CellNumber (js_of_Z (CatAllocationRow.shards row))
  else if String.eqb key "diskAvail" then CellText (CatAllocationRow.diskAvail row)
  else CellNull.

(** [String(n)] on the integers met in the examples. *)
Definition integerText (n : jsnum) : string :=
  match n with
  | Fin q => numberToString (Qnum q / Zpos (Qden q))
  | NaN => "NaN"
  | PosInf => "Infinity"
  | NegInf => "-Infinity"
  end.

Definition allocationColumns : list (@Column CatAllocationRow.t) :=
  [ mkColumn "node" (Some true) None;
    mkColumn "ip" None None;
    mkColumn "actions" (Some false) None ].

Definition allocationRows : list CatAllocationRow.t :=
  [ CatAllocationRow.mk 12 "50gb" "hot-2" None;
    CatAllocationRow.mk 7 "80gb" "hot-1" (Some "10.0.0.2");
    CatAllocationRow.mk 3 "N/A" "UNASSIGNED" None;
    CatAllocationRow.mk 9 "20gb" "warm-1" (Some "10.0.0.1") ].

(** *** App.tsx: [recoveryTargetStats] *)

(** [targetMap.get(key)] *)
Fixpoint Map_get {V : Type} (m : list (string * V)) (key : string) : option V :=
  match m with
  | [] => None
  | (k, v) :: r => if String.eqb k key then Some v else Map_get r key
  end.

(** One entry of [targets]: [{ target, count }]. *)
Record TargetCount : Type := mkTargetCount {
  tc_target : string;
  tc_count : Z
}.

(** [r.target || r.targetNode] *)
Definition recoveryTarget (r : RecoveryRow.t) : string :=
  str_or (RecoveryRow.target r) (RecoveryRow.targetNode r).

(** The body of the [forEach] over the recovery rows. *)
Definition countTarget (targetMap : list (string * Z)) (r : RecoveryRow.t)
  : list (string * Z) :=
  let target := recoveryTarget r in
  if str_truthy target then
    (* (targetMap.get(target) || 0) + 1 *)
    let seen :=
      match Map_get targetMap target with
      | Some c => if c =? 0 then 0 else c
      | None => 0
      end in
    Map_set targetMap target (seen + 1)
  else targetMap.

(** The comparator [(a, b) => b.count - a.count]. *)
Definition byCountDescending (a b : TargetCount) : jsnum :=
  js_sub (js_of_Z (tc_count b)) (js_of_Z (tc_count a)).

(** [recoveryTargetStats.targets] *)
Definition recoveryTargetStats (snapshot : option MonitoringSnapshot.t)
  : list TargetCount :=
  match snapshot with
  | None => []
  | Some s =>
      match MonitoringSnapshot.recovery s with
      | [] => []
      | rows =>
          Array_sort byCountDescending
            (map (fun entry => mkTargetCount (fst entry) (snd entry))
                 (fold_left countTarget rows []))
      end
  end.

(** The recovery rows of a snapshot that go to a given target. *)
Definition rowsToTarget (snapshot : option MonitoringSnapshot.t)
  (name : string) : list RecoveryRow.t :=
  match snapshot with
  | None => []
  | Some s =>
      filter (fun r => String.eqb (recoveryTarget r) name)
             (MonitoringSnapshot.recovery s)
  end.

(** The number stored for a key, 0 when the key is absent. *)
Definition stored (m : list (string * Z)) (name : string) : Z :=
  match Map_get m name with
  | Some c => c
  | None => 0
  end.

(** What the map holds while it is filled: distinct non-empty keys, and
    counts of at least 1. *)
Definition counting (m : list (string * Z)) : Prop :=
  NoDup (map fst m) /\
  forall k v, In (k, v) m -> str_truthy k = true /\ 1 <= v.

(** The number of rows that go to a target. *)
Definition tally (name : string) (rows : list RecoveryRow.t) : Z :=
  Z.of_nat (length (filter (fun r => String.eqb (recoveryTarget r) name) rows)).

Definition recoveryTo (target targetNode : string) : RecoveryRow.t :=
  RecoveryRow.mk "logs-1" "0" "1s" "hot-1" targetNode target "50%" "50%"
    "index" "0".

Definition recoveryRows : list RecoveryRow.t :=
  [ recoveryTo "hot-2" "hot-2"; recoveryTo "" "warm-1"; recoveryTo "warm-1" "";
    recoveryTo "" ""; recoveryTo "warm-1" "warm-1"; recoveryTo "hot-3" "x" ].

(** *** utils/format.ts: [parseDiskSizeToBytes] and [parsePercentage] *)

(** [[kmgt]?b] anchored at both ends. *)
Definition isDiskUnit (s : string) : bool :=
  match s with
  | String b EmptyString => Ascii.eqb b "b"
  | String u (String b EmptyString) =>
      (Ascii.eqb u "k" || Ascii.eqb u "m" || Ascii.eqb u "g" ||
       Ascii.eqb u "t") && Ascii.eqb b "b"
  | _ => false
  end.

(** [str.match(/^([\d.]+)([kmgt]?b)$/)]: the two groups. *)
Fixpoint matchDiskSize (s : string) : option (string * string) :=
  match s with
  | EmptyString => None
  | String c r =>
      if is_digit c || Ascii.eqb c "." then
        if isDiskUnit r then Some (String c EmptyString, r)
        else
          match matchDiskSize r with
          | Some (num, unit) => Some (String c num, unit)
          | None => None
          end
      else None
  end.

(** [multipliers[unit]] of [parseDiskSizeToBytes]. *)
Definition diskMultipliers (unit : ascii) : option Z :=
  if Ascii.eqb unit "b" then Some 1
  else if Ascii.eqb unit "k" then Some 1024
  else if Ascii.eqb unit "m" then Some (1024 * 1024)
  else if Ascii.eqb unit "g" then Some (1024 * 1024 * 1024)
  else if Ascii.eqb unit "t" then Some (1024 * 1024 * 1024 * 1024)
  else None.

Definition parseDiskSizeToBytes (size : option string) : jsnum :=
  match size with
  | None => Fin 0
  | Some size =>
      if negb (str_truthy size) || String.eqb size "N/A" then Fin 0
      else
        match matchDiskSize (toLowerCase size) with
        | None => Fin 0
        | Some (num, unit) =>
            let value := parseFloat num in
            (* multipliers[unit.charAt(0)] || 1 *)
            let m :=
              match unit with
              | String u _ =>
                  match diskMultipliers u with
                  | Some k => if js_truthy (js_of_Z k) then js_of_Z k else Fin 1
                  | None => Fin 1
                  end
              | EmptyString => Fin 1
              end in
            js_mul value m
        end
  end.

(** [str.match(/^([\d.]+)%?$/)]: the group. *)
Fixpoint matchPercentage (s : string) : option string :=
  match s with
  | EmptyString => None
  | String c r =>
      if is_digit c || Ascii.eqb c "." then
        match r with
        | EmptyString => Some (String c EmptyString)
        | String p EmptyString =>
            if Ascii.eqb p "%" then Some (String c EmptyString)
            else
              match matchPercentage r with
              | Some num => Some (String c num)
              | None => None
              end
        | _ =>
            match matchPercentage r with
            | Some num => Some (String c num)
            | None => None
            end
        end
      else None
  end.

Definition parsePercentage (percent : option string) : jsnum :=
  match percent with
  | None => Fin 0
  | Some percent =>
      if negb (str_truthy percent) then Fin 0
      else
        match matchPercentage percent with
        | None => Fin 0
        | Some num => parseFloat num
        end
  end.

(** A run of digits and dots. *)
Fixpoint digitsAndDots (s : string) : bool :=
  match s with
  | EmptyString => true
  | String c r => (is_digit c || Ascii.eqb c ".") && digitsAndDots r
  end.

(** *** App.tsx: the columns of the allocation table *)

Definition diskAvailBytes (row : CatAllocationRow.t) : jsnum :=
  parseDiskSizeToBytes (Some (CatAllocationRow.diskAvail row)).

Definition allocationTableColumns : list (@Column CatAllocationRow.t) :=
  [ mkColumn "node" (Some true) None;
    mkColumn "ip" (Some true) None;
    mkColumn "shards" (Some true)
      (Some (fun a b => js_sub (js_of_Z (CatAllocationRow.shards a))
                               (js_of_Z (CatAllocationRow.shards b))));
    mkColumn "diskAvail" (Some true)
      (Some (fun a b =>
               let aBytes := diskAvailBytes a in
               let bBytes := diskAvailBytes b in
               js_sub aBytes bBytes)) ].

(** ** Uptimes and the upgrade sequence, in the words of the specification *)

(** A whole number written with at most eleven digits.  (Eleven digits
    keep the number of seconds below 2^53, the range in which the
    products and differences of the code are exact.) *)
Definition wholeNumber (d : string) : Prop :=
  d <> EmptyString /\ all_digits d = true /\ (String.length d <= 11)%nat.

(** The seconds an uptime stands for: a whole number of seconds,
    minutes, hours or days. *)
Inductive standsFor : string -> Z -> Prop :=
| standsFor_s (d : string) :
    wholeNumber d -> standsFor (d ++ "s") (digits_value 0 d)
| standsFor_m (d : string) :
    wholeNumber d -> standsFor (d ++ "m") (digits_value 0 d * 60)
| standsFor_h (d : string) :
    wholeNumber d -> standsFor (d ++ "h") (digits_value 0 d * 3600)
| standsFor_d (d : string) :
    wholeNumber d -> standsFor (d ++ "d") (digits_value 0 d * 86400).




(* ================================================================== *)
(** * Part II. Properties *)
(* ================================================================== *)

Lemma js_ltb_irrefl (a : jsnum) : js_ltb a a = false.
Proof.
  destruct a; simpl; trivial.
  apply negb_false_iff, Qle_bool_iff, Qle_refl.
Qed.

Lemma js_or0_falsy (a : jsnum) :
  js_truthy (js_or0 a) = false -> js_or0 a = Fin 0.
Proof.
  unfold js_or0. destruct (js_truthy a) eqn:E; intros H.
  - congruence.
  - reflexivity.
Qed.

Section VersionFacts.

Variable Number : string -> jsnum.

Lemma partAt_nth (parts : list jsnum) (i : nat) :
  partAt parts i = nth i (map js_or0 parts) (Fin 0).
Proof.
  unfold partAt. revert i.
  induction parts as [|x r IH]; intros [|i]; simpl; auto.
Qed.

Lemma nth_dropTrailingZeros (l : list jsnum) :
  Forall (fun x => js_truthy x = false -> x = Fin 0) l ->
  forall i, nth i (dropTrailingZeros l) (Fin 0) = nth i l (Fin 0).
Proof.
  induction 1 as [|x r Hx Hr IH]; intros i; simpl.
  - reflexivity.
  - destruct (dropTrailingZeros r) as [|y r'] eqn:E.
    + destruct (js_truthy x) eqn:T.
      * destruct i as [|i]; simpl; auto.
        rewrite <- IH. now destruct i.
      * rewrite (Hx eq_refl).
        destruct i as [|i]; simpl; auto.
        rewrite <- IH. now destruct i.
    + destruct i as [|i]; simpl; auto.
      now rewrite <- IH.
Qed.

Lemma normal_map_or0 (l : list jsnum) :
  Forall (fun x => js_truthy x = false -> x = Fin 0) (map js_or0 l).
Proof.
  induction l; simpl; constructor; auto using js_or0_falsy.
Qed.

Lemma partAt_versionValue (v : string) (i : nat) :
  partAt (versionParts Number v) i = nth i (versionValue Number v) (Fin 0).
Proof.
  unfold versionValue.
  rewrite nth_dropTrailingZeros by apply normal_map_or0.
  apply partAt_nth.
Qed.

Lemma compareLoop_range (p1 p2 : list jsnum) (n i : nat) :
  compareLoop p1 p2 n i = -1 \/ compareLoop p1 p2 n i = 0 \/
  compareLoop p1 p2 n i = 1.
Proof.
  revert i. induction n as [|n IH]; intros i; simpl; auto.
  destruct (js_ltb _ _); auto.
  destruct (js_gtb _ _); auto.
Qed.

Lemma compareLoop_same (p1 p2 : list jsnum) (n i : nat) :
  (forall j, partAt p1 j = partAt p2 j) ->
  compareLoop p1 p2 n i = 0.
Proof.
  intros H. revert i. induction n as [|n IH]; intros i; simpl; auto.
  unfold js_gtb. rewrite H, js_ltb_irrefl. apply IH.
Qed.

(** C3. Two version strings that denote the same numeric value
    (segments read as numbers, missing trailing segments as zero, so
    that "8.15" and "8.15.0" agree) compare as 0, whatever their
    segment counts; and every comparison returns -1, 0 or 1. *)
Theorem compareVersions_equal_value_and_range (v1 v2 : string) :
  (versionValue Number v1 = versionValue Number v2 ->
   compareVersions Number v1 v2 = 0) /\
  (compareVersions Number v1 v2 = -1 \/
   compareVersions Number v1 v2 = 0 \/
   compareVersions Number v1 v2 = 1).
Proof.
  split.
  - intros H. unfold compareVersions. apply compareLoop_same.
    intros j. now rewrite !partAt_versionValue, H.
  - apply compareLoop_range.
Qed.

End VersionFacts.

Lemma compareVersions_equal_value_and_range_witness :
  length (versionParts NumberDigits "8.15") <>
  length (versionParts NumberDigits "8.15.0") /\
  compareVersions NumberDigits "8.15" "8.15.0" = 0.
Proof.
  split.
  - vm_compute. discriminate.
  - apply (proj1 (compareVersions_equal_value_and_range
                    NumberDigits "8.15" "8.15.0")).
    vm_compute. reflexivity.
Defined.

(** ** Numbers *)

Lemma js_ltb_Fin (x y : Q) : js_ltb (Fin x) (Fin y) = true <-> (x < y)%Q.
Proof.
  simpl. rewrite negb_true_iff. split; intros H.
  - apply Qnot_le_lt. intros C. apply Qle_bool_iff in C. congruence.
  - destruct (Qle_bool y x) eqn:E; auto.
    apply Qle_bool_iff in E. lra.
Qed.

Lemma js_ltb_trans (a b c : jsnum) :
  js_ltb a b = true -> js_ltb b c = true -> js_ltb a c = true.
Proof.
  destruct a, b, c; simpl; try congruence.
  intros H1 H2. apply js_ltb_Fin. apply js_ltb_Fin in H1, H2. lra.
Qed.

Lemma js_ltb_asym (a b : jsnum) :
  js_ltb a b = true -> js_ltb b a = false.
Proof.
  destruct a, b; simpl; try congruence.
  intros H. apply js_ltb_Fin in H.
  apply negb_false_iff, Qle_bool_iff. lra.
Qed.

Lemma js_sub_neg (a b : jsnum) :
  js_ltb (js_sub a b) (Fin 0) = js_ltb a b.
Proof.
  destruct a, b; simpl; try reflexivity.
  destruct (Qle_bool q0 q) eqn:E1, (Qle_bool 0 (q - q0)) eqn:E2; auto.
  - apply Qle_bool_iff in E1.
    assert (~ (0 <= q - q0)%Q) by (intros C; apply Qle_bool_iff in C; congruence).
    lra.
  - apply Qle_bool_iff in E2.
    assert (~ (q0 <= q)%Q) by (intros C; apply Qle_bool_iff in C; congruence).
    lra.
Qed.

Lemma js_of_Z_neg (d : Z) : js_ltb (js_of_Z d) (Fin 0) = (d <? 0).
Proof.
  unfold js_of_Z. simpl. unfold Qle_bool. simpl.
  rewrite Z.mul_1_r. destruct (Z.leb_spec 0 d), (Z.ltb_spec d 0); simpl; auto; lia.
Qed.

(** ** Sorting *)

Section ArraySortFacts.

Context {A : Type}.
Variable comparefn : A -> A -> jsnum.


Lemma insertSorted_perm (x : A) (l : list A) :
  Permutation (insertSorted comparefn x l) (x :: l).
Proof.
  induction l as [|y r IH]; simpl.
  - reflexivity.
  - destruct (sortsBefore comparefn x y).
    + reflexivity.
    + rewrite IH. apply perm_swap.
Qed.

Lemma fold_insert_perm (l acc : list A) :
  Permutation (fold_left (fun a x => insertSorted comparefn x a) l acc)
              (acc ++ l).
Proof.
  revert acc. induction l as [|x r IH]; intros acc; simpl.
  - now rewrite app_nil_r.
  - rewrite IH, insertSorted_perm.
    change (x :: acc) with ([x] ++ acc).
    rewrite (Permutation_app_comm [x] acc), <- app_assoc. reflexivity.
Qed.

Lemma Array_sort_perm (l : list A) : Permutation (Array_sort comparefn l) l.
Proof. unfold Array_sort. now rewrite fold_insert_perm. Qed.

Hypothesis before_trans :
  forall x y z, sortsBefore comparefn x y = true -> sortsBefore comparefn y z = true -> sortsBefore comparefn x z = true.
Hypothesis before_asym :
  forall x y, sortsBefore comparefn x y = true -> sortsBefore comparefn y x = false.

Lemma insertSorted_sorted (x : A) (l : list A) :
  StronglySorted (inOrder comparefn) l -> StronglySorted (inOrder comparefn) (insertSorted comparefn x l).
Proof.
  induction 1 as [|y r Hr IH Hy]; simpl.
  - repeat constructor.
  - destruct (sortsBefore comparefn x y) eqn:E.
    + constructor; [constructor; assumption|].
      constructor; [now apply before_asym|].
      rewrite Forall_forall in *. intros z Hz. unfold inOrder.
      destruct (sortsBefore comparefn z x) eqn:Ez; auto.
      rewrite <- (Hy z Hz). symmetry. eapply before_trans; eauto.
    + constructor; auto.
      rewrite Forall_forall in *. intros z Hz.
      apply (Permutation_in _ (insertSorted_perm x r)) in Hz.
      destruct Hz as [<-|Hz]; auto.
Qed.

Lemma Array_sort_sorted (l : list A) :
  StronglySorted (inOrder comparefn) (Array_sort comparefn l).
Proof.
  unfold Array_sort.
  assert (G : forall acc, StronglySorted (inOrder comparefn) acc ->
            StronglySorted (inOrder comparefn)
              (fold_left (fun a x => insertSorted comparefn x a) l acc)).
  { induction l as [|x r IH]; intros acc Hacc; simpl; auto.
    apply IH, insertSorted_sorted, Hacc. }
  apply G. constructor.
Qed.

(** A list already in order, under a comparator for which "neither
    before the other" is transitive, is left as it is. *)
Lemma insertSorted_last (x : A) (l : list A) :
  Forall (fun y => sortsBefore comparefn x y = false) l ->
  insertSorted comparefn x l = l ++ [x].
Proof.
  induction 1 as [|y r Hy Hr IH]; simpl; auto.
  now rewrite Hy, IH.
Qed.

Lemma fold_insert_sorted_id (l acc : list A) :
  StronglySorted (inOrder comparefn) (acc ++ l) ->
  fold_left (fun a x => insertSorted comparefn x a) l acc = acc ++ l.
Proof.
  revert acc. induction l as [|x r IH]; intros acc H; simpl.
  - now rewrite app_nil_r.
  - assert (E : insertSorted comparefn x acc = acc ++ [x]).
    { apply insertSorted_last.
      clear IH. induction acc as [|a acc IHa]; simpl in *; constructor.
      - inversion H; subst. rewrite Forall_forall in H3.
        apply H3, in_or_app. right. now left.
      - apply IHa. now inversion H. }
    rewrite E, IH; rewrite <- app_assoc; simpl; auto.
Qed.

Lemma Array_sort_sorted_id (l : list A) :
  StronglySorted (inOrder comparefn) l -> Array_sort comparefn l = l.
Proof. intros H. unfold Array_sort. now rewrite fold_insert_sorted_id. Qed.

End ArraySortFacts.
(** ** utils/upgradeOrder.ts *)

Section UpgradeOrderFacts.

Variable Number : string -> jsnum.

(** C6. For every node and every highest-version baseline the tier is
    decided by the first matching rule, in this order: the node's
    version at or above the highest version (both present) gives null;
    then role letter f gives 1, c gives 2, w gives 3, h gives 4, d or s
    gives 5, one of l, i, t, r, v gives 6, m gives 7; otherwise 8. *)
Theorem calculateUpgradeOrder_first_match
  (n : NodeInfo.t) (highestVersion : option string) :
  calculateUpgradeOrder Number n highestVersion =
    (if alreadyUpgraded Number n highestVersion then None
     else Some (firstMatchingTier tierRules (NodeInfo.nodeRole n))) /\
  (alreadyUpgraded Number n highestVersion = true <->
   exists h, highestVersion = Some h /\ h <> "" /\ NodeInfo.version n <> "" /\
             0 <= compareVersions Number (NodeInfo.version n) h).
Proof.
  split.
  - unfold calculateUpgradeOrder.
    destruct (alreadyUpgraded Number n highestVersion); [reflexivity|].
    cbn [firstMatchingTier tierRules existsb].
    repeat rewrite orb_false_r.
    repeat match goal with
           | |- context [includes ?l ?r] => destruct (includes l r); cbn [orb]
           end; reflexivity.
  - unfold alreadyUpgraded. split.
    + destruct highestVersion as [h|]; [|discriminate].
      rewrite !andb_true_iff. intros [[H1 H2] H3]. exists h.
      repeat split.
      * intros ->. discriminate.
      * intros E. rewrite E in H2. discriminate.
      * apply Z.geb_le in H3. lia.
    + intros (h & -> & H1 & H2 & H3).
      destruct h; [congruence|]. destruct (NodeInfo.version n); [congruence|].
      simpl. apply Z.geb_le. lia.
Qed.

Lemma calculateUpgradeOrder_null_baseline (n : NodeInfo.t) :
  exists t, calculateUpgradeOrder Number n None = Some t /\ 1 <= t <= 8.
Proof.
  unfold calculateUpgradeOrder, alreadyUpgraded.
  repeat match goal with
         | |- context [includes ?l ?r] => destruct (includes l r); cbn [orb]
         end; eexists; split; try reflexivity; lia.
Qed.

Lemma calculateUpgradeOrder_range (n : NodeInfo.t) (hv : option string) (t : Z) :
  calculateUpgradeOrder Number n hv = Some t -> 1 <= t <= 8.
Proof.
  unfold calculateUpgradeOrder. destruct (alreadyUpgraded Number n hv); [discriminate|].
  repeat match goal with
         | |- context [includes ?l ?r] => destruct (includes l r); cbn [orb]
         end; intros [= <-]; lia.
Qed.

End UpgradeOrderFacts.

Lemma calculateUpgradeOrder_first_match_witness :
  calculateUpgradeOrder NumberDigits
    (NodeInfo.mk "dhm" "n1" None "8.15.0" "1d" None) (Some "8.19.0") = Some 4 /\
  alreadyUpgraded NumberDigits
    (NodeInfo.mk "m" "n4" None "8.19.0" "1d" None) (Some "8.19.0") = true.
Proof.
  split.
  - rewrite (proj1 (calculateUpgradeOrder_first_match NumberDigits
                      (NodeInfo.mk "dhm" "n1" None "8.15.0" "1d" None)
                      (Some "8.19.0"))).
    reflexivity.
  - apply (proj2 (calculateUpgradeOrder_first_match NumberDigits
                    (NodeInfo.mk "m" "n4" None "8.19.0" "1d" None)
                    (Some "8.19.0"))).
    exists "8.19.0". repeat split; discriminate.
Defined.

Example getHighestVersion_example :
  getHighestVersion NumberDigits ["8.15.3"; "8.19.7"; "8.2.0"] = Some "8.19.7" /\
  getHighestVersion NumberDigits [] = None /\
  compareVersions NumberDigits "8.2.0" "8.19.7" = -1 /\
  compareVersions NumberDigits "8.19.7" "8.15.3" = 1.
Proof. repeat split; reflexivity. Qed.

Example parseUptime_examples :
  parseUptime "2h" = Fin 7200 /\
  parseUptime "45m" = Fin 2700 /\
  parseUptime "soon" = Fin 0 /\
  parseUptime "" = Fin 0.
Proof. repeat split; reflexivity. Qed.

Example calculateUpgradeOrder_examples :
  calculateUpgradeOrder NumberDigits
    (NodeInfo.mk "dhm" "n1" None "8.15.0" "1d" None) (Some "8.19.0") = Some 4 /\
  calculateUpgradeOrder NumberDigits
    (NodeInfo.mk "cdfhilmrstw" "n2" None "8.15.0" "1d" None) (Some "8.19.0") = Some 1 /\
  calculateUpgradeOrder NumberDigits
    (NodeInfo.mk "mv" "n3" None "8.15.0" "1d" None) (Some "8.19.0") = Some 6 /\
  calculateUpgradeOrder NumberDigits
    (NodeInfo.mk "m" "n4" None "8.19.0" "1d" None) (Some "8.19.0") = None /\
  calculateUpgradeOrder NumberDigits
    (NodeInfo.mk "-" "n5" None "8.15.0" "1d" None) (Some "8.19.0") = Some 8.
Proof. repeat split; reflexivity. Qed.

(** ** App.tsx: sequential upgrade positions *)

Lemma sortsBefore_mixed (a b : NodeInfo.t) :
  sortsBefore compareMixedVersions a b =
  if isNull (NodeInfo.upgradeOrder a) && isNull (NodeInfo.upgradeOrder b)
  then false
  else if isNull (NodeInfo.upgradeOrder a) then true
  else if isNull (NodeInfo.upgradeOrder b) then false
  else if tierOf a =? tierOf b
       then js_ltb (uptimeSeconds b) (uptimeSeconds a)
       else tierOf a <? tierOf b.
Proof.
  unfold sortsBefore, compareMixedVersions, tierOf, uptimeSeconds.
  destruct (isNull (NodeInfo.upgradeOrder a)), (isNull (NodeInfo.upgradeOrder b));
    simpl; try reflexivity.
  destruct (Z.eqb_spec (orElse999 (NodeInfo.upgradeOrder a))
                       (orElse999 (NodeInfo.upgradeOrder b))) as [E|E].
  - rewrite E, Z.sub_diag. simpl. apply js_sub_neg.
  - destruct (Z.eqb_spec (orElse999 (NodeInfo.upgradeOrder a) -
                          orElse999 (NodeInfo.upgradeOrder b)) 0); [lia|].
    cbn [negb]. rewrite js_of_Z_neg.
    destruct (Z.ltb_spec (orElse999 (NodeInfo.upgradeOrder a) -
                          orElse999 (NodeInfo.upgradeOrder b)) 0),
             (Z.ltb_spec (orElse999 (NodeInfo.upgradeOrder a))
                         (orElse999 (NodeInfo.upgradeOrder b)));
      auto; lia.
Qed.

Lemma sortsBefore_same (a b : NodeInfo.t) :
  sortsBefore compareSameVersion a b =
  if isNull (NodeInfo.upgradeOrder a) && isNull (NodeInfo.upgradeOrder b)
  then false
  else if isNull (NodeInfo.upgradeOrder a) then false
  else if isNull (NodeInfo.upgradeOrder b) then true
  else if tierOf a =? tierOf b
       then js_ltb (uptimeSeconds b) (uptimeSeconds a)
       else tierOf a <? tierOf b.
Proof.
  unfold sortsBefore, compareSameVersion, tierOf, uptimeSeconds.
  destruct (isNull (NodeInfo.upgradeOrder a)), (isNull (NodeInfo.upgradeOrder b));
    simpl; try reflexivity.
  destruct (Z.eqb_spec (orElse999 (NodeInfo.upgradeOrder a))
                       (orElse999 (NodeInfo.upgradeOrder b))) as [E|E].
  - rewrite E, Z.sub_diag. simpl. apply js_sub_neg.
  - destruct (Z.eqb_spec (orElse999 (NodeInfo.upgradeOrder a) -
                          orElse999 (NodeInfo.upgradeOrder b)) 0); [lia|].
    cbn [negb]. rewrite js_of_Z_neg.
    destruct (Z.ltb_spec (orElse999 (NodeInfo.upgradeOrder a) -
                          orElse999 (NodeInfo.upgradeOrder b)) 0),
             (Z.ltb_spec (orElse999 (NodeInfo.upgradeOrder a))
                         (orElse999 (NodeInfo.upgradeOrder b)));
      auto; lia.
Qed.

Ltac split_keys :=
  repeat match goal with
         | |- context [isNull ?o] => destruct (isNull o); cbn [andb] in *
         | H : context [isNull ?o] |- _ => destruct (isNull o); cbn [andb] in *
         end;
  try congruence;
  repeat match goal with
         | H : context [Z.eqb ?x ?y] |- _ => destruct (Z.eqb_spec x y)
         | |- context [Z.eqb ?x ?y] => destruct (Z.eqb_spec x y)
         end;
  repeat match goal with
         | H : (_ <? _) = true |- _ => apply Z.ltb_lt in H
         | |- (_ <? _) = true => apply Z.ltb_lt
         | |- (_ <? _) = false => apply Z.ltb_ge
         end;
  try congruence; try lia.



Lemma same_trans (x y z : NodeInfo.t) :
  sortsBefore compareSameVersion x y = true ->
  sortsBefore compareSameVersion y z = true ->
  sortsBefore compareSameVersion x z = true.
Proof.
  rewrite !sortsBefore_same. intros H1 H2. split_keys; eapply js_ltb_trans; eauto.
Qed.

Lemma same_asym (x y : NodeInfo.t) :
  sortsBefore compareSameVersion x y = true ->
  sortsBefore compareSameVersion y x = false.
Proof.
  rewrite !sortsBefore_same. intros H1. split_keys; now apply js_ltb_asym.
Qed.

(** Among nodes with a tier, the order left by either comparator is
    tier ascending, then uptime descending. *)
Lemma inOrder_tierThenUptime (cmp : NodeInfo.t -> NodeInfo.t -> jsnum)
  (a b : NodeInfo.t) :
  cmp = compareMixedVersions \/ cmp = compareSameVersion ->
  isNull (NodeInfo.upgradeOrder a) = false ->
  isNull (NodeInfo.upgradeOrder b) = false ->
  inOrder cmp a b -> tierThenUptime a b.
Proof.
  unfold inOrder, tierThenUptime.
  intros [-> | ->] Ha Hb; [rewrite sortsBefore_mixed | rewrite sortsBefore_same];
    rewrite Ha, Hb; cbn [andb];
    destruct (Z.eqb_spec (tierOf b) (tierOf a)) as [E|E]; intros H.
  - right. split; auto.
  - apply Z.ltb_ge in H. left. lia.
  - right. split; auto.
  - apply Z.ltb_ge in H. left. lia.
Qed.

(** The running counter. *)
Lemma assign_nodes (c : Z) (l : list NodeInfo.t) :
  map node (assignSequentialOrder c l) = l.
Proof.
  revert c. induction l as [|n r IH]; intros c; simpl; auto.
  destruct (isNull (NodeInfo.upgradeOrder n)); simpl; now rewrite IH.
Qed.

Lemma assign_null_iff (c : Z) (l : list NodeInfo.t) :
  Forall (fun s => sequentialOrder s = None <->
                   NodeInfo.upgradeOrder (node s) = Some None)
         (assignSequentialOrder c l).
Proof.
  revert c. induction l as [|n r IH]; intros c; simpl; [constructor|].
  destruct (isNull (NodeInfo.upgradeOrder n)) eqn:E; constructor; auto; simpl.
  - split; auto. intros _. destruct (NodeInfo.upgradeOrder n) as [[|]|]; simpl in E; congruence.
  - split; [discriminate|]. intros H. rewrite H in E. discriminate.
Qed.


Lemma assign_pending (c : Z) (l : list NodeInfo.t) :
  Forall (fun n => isNull (NodeInfo.upgradeOrder n) = false) l ->
  map sequentialOrder (assignSequentialOrder c l) =
  map (fun k => Some (c + Z.of_nat k)) (seq 1 (length l)).
Proof.
  intros H. revert c. induction H as [|n r Hn Hr IH]; intros c; simpl; auto.
  rewrite Hn. simpl. f_equal. rewrite IH, <- (seq_shift (length r) 1), map_map.
  apply map_ext. intros k. f_equal. lia.
Qed.


Lemma StronglySorted_app_r {A : Type} (R : A -> A -> Prop) (l1 l2 : list A) :
  StronglySorted R (l1 ++ l2) -> StronglySorted R l2.
Proof.
  induction l1 as [|x r IH]; simpl; auto.
  intros H. inversion H; auto.
Qed.

Lemma StronglySorted_weaken {A : Type} (R S : A -> A -> Prop) (P : A -> Prop)
  (l : list A) :
  (forall a b, P a -> P b -> R a b -> S a b) ->
  Forall P l -> StronglySorted R l -> StronglySorted S l.
Proof.
  intros HRS HP H. induction H as [|x r Hr IH Hx]; constructor.
  - apply IH. now inversion HP.
  - inversion HP as [|? ? Px Pr]; subst.
    rewrite Forall_forall in *. intros y Hy. apply HRS; auto.
Qed.

Section SequentialOrderFacts.

Variable Number : string -> jsnum.

Lemma compareVersions_refl (v : string) : compareVersions Number v v = 0.
Proof. unfold compareVersions. now apply compareLoop_same. Qed.

Lemma getHighestVersion_in (l : list string) (h : string) :
  getHighestVersion Number l = Some h -> In h l.
Proof.
  destruct l as [|first rest]; [discriminate|]. simpl. intros [= <-].
  assert (G : forall acc,
             fold_left
               (fun highest current =>
                  if compareVersions Number current highest >? 0 then current
                  else highest) rest acc = acc \/
             In (fold_left
                   (fun highest current =>
                      if compareVersions Number current highest >? 0 then current
                      else highest) rest acc) rest).
  { induction rest as [|x r IH]; intros acc; simpl; auto.
    destruct (IH (if compareVersions Number x acc >? 0 then x else acc))
      as [E|E]; [rewrite E|]; auto.
    destruct (compareVersions Number x acc >? 0); auto. }
  destruct (G first) as [E|E]; [rewrite E|]; auto.
Qed.

Lemma tier_null_baseline (n : NodeInfo.t) :
  calculateUpgradeOrder Number n None =
  Some (firstMatchingTier tierRules (NodeInfo.nodeRole n)).
Proof.
  unfold calculateUpgradeOrder, alreadyUpgraded.
  cbn [firstMatchingTier tierRules existsb].
  repeat rewrite orb_false_r.
  repeat match goal with
         | |- context [includes ?l ?r] => destruct (includes l r); cbn [orb]
         end; reflexivity.
Qed.


Lemma highest_is_upgraded (rows : list CatNodesRow) (n : NodeInfo.t) :
  getHighestVersion Number (filter str_truthy (map row_version rows)) =
    Some (NodeInfo.version n) ->
  calculateUpgradeOrder Number n
    (getHighestVersion Number (filter str_truthy (map row_version rows))) = None.
Proof.
  intros H. unfold calculateUpgradeOrder, alreadyUpgraded. rewrite H.
  apply getHighestVersion_in, filter_In in H. destruct H as [_ H].
  rewrite H, compareVersions_refl. reflexivity.
Qed.

Lemma isNull_true (o : option (option Z)) : isNull o = true <-> o = Some None.
Proof. destruct o as [[|]|]; simpl; split; congruence. Qed.

Lemma Forall_nonnull_recomputed (l : list NodeInfo.t) :
  Forall (fun n => isNull (NodeInfo.upgradeOrder n) = false /\
                   NodeInfo.upgradeOrder n =
                     Some (Some (firstMatchingTier tierRules (NodeInfo.nodeRole n))))
         (map (fun n => NodeInfo.with_upgradeOrder n
                          (calculateUpgradeOrder Number n None)) l).
Proof.
  apply Forall_forall. intros n Hn. apply in_map_iff in Hn.
  destruct Hn as (m & <- & _). rewrite tier_null_baseline. split; reflexivity.
Qed.

Lemma allSameVersion_pair (a b : NodeInfo.t) :
  NodeInfo.version a = NodeInfo.version b -> allSameVersion [a; b] = true.
Proof.
  intros E. unfold allSameVersion. simpl. rewrite E, String.eqb_refl.
  reflexivity.
Qed.

(** C8. When all nodes share one version the tiers are recomputed
    against a null baseline: every node has a tier (none is null) and a
    position, the positions being 1..N in the order tier ascending, then
    uptime descending.  In particular a hot node (tier 4) and a master
    node (tier 7) of the same version come out as hot first with
    position 1 and master second with position 2, in whichever order
    they are given. *)
Theorem same_version_sequence :
  (forall snapshot : MonitoringSnapshot.t,
      allSameVersion (MonitoringSnapshot.nodes snapshot) = true ->
      let out := nodesWithSequentialOrder Number (Some snapshot) in
      Permutation (map node out)
        (map (fun n => NodeInfo.with_upgradeOrder n
                         (calculateUpgradeOrder Number n None))
             (MonitoringSnapshot.nodes snapshot)) /\
      Forall (fun s =>
                NodeInfo.upgradeOrder (node s) =
                Some (Some (firstMatchingTier tierRules
                              (NodeInfo.nodeRole (node s))))) out /\
      map sequentialOrder out =
        map (fun k => Some (Z.of_nat k))
            (seq 1 (length (MonitoringSnapshot.nodes snapshot))) /\
      StronglySorted tierThenUptime (map node out)) /\
  (forall (snapshot : MonitoringSnapshot.t) (hot master : NodeInfo.t),
      firstMatchingTier tierRules (NodeInfo.nodeRole hot) = 4 ->
      firstMatchingTier tierRules (NodeInfo.nodeRole master) = 7 ->
      NodeInfo.version hot = NodeInfo.version master ->
      forall given, given = [hot; master] \/ given = [master; hot] ->
      nodesWithSequentialOrder Number
        (Some (MonitoringSnapshot.with_nodes snapshot given)) =
      [ mkSequencedNode (NodeInfo.with_upgradeOrder hot (Some 4)) (Some 1);
        mkSequencedNode (NodeInfo.with_upgradeOrder master (Some 7)) (Some 2) ]).
Proof.
  split.
  - intros snapshot Hsame out.
    set (recomputed := map (fun n => NodeInfo.with_upgradeOrder n
                                 (calculateUpgradeOrder Number n None))
                           (MonitoringSnapshot.nodes snapshot)).
    assert (Eout : out = assignSequentialOrder 0
                           (Array_sort compareSameVersion recomputed)).
    { unfold out, nodesWithSequentialOrder. now rewrite Hsame. }
    pose proof (Array_sort_perm compareSameVersion recomputed) as Hperm.
    pose proof (Array_sort_sorted compareSameVersion same_trans same_asym
                  recomputed) as Hsorted.
    assert (Hall : Forall (fun n => isNull (NodeInfo.upgradeOrder n) = false /\
                     NodeInfo.upgradeOrder n =
                       Some (Some (firstMatchingTier tierRules (NodeInfo.nodeRole n))))
                     (Array_sort compareSameVersion recomputed)).
    { apply Forall_forall. intros n Hn.
      apply (Permutation_in _ Hperm) in Hn.
      pose proof (Forall_nonnull_recomputed (MonitoringSnapshot.nodes snapshot)) as G.
      rewrite Forall_forall in G. now apply G. }
    assert (Hnodes : map node out = Array_sort compareSameVersion recomputed)
      by (rewrite Eout; apply assign_nodes).
    split; [now rewrite Hnodes|]. split; [|split].
    + rewrite Forall_forall in *. intros s Hs.
      apply Hall. rewrite <- Hnodes. now apply in_map.
    + rewrite Eout, assign_pending.
      * rewrite (Permutation_length Hperm). unfold recomputed.
        now rewrite length_map.
      * eapply Forall_impl; [|exact Hall]. now intros n [H _].
    + rewrite Hnodes.
      apply (StronglySorted_weaken (inOrder compareSameVersion) tierThenUptime
               (fun n => isNull (NodeInfo.upgradeOrder n) = false));
        [ | eapply Forall_impl; [|exact Hall]; now intros n [H _] | exact Hsorted].
      intros a b Ha Hb Hab.
      apply (inOrder_tierThenUptime compareSameVersion); auto.
  - intros snapshot hot master Hhot Hmaster Hv given Hgiven.
    unfold nodesWithSequentialOrder.
    cbn [MonitoringSnapshot.with_nodes MonitoringSnapshot.nodes].
    assert (Hb : sortsBefore compareSameVersion
                   (NodeInfo.with_upgradeOrder hot (Some 4))
                   (NodeInfo.with_upgradeOrder master (Some 7)) = true)
      by (rewrite sortsBefore_same; reflexivity).
    assert (Hb' : sortsBefore compareSameVersion
                   (NodeInfo.with_upgradeOrder master (Some 7))
                   (NodeInfo.with_upgradeOrder hot (Some 4)) = false)
      by (rewrite sortsBefore_same; reflexivity).
    destruct Hgiven as [-> | ->].
    + rewrite (allSameVersion_pair hot master Hv).
      cbn [map]. rewrite !tier_null_baseline, Hhot, Hmaster.
      unfold Array_sort. cbn [fold_left insertSorted]. rewrite Hb'.
      reflexivity.
    + rewrite (allSameVersion_pair master hot (eq_sym Hv)).
      cbn [map]. rewrite !tier_null_baseline, Hhot, Hmaster.
      unfold Array_sort. cbn [fold_left insertSorted]. rewrite Hb.
      reflexivity.
Qed.

End SequentialOrderFacts.

(** The example of the specification: the 8.19.0 node is unnumbered and
    stands first, the two 8.15.0 nodes get positions 1 and 2, hot before
    master. *)
Example mixed_versions_example :
  map (fun s => (NodeInfo.name (node s), NodeInfo.upgradeOrder (node s),
                 sequentialOrder s))
      (nodesWithSequentialOrder NumberDigits
         (Some (MonitoringSnapshot.with_nodes sampleSnapshot
                  (getNodes NumberDigits mixedRows)))) =
  [ ("hot-2", Some None, None);
    ("hot-1", Some (Some 4), Some 1);
    ("master-1", Some (Some 7), Some 2) ].
Proof. vm_compute. reflexivity. Qed.

Lemma same_version_sequence_witness :
  map sequentialOrder
    (nodesWithSequentialOrder NumberDigits
       (Some (MonitoringSnapshot.with_nodes sampleSnapshot
                [masterNode; hotNode]))) = [Some 1; Some 2] /\
  nodesWithSequentialOrder NumberDigits
    (Some (MonitoringSnapshot.with_nodes sampleSnapshot [masterNode; hotNode])) =
  [ mkSequencedNode (NodeInfo.with_upgradeOrder hotNode (Some 4)) (Some 1);
    mkSequencedNode (NodeInfo.with_upgradeOrder masterNode (Some 7)) (Some 2) ].
Proof.
  split.
  - exact (proj1 (proj2 (proj2
             (proj1 (same_version_sequence NumberDigits)
                (MonitoringSnapshot.with_nodes sampleSnapshot
                   [masterNode; hotNode]) eq_refl)))).
  - exact (proj2 (same_version_sequence NumberDigits)
             sampleSnapshot hotNode masterNode eq_refl eq_refl eq_refl
             [masterNode; hotNode] (or_intror eq_refl)).
Defined.
(** ** The health history *)

Lemma Map_set_keys {V : Type} (m : list (string * V)) (k : string) (v : V) :
  map fst (Map_set m k v) =
  if existsb (String.eqb k) (map fst m) then map fst m else map fst m ++ [k].
Proof.
  induction m as [|[k' v'] r IH]; simpl; auto.
  rewrite (String.eqb_sym k k').
  destruct (String.eqb_spec k' k) as [->|N]; simpl; auto.
  rewrite IH. now destruct (existsb (String.eqb k) (map fst r)).
Qed.

Lemma existsb_eqb_In (k : string) (l : list string) :
  existsb (String.eqb k) l = true <-> In k l.
Proof.
  rewrite existsb_exists. split.
  - intros (x & Hx & E). apply String.eqb_eq in E. now subst.
  - intros H. exists k. split; auto. apply String.eqb_refl.
Qed.

Lemma Map_set_NoDup {V : Type} (m : list (string * V)) (k : string) (v : V) :
  NoDup (map fst m) -> NoDup (map fst (Map_set m k v)).
Proof.
  intros H. rewrite Map_set_keys.
  destruct (existsb (String.eqb k) (map fst m)) eqn:E; auto.
  apply NoDup_app; auto.
  - repeat constructor. intros [].
  - intros x Hx [<-|[]].
    apply existsb_eqb_In in Hx. congruence.
Qed.

Lemma Map_set_In {V : Type} (m : list (string * V)) (k : string) (v : V)
  (k' : string) (v' : V) :
  NoDup (map fst m) ->
  In (k', v') (Map_set m k v) <->
  (k' = k /\ v' = v) \/ (k' <> k /\ In (k', v') m).
Proof.
  induction m as [|[k0 v0] r IH]; simpl; intros H.
  - split.
    + intros [[= <- <-]|[]]. now left.
    + intros [[-> ->]|[_ []]]. now left.
  - inversion H as [|? ? Hk0 Hr]; subst.
    destruct (String.eqb_spec k0 k) as [->|N]; simpl.
    + split.
      * intros [[= <- <-]|Hin]; [now left|].
        right. split; auto. intros ->. apply Hk0.
        change k with (fst (k, v')). now apply in_map.
      * intros [[-> ->]|[Nk [[= -> ->]|Hin]]]; auto. congruence.
    + rewrite (IH Hr). split.
      * intros [[= <- <-]|[[-> ->]|[Nk Hin]]]; auto.
      * intros [[-> ->]|[Nk [[= -> ->]|Hin]]]; auto.
Qed.

Lemma lastWithTimestamp_snoc (l : list CatHealthRow.t) (x : CatHealthRow.t)
  (ts : string) :
  lastWithTimestamp (l ++ [x]) ts =
  if String.eqb (CatHealthRow.timestamp x) ts then Some x
  else lastWithTimestamp l ts.
Proof. unfold lastWithTimestamp. now rewrite rev_unit. Qed.

Lemma lastWithTimestamp_app (l1 l2 : list CatHealthRow.t) (ts : string) :
  lastWithTimestamp (l1 ++ l2) ts =
  match lastWithTimestamp l2 ts with
  | Some r => Some r
  | None => lastWithTimestamp l1 ts
  end.
Proof.
  unfold lastWithTimestamp. rewrite rev_app_distr.
  induction (rev l2) as [|y r IH]; simpl; auto.
  now destruct (String.eqb (CatHealthRow.timestamp y) ts).
Qed.

Lemma lastWithTimestamp_some (l : list CatHealthRow.t) (ts : string)
  (r : CatHealthRow.t) :
  lastWithTimestamp l ts = Some r -> In r l /\ CatHealthRow.timestamp r = ts.
Proof.
  unfold lastWithTimestamp. intros H. apply find_some in H.
  destruct H as [H1 H2]. apply in_rev in H1. apply String.eqb_eq in H2. auto.
Qed.

Lemma lastWithTimestamp_none (l : list CatHealthRow.t) (ts : string) :
  lastWithTimestamp l ts = None ->
  forall r, In r l -> CatHealthRow.timestamp r <> ts.
Proof.
  unfold lastWithTimestamp. intros H r Hr E.
  apply in_rev in Hr. pose proof (find_none _ _ H r Hr) as F.
  simpl in F. apply String.eqb_neq in F. contradiction.
Qed.

Lemma lastWithTimestamp_unique (l : list CatHealthRow.t) (r : CatHealthRow.t) :
  NoDup (map CatHealthRow.timestamp l) -> In r l ->
  lastWithTimestamp l (CatHealthRow.timestamp r) = Some r.
Proof.
  induction l as [|x l IH] using rev_ind; [intros _ []|].
  rewrite map_app, lastWithTimestamp_snoc. simpl. intros H Hr.
  apply NoDup_remove in H. rewrite app_nil_r in H. destruct H as [H1 H2].
  apply in_app_or in Hr.
  destruct (String.eqb_spec (CatHealthRow.timestamp x) (CatHealthRow.timestamp r))
    as [E|N].
  - destruct Hr as [Hr|[->|[]]]; auto.
    exfalso. apply H2. rewrite E. now apply in_map.
  - destruct Hr as [Hr|[->|[]]]; auto. congruence.
Qed.

(** The map built by the [forEach]: keyed by timestamp, without
    duplicate keys, and holding for each timestamp the row provided
    last. *)
Lemma mergedMap_spec (items : list CatHealthRow.t) :
  Forall (fun kv => fst kv = CatHealthRow.timestamp (snd kv)) (mergedMap items) /\
  NoDup (map fst (mergedMap items)) /\
  forall r, In r (Map_values (mergedMap items)) <->
            lastWithTimestamp items (CatHealthRow.timestamp r) = Some r.
Proof.
  unfold mergedMap.
  induction items as [|x l IH] using rev_ind.
  - simpl. repeat split; try constructor; try contradiction; discriminate.
  - rewrite fold_left_app. simpl.
    set (m := fold_left _ l []) in *.
    destruct IH as (Hk & Hn & Hv).
    assert (Hk' : Forall (fun kv => fst kv = CatHealthRow.timestamp (snd kv))
                    (Map_set m (CatHealthRow.timestamp x) x)).
    { apply Forall_forall. intros [k v] Hin.
      apply Map_set_In in Hin; auto.
      destruct Hin as [[-> ->]|[_ Hin]]; auto.
      rewrite Forall_forall in Hk. now apply (Hk (k, v)). }
    split; [assumption|]. split; [now apply Map_set_NoDup|].
    intros r. rewrite lastWithTimestamp_snoc. unfold Map_values in *.
    rewrite in_map_iff. split.
    + intros ([k v] & E & Hin). simpl in E. subst v.
      apply Map_set_In in Hin; auto.
      destruct Hin as [[-> ->]|[Nk Hin]].
      * now rewrite String.eqb_refl.
      * rewrite Forall_forall in Hk. pose proof (Hk _ Hin) as Ek. simpl in Ek.
        subst k.
        destruct (String.eqb_spec (CatHealthRow.timestamp x)
                                  (CatHealthRow.timestamp r)); [congruence|].
        apply Hv, in_map_iff. now exists (CatHealthRow.timestamp r, r).
    + destruct (String.eqb_spec (CatHealthRow.timestamp x)
                                (CatHealthRow.timestamp r)) as [E|N].
      * intros [= ->]. exists (CatHealthRow.timestamp r, r). split; auto.
        apply Map_set_In; auto.
      * intros H. apply Hv, in_map_iff in H. destruct H as ([k v] & E & Hin).
        simpl in E. subst v. exists (k, r). split; auto.
        apply Map_set_In; auto. right. split; auto.
        rewrite Forall_forall in Hk. pose proof (Hk _ Hin) as Ek. simpl in Ek.
        congruence.
Qed.

Lemma mergedMap_timestamps (items : list CatHealthRow.t) :
  map CatHealthRow.timestamp (Map_values (mergedMap items)) =
  map fst (mergedMap items).
Proof.
  destruct (mergedMap_spec items) as (Hk & _ & _).
  unfold Map_values. rewrite map_map.
  induction Hk as [|kv r E Hr IH]; simpl; auto.
  now rewrite IH, E.
Qed.

Lemma sliceLast_incl {A : Type} (n : nat) (l : list A) (x : A) :
  In x (sliceLast n l) -> In x l.
Proof.
  unfold sliceLast. intros H.
  rewrite <- (firstn_skipn (length l - n) l). apply in_or_app. now right.
Qed.

Lemma sliceLast_length {A : Type} (n : nat) (l : list A) :
  (length (sliceLast n l) <= n)%nat.
Proof. unfold sliceLast. rewrite length_skipn. lia. Qed.

Lemma sliceLast_all {A : Type} (n : nat) (l : list A) :
  (length l <= n)%nat -> sliceLast n l = l.
Proof.
  unfold sliceLast. intros H.
  replace (length l - n)%nat with 0%nat by lia. reflexivity.
Qed.

Lemma sliceLast_app {A : Type} (l1 l2 : list A) :
  sliceLast (length l2) (l1 ++ l2) = l2.
Proof.
  unfold sliceLast. rewrite length_app.
  replace (length l1 + length l2 - length l2)%nat with (length l1) by lia.
  now rewrite skipn_app, skipn_all, Nat.sub_diag.
Qed.

Lemma sliceLast_NoDup {A : Type} (n : nat) (l : list A) :
  NoDup l -> NoDup (sliceLast n l).
Proof.
  unfold sliceLast. intros H.
  rewrite <- (firstn_skipn (length l - n) l) in H.
  now apply NoDup_app_remove_l in H.
Qed.

Lemma sliceLast_sorted {A : Type} (R : A -> A -> Prop) (n : nat) (l : list A) :
  StronglySorted R l -> StronglySorted R (sliceLast n l).
Proof.
  unfold sliceLast. intros H.
  rewrite <- (firstn_skipn (length l - n) l) in H.
  now apply StronglySorted_app_r in H.
Qed.

Lemma sliceLast_map {A B : Type} (f : A -> B) (n : nat) (l : list A) :
  map f (sliceLast n l) = sliceLast n (map f l).
Proof. unfold sliceLast. now rewrite length_map, skipn_map. Qed.

(** *** Lists sorted by a strict order *)

Section StrictlySorted.

Context {A : Type}.
Variable ltb : A -> A -> bool.
Hypothesis ltb_trans :
  forall x y z, ltb x y = true -> ltb y z = true -> ltb x z = true.
Hypothesis ltb_asym : forall x y, ltb x y = true -> ltb y x = false.

Let lt (a b : A) : Prop := ltb a b = true.

Lemma ltb_irrefl (x : A) : ltb x x = false.
Proof.
  destruct (ltb x x) eqn:E; auto. pose proof (ltb_asym _ _ E). congruence.
Qed.

(** Two strictly sorted lists with the same elements are equal. *)
Lemma strictly_sorted_ext (l1 l2 : list A) :
  StronglySorted lt l1 -> StronglySorted lt l2 ->
  (forall x, In x l1 <-> In x l2) -> l1 = l2.
Proof.
  intros H1. revert l2.
  induction H1 as [|x r1 Hr1 IH Hx]; intros l2 H2 Hin.
  - destruct l2 as [|y r2]; auto.
    exfalso. apply (Hin y). now left.
  - destruct H2 as [|y r2 Hr2 Hy].
    + exfalso. apply (Hin x). now left.
    + rewrite Forall_forall in Hx, Hy.
      assert (E : x = y).
      { destruct (proj1 (Hin x) (or_introl eq_refl)) as [E|Hx2]; auto.
        destruct (proj2 (Hin y) (or_introl eq_refl)) as [E|Hy1]; auto.
        pose proof (Hx _ Hy1) as L1. pose proof (Hy _ Hx2) as L2.
        unfold lt in *. apply ltb_asym in L1. congruence. }
      subst y. f_equal. apply IH; auto.
      intros z. split; intros Hz.
      * destruct (proj1 (Hin z) (or_intror Hz)) as [E|Hz2]; auto.
        subst z. pose proof (Hx _ Hz) as L. unfold lt in L.
        rewrite ltb_irrefl in L. discriminate.
      * destruct (proj2 (Hin z) (or_intror Hz)) as [E|Hz1]; auto.
        subst z. pose proof (Hy _ Hz) as L. unfold lt in L.
        rewrite ltb_irrefl in L. discriminate.
Qed.

Lemma filter_sorted (p : A -> bool) (l : list A) :
  StronglySorted lt l -> StronglySorted lt (filter p l).
Proof.
  induction 1 as [|x r Hr IH Hx]; simpl; [constructor|].
  destruct (p x); auto. constructor; auto.
  rewrite Forall_forall in *. intros y Hy. apply filter_In in Hy.
  now apply Hx.
Qed.

(** A strictly sorted list splits at a downward-closed predicate. *)
Lemma sorted_split (p : A -> bool) (l : list A) :
  (forall a b, ltb a b = true -> p b = true -> p a = true) ->
  StronglySorted lt l ->
  l = filter p l ++ filter (fun x => negb (p x)) l.
Proof.
  intros Hp. induction 1 as [|x r Hr IH Hx]; simpl; auto.
  destruct (p x) eqn:E; simpl.
  - now rewrite <- IH.
  - assert (F : Forall (fun y => p y = false) r).
    { rewrite Forall_forall in *. intros y Hy.
      destruct (p y) eqn:Ey; auto.
      rewrite (Hp x y (Hx y Hy) Ey) in E. discriminate. }
    assert (E1 : filter p r = []).
    { clear - F. induction F as [|y r' Ey Fr IH]; simpl; auto. now rewrite Ey. }
    assert (E2 : filter (fun x => negb (p x)) r = r).
    { clear - F. induction F as [|y r' Ey Fr IH]; simpl; auto.
      rewrite Ey. simpl. now rewrite IH. }
    now rewrite E1, E2.
Qed.

(** The last [k] elements of a strictly sorted list [s] are also the
    last [k] elements of any strictly sorted list made of elements of
    [s] and holding those last [k]. *)
Lemma sliceLast_of_subset (k : nat) (s s' : list A) :
  StronglySorted lt s -> StronglySorted lt s' ->
  (forall x, In x s' -> In x s) ->
  (forall x, In x (sliceLast k s) -> In x s') ->
  sliceLast k s' = sliceLast k s.
Proof.
  intros Hs Hs' Hsub Hsup.
  destruct (Nat.le_gt_cases (length s) k) as [Hle|Hgt].
  - rewrite (sliceLast_all k s Hle) in *.
    assert (E : s' = s) by (apply strictly_sorted_ext; auto; split; auto).
    subst s'. now apply sliceLast_all.
  - pose proof (firstn_skipn (length s - k) s) as Esplit.
    fold (sliceLast k s) in Esplit.
    assert (Hlen : length (sliceLast k s) = k)
      by (unfold sliceLast; rewrite length_skipn; lia).
    destruct (sliceLast k s) as [|m0 m] eqn:Em.
    { simpl in Hlen. subst k. unfold sliceLast.
      rewrite Nat.sub_0_r. apply skipn_all. }
    set (p := fun x => ltb x m0).
    assert (Hp : forall a b, ltb a b = true -> p b = true -> p a = true)
      by (unfold p; intros a b; apply ltb_trans).
    rewrite (sorted_split p s' Hp Hs').
    rewrite <- Esplit in Hs.
    assert (Hlow : forall x, In x (firstn (length s - k) s) -> p x = true).
    { intros x Hx. clear - Hs Hx. unfold p.
      induction (firstn (length s - k) s) as [|y r IH]; [destruct Hx|].
      simpl in Hs. inversion Hs as [|? ? Hr Hy]; subst.
      destruct Hx as [->|Hx]; auto.
      rewrite Forall_forall in Hy. apply Hy, in_or_app. right. now left. }
    assert (Hhigh : forall x, In x (m0 :: m) -> p x = false).
    { intros x Hx. unfold p. apply StronglySorted_app_r in Hs.
      inversion Hs as [|? ? Hr Hy]; subst.
      destruct Hx as [<-|Hx]; [apply ltb_irrefl|].
      rewrite Forall_forall in Hy. now apply ltb_asym, Hy. }
    assert (E : filter (fun x => negb (p x)) s' = m0 :: m).
    { apply strictly_sorted_ext.
      - now apply filter_sorted.
      - now apply StronglySorted_app_r in Hs.
      - intros x. rewrite filter_In. split.
        + intros [Hx Hpx]. apply Hsub in Hx. rewrite <- Esplit in Hx.
          apply in_app_or in Hx. destruct Hx as [Hx|Hx]; auto.
          rewrite (Hlow x Hx) in Hpx. discriminate.
        + intros Hx. split; [now apply Hsup|].
          now rewrite (Hhigh x Hx). }
    rewrite E, <- Hlen. apply sliceLast_app.
Qed.

End StrictlySorted.

Section HealthHistoryFacts.

Variable getTime : string -> jsnum.

(** [comparefn(a, b) < 0] holds exactly when [a]'s time is below [b]'s. *)
Lemma sortsBefore_time (a b : CatHealthRow.t) :
  sortsBefore (compareByTime getTime) a b =
  js_ltb (timeOf getTime a) (timeOf getTime b).
Proof. unfold sortsBefore, compareByTime. apply js_sub_neg. Qed.

Lemma time_trans (x y z : CatHealthRow.t) :
  sortsBefore (compareByTime getTime) x y = true ->
  sortsBefore (compareByTime getTime) y z = true ->
  sortsBefore (compareByTime getTime) x z = true.
Proof. rewrite !sortsBefore_time. apply js_ltb_trans. Qed.

Lemma time_asym (x y : CatHealthRow.t) :
  sortsBefore (compareByTime getTime) x y = true ->
  sortsBefore (compareByTime getTime) y x = false.
Proof. rewrite !sortsBefore_time. apply js_ltb_asym. Qed.

Lemma js_ltb_trans_time (x y z : CatHealthRow.t) :
  js_ltb (timeOf getTime x) (timeOf getTime y) = true ->
  js_ltb (timeOf getTime y) (timeOf getTime z) = true ->
  js_ltb (timeOf getTime x) (timeOf getTime z) = true.
Proof. apply js_ltb_trans. Qed.

Lemma js_ltb_asym_time (x y : CatHealthRow.t) :
  js_ltb (timeOf getTime x) (timeOf getTime y) = true ->
  js_ltb (timeOf getTime y) (timeOf getTime x) = false.
Proof. apply js_ltb_asym. Qed.

(** The rows before truncation. *)
Lemma sorted_values_perm (items : list CatHealthRow.t) :
  Permutation
    (Array_sort (compareByTime getTime) (Map_values (mergedMap items)))
    (Map_values (mergedMap items)).
Proof. apply Array_sort_perm. Qed.

Lemma sorted_values_NoDup (items : list CatHealthRow.t) :
  NoDup (map CatHealthRow.timestamp
           (Array_sort (compareByTime getTime) (Map_values (mergedMap items)))).
Proof.
  eapply Permutation_NoDup.
  - apply Permutation_map. symmetry. apply sorted_values_perm.
  - rewrite mergedMap_timestamps. apply mergedMap_spec.
Qed.

Lemma merge_timestamps_NoDup (prev incoming : list CatHealthRow.t) :
  NoDup (map CatHealthRow.timestamp (mergeHealthHistory getTime prev incoming)).
Proof.
  unfold mergeHealthHistory. rewrite sliceLast_map.
  apply sliceLast_NoDup, sorted_values_NoDup.
Qed.

(** A row of the result is the row provided last for its timestamp. *)
Lemma merge_In_last (prev incoming : list CatHealthRow.t) (r : CatHealthRow.t) :
  In r (mergeHealthHistory getTime prev incoming) ->
  lastWithTimestamp (prev ++ incoming) (CatHealthRow.timestamp r) = Some r.
Proof.
  unfold mergeHealthHistory. intros H. apply sliceLast_incl in H.
  apply (Permutation_in _ (sorted_values_perm _)) in H.
  now apply mergedMap_spec.
Qed.

Lemma merge_In (prev incoming : list CatHealthRow.t) (r : CatHealthRow.t) :
  In r (mergeHealthHistory getTime prev incoming) -> In r (prev ++ incoming).
Proof.
  intros H. apply merge_In_last in H.
  now apply lastWithTimestamp_some in H.
Qed.

(** What every merge keeps: the result never holds two rows with the
    same timestamp and never more than 40 rows; and when every
    timestamp is a date it is ordered non-decreasing by time. *)
Theorem mergeHealthHistory_invariant (prev incoming : list CatHealthRow.t) :
  NoDup (map CatHealthRow.timestamp (mergeHealthHistory getTime prev incoming)) /\
  (length (mergeHealthHistory getTime prev incoming) <= 40)%nat /\
  (allDates getTime (prev ++ incoming) ->
   orderedByTime getTime (mergeHealthHistory getTime prev incoming)).
Proof.
  split; [apply merge_timestamps_NoDup|].
  split; [apply sliceLast_length|].
  intros Hdates. unfold orderedByTime.
  apply (StronglySorted_weaken
           (inOrder (compareByTime getTime)) _
           (fun r => exists q, timeOf getTime r = Fin q)).
  - intros a b [qa Ha] [qb Hb]. unfold inOrder.
    rewrite sortsBefore_time, Ha, Hb. simpl.
    now intros H%negb_false_iff.
  - apply Forall_forall. intros r Hr. apply merge_In in Hr.
    unfold allDates in Hdates. rewrite Forall_forall in Hdates. auto.
  - unfold mergeHealthHistory. apply sliceLast_sorted.
    apply Array_sort_sorted; [apply time_trans | apply time_asym].
Qed.

(** Under [distinctTimes] the sorted rows are strictly increasing. *)
Lemma sorted_values_strict (items : list CatHealthRow.t) :
  distinctTimes getTime items ->
  StronglySorted
    (fun a b => js_ltb (timeOf getTime a) (timeOf getTime b) = true)
    (Array_sort (compareByTime getTime) (Map_values (mergedMap items))).
Proof.
  intros Hd.
  pose proof (sorted_values_NoDup items) as Hn.
  pose proof (Array_sort_sorted (compareByTime getTime) time_trans time_asym
                (Map_values (mergedMap items))) as Hs.
  assert (Hin : forall r,
             In r (Array_sort (compareByTime getTime)
                     (Map_values (mergedMap items))) -> In r items).
  { intros r Hr. apply (Permutation_in _ (sorted_values_perm _)) in Hr.
    apply mergedMap_spec in Hr. now apply lastWithTimestamp_some in Hr. }
  induction Hs as [|x r Hr IH Hx]; constructor.
  - apply IH.
    + simpl in Hn. now inversion Hn.
    + intros y Hy. apply Hin. now right.
  - simpl in Hn. inversion Hn as [|? ? Hnx Hnr]; subst.
    rewrite Forall_forall in *. intros y Hy.
    specialize (Hx y Hy). unfold inOrder in Hx. rewrite sortsBefore_time in Hx.
    destruct (Hd x y) as [L|L]; auto.
    + apply Hin. now left.
    + apply Hin. now right.
    + intros E. apply Hnx. rewrite E. now apply in_map.
    + congruence.
Qed.

Lemma distinctTimes_incl (l l' : list CatHealthRow.t) :
  (forall r, In r l' -> In r l) ->
  distinctTimes getTime l -> distinctTimes getTime l'.
Proof. intros Hi Hd a b Ha Hb. apply Hd; auto. Qed.

Lemma mergedMap_snoc (l : list CatHealthRow.t) (x : CatHealthRow.t) :
  mergedMap (l ++ [x]) = Map_set (mergedMap l) (CatHealthRow.timestamp x) x.
Proof. unfold mergedMap. now rewrite fold_left_app. Qed.

(** Rows whose timestamps are all present already leave the keys of the
    map as they are. *)
Lemma mergedMap_keys_known (m b : list CatHealthRow.t) :
  NoDup (map CatHealthRow.timestamp m) ->
  (forall r, In r b ->
     In (CatHealthRow.timestamp r) (map CatHealthRow.timestamp m)) ->
  map fst (mergedMap (m ++ b)) = map CatHealthRow.timestamp m.
Proof.
  intros Hn. induction b as [|x b IH] using rev_ind; intros Hb.
  - rewrite app_nil_r. clear Hb.
    induction m as [|x m IH] using rev_ind; auto.
    rewrite mergedMap_snoc, Map_set_keys, map_app in *. simpl in *.
    apply NoDup_remove in Hn. rewrite app_nil_r in Hn. destruct Hn as [Hn Hx].
    rewrite (IH Hn).
    destruct (existsb _ _) eqn:E; auto.
    apply existsb_eqb_In in E. contradiction.
  - rewrite app_assoc, mergedMap_snoc, Map_set_keys.
    rewrite IH by (intros r Hr; apply Hb, in_or_app; now left).
    assert (E : existsb (String.eqb (CatHealthRow.timestamp x))
                  (map CatHealthRow.timestamp m) = true).
    { apply existsb_eqb_In, Hb, in_or_app. right. now left. }
    now rewrite E.
Qed.

Lemma same_keys_same_rows (P : CatHealthRow.t -> Prop) (l1 l2 : list CatHealthRow.t) :
  (forall a b, P a -> P b ->
     CatHealthRow.timestamp a = CatHealthRow.timestamp b -> a = b) ->
  map CatHealthRow.timestamp l1 = map CatHealthRow.timestamp l2 ->
  Forall P l1 -> Forall P l2 -> l1 = l2.
Proof.
  intros HP. revert l2.
  induction l1 as [|a r1 IH]; intros [|b r2] E H1 H2; try discriminate; auto.
  simpl in E. injection E as Ea Er.
  inversion H1; inversion H2; subst. f_equal; auto.
Qed.

Lemma mergedMap_length (l : list CatHealthRow.t) (ks : list string) :
  (forall r, In r l -> In (CatHealthRow.timestamp r) ks) ->
  (length (Map_values (mergedMap l)) <= length ks)%nat.
Proof.
  intros H. unfold Map_values. rewrite length_map, <- (length_map fst).
  apply NoDup_incl_length; [apply mergedMap_spec|].
  intros k Hk. rewrite <- mergedMap_timestamps in Hk.
  apply in_map_iff in Hk. destruct Hk as (r & <- & Hr).
  apply H. apply mergedMap_spec in Hr. now apply lastWithTimestamp_some in Hr.
Qed.

(** Without truncation a second merge finds every key in place. *)
Lemma merge_few (prev incoming : list CatHealthRow.t) :
  fewTimestamps 40 (prev ++ incoming) ->
  mergeHealthHistory getTime (mergeHealthHistory getTime prev incoming) incoming =
  mergeHealthHistory getTime prev incoming.
Proof.
  intros (ks & Hlen & Hks).
  set (U := Map_values (mergedMap (prev ++ incoming))).
  set (S := Array_sort (compareByTime getTime) U).
  assert (HM : mergeHealthHistory getTime prev incoming = S).
  { unfold mergeHealthHistory. fold U. fold S. apply sliceLast_all.
    unfold S. rewrite (Permutation_length (Array_sort_perm _ U)).
    pose proof (mergedMap_length _ _ Hks). fold U in H. lia. }
  rewrite HM.
  assert (Hn : NoDup (map CatHealthRow.timestamp S)) by apply sorted_values_NoDup.
  assert (Hlast : forall r, In r S ->
            lastWithTimestamp (prev ++ incoming) (CatHealthRow.timestamp r) = Some r).
  { intros r Hr. apply (Permutation_in _ (Array_sort_perm _ U)) in Hr.
    now apply mergedMap_spec. }
  assert (Hkeys : forall r, In r incoming ->
            In (CatHealthRow.timestamp r) (map CatHealthRow.timestamp S)).
  { intros r Hr.
    destruct (lastWithTimestamp (prev ++ incoming) (CatHealthRow.timestamp r))
      as [r'|] eqn:L.
    - pose proof (lastWithTimestamp_some _ _ _ L) as [_ E]. rewrite <- E.
      apply in_map.
      apply (Permutation_in _ (Permutation_sym (Array_sort_perm _ U))).
      apply mergedMap_spec. now rewrite E.
    - exfalso. apply (lastWithTimestamp_none _ _ L r); auto.
      apply in_or_app. now right. }
  assert (HU' : Map_values (mergedMap (S ++ incoming)) = S).
  { apply (same_keys_same_rows
             (fun r => lastWithTimestamp (S ++ incoming)
                         (CatHealthRow.timestamp r) = Some r)).
    - intros a b Ha Hb E. rewrite E in Ha. congruence.
    - rewrite mergedMap_timestamps. now apply mergedMap_keys_known.
    - apply Forall_forall. intros r Hr. now apply mergedMap_spec.
    - apply Forall_forall. intros r Hr.
      pose proof (Hlast r Hr) as L. rewrite lastWithTimestamp_app in *.
      destruct (lastWithTimestamp incoming (CatHealthRow.timestamp r)); auto.
      now apply lastWithTimestamp_unique. }
  unfold mergeHealthHistory. rewrite HU'.
  rewrite Array_sort_sorted_id.
  - apply sliceLast_all. rewrite <- HM. apply sliceLast_length.
  - apply Array_sort_sorted; [apply time_trans | apply time_asym].
Qed.

(** C4 (amended). Merging the same incoming rows a second time changes
    nothing when rows with different timestamps are at different times,
    and also when the rows hold at most 40 distinct timestamps; and in
    every merge a result row whose timestamp occurs in the incoming rows
    is the last incoming row with that timestamp. *)
Theorem mergeHealthHistory_idempotent_last_wins
  (prev incoming : list CatHealthRow.t) :
  (distinctTimes getTime (prev ++ incoming) \/
   fewTimestamps 40 (prev ++ incoming) ->
   mergeHealthHistory getTime (mergeHealthHistory getTime prev incoming) incoming =
   mergeHealthHistory getTime prev incoming) /\
  (forall r b,
      In r (mergeHealthHistory getTime prev incoming) ->
      In b incoming ->
      CatHealthRow.timestamp b = CatHealthRow.timestamp r ->
      lastWithTimestamp incoming (CatHealthRow.timestamp r) = Some r).
Proof.
  split.
  - intros [Hd|Hfew]; [|now apply merge_few].
    set (M := mergeHealthHistory getTime prev incoming).
    assert (HM : forall r, In r M -> In r (prev ++ incoming))
      by (intros r; apply merge_In).
    assert (Hd' : distinctTimes getTime (M ++ incoming)).
    { apply (distinctTimes_incl (prev ++ incoming)); auto.
      intros r Hr. apply in_app_or in Hr. destruct Hr as [Hr|Hr]; auto.
      apply in_or_app. now right. }
    unfold mergeHealthHistory at 1. fold M.
    unfold M at 2. unfold mergeHealthHistory.
    apply (sliceLast_of_subset
             (fun a b => js_ltb (timeOf getTime a) (timeOf getTime b))
             js_ltb_trans_time js_ltb_asym_time).
    + now apply sorted_values_strict.
    + now apply sorted_values_strict.
    + intros r Hr.
      apply (Permutation_in _ (sorted_values_perm _)) in Hr.
      apply (Permutation_in _ (Permutation_sym (sorted_values_perm _))).
      apply mergedMap_spec in Hr. apply mergedMap_spec.
      rewrite lastWithTimestamp_app in *.
      destruct (lastWithTimestamp incoming (CatHealthRow.timestamp r)) eqn:L;
        auto.
      apply lastWithTimestamp_some in Hr. destruct Hr as [Hr _].
      apply merge_In_last in Hr.
      now rewrite lastWithTimestamp_app, L in Hr.
    + intros r Hr. fold (mergeHealthHistory getTime prev incoming) in Hr.
      fold M in Hr.
      apply (Permutation_in _ (Permutation_sym (sorted_values_perm _))).
      apply mergedMap_spec.
      pose proof (merge_In_last _ _ _ Hr) as Hlast.
      rewrite lastWithTimestamp_app in *.
      destruct (lastWithTimestamp incoming (CatHealthRow.timestamp r)); auto.
      apply lastWithTimestamp_unique; auto.
      apply merge_timestamps_NoDup.
  - intros r b Hr Hb E.
    apply merge_In_last in Hr. rewrite lastWithTimestamp_app in Hr.
    destruct (lastWithTimestamp incoming (CatHealthRow.timestamp r)) eqn:L; auto.
    exfalso. now apply (lastWithTimestamp_none _ _ L b Hb).
Qed.

End HealthHistoryFacts.

Lemma mergeHealthHistory_invariant_witness :
  allDates Date_getTime (datedPrev ++ datedIncoming) /\
  orderedByTime Date_getTime
    (mergeHealthHistory Date_getTime datedPrev datedIncoming).
Proof.
  assert (H : allDates Date_getTime (datedPrev ++ datedIncoming)).
  { repeat constructor; eexists; vm_compute; reflexivity. }
  split; [exact H|].
  exact (proj2 (proj2 (mergeHealthHistory_invariant Date_getTime
                         datedPrev datedIncoming)) H).
Defined.

Example mergeHealthHistory_dated_example :
  map (fun r => (CatHealthRow.timestamp r, CatHealthRow.shards r))
      (mergeHealthHistory Date_getTime datedPrev datedIncoming) =
  [ ("2024-05-01T10:00:01Z", "10"); ("2024-05-01T10:00:03Z", "10");
    ("2024-05-01T10:00:05Z", "11") ].
Proof. vm_compute. reflexivity. Qed.

(** C5 (the defect). The sort of [mergeHealthHistory] orders the rows
    by [new Date(timestamp).getTime()], but the timestamps that
    [/_cat/health] returns are times of day, which are not dates: the
    comparator answers NaN for every pair and the rows stay in
    insertion order.  Merging the row stamped 16:17:03 into a history
    holding the row stamped 16:17:04 leaves 16:17:04 in front of
    16:17:03, so the result is not ordered by timestamp. *)
Theorem mergeHealthHistory_unordered :
  Date_getTime "16:17:04" = NaN /\
  Date_getTime "16:17:03" = NaN /\
  mergeHealthHistory Date_getTime clockPrev clockIncoming =
    [ healthRow "16:17:04" "10"; healthRow "16:17:03" "10" ] /\
  String.ltb "16:17:03" "16:17:04" = true /\
  ~ orderedByTime Date_getTime
      (mergeHealthHistory Date_getTime clockPrev clockIncoming).
Proof.
  split; [reflexivity|]. split; [reflexivity|].
  split; [vm_compute; reflexivity|]. split; [reflexivity|].
  intros H. inversion H as [|a l Hl Ha E]; subst.
  inversion Ha as [|b l' Hb Hl' E']; subst.
  vm_compute in Hb. discriminate.
Qed.

Lemma mergeHealthHistory_idempotent_last_wins_witness :
  distinctTimes Date_getTime (datedPrev ++ datedIncoming) /\
  mergeHealthHistory Date_getTime
    (mergeHealthHistory Date_getTime datedPrev datedIncoming) datedIncoming =
  mergeHealthHistory Date_getTime datedPrev datedIncoming /\
  fewTimestamps 40 (clockPrev ++ clockIncoming) /\
  mergeHealthHistory Date_getTime
    (mergeHealthHistory Date_getTime clockPrev clockIncoming) clockIncoming =
  mergeHealthHistory Date_getTime clockPrev clockIncoming /\
  lastWithTimestamp datedIncoming "2024-05-01T10:00:05Z" =
    Some (healthRow "2024-05-01T10:00:05Z" "11").
Proof.
  assert (H : distinctTimes Date_getTime (datedPrev ++ datedIncoming)).
  { intros a b Ha Hb N. simpl in Ha, Hb.
    repeat match goal with
           | H : _ \/ _ |- _ => destruct H as [<-|H]
           | H : False |- _ => destruct H
           end;
      try (exfalso; apply N; reflexivity);
      vm_compute; auto. }
  assert (F : fewTimestamps 40 (clockPrev ++ clockIncoming)).
  { exists ["16:17:04"; "16:17:03"]. split; [simpl; lia|].
    intros r Hr. simpl in Hr.
    destruct Hr as [<-|[<-|[]]]; simpl; auto. }
  split; [exact H|]. split; [|split; [exact F|split]].
  - exact (proj1 (mergeHealthHistory_idempotent_last_wins Date_getTime
                    datedPrev datedIncoming) (or_introl H)).
  - exact (proj1 (mergeHealthHistory_idempotent_last_wins Date_getTime
                    clockPrev clockIncoming) (or_intror F)).
  - apply (proj2 (mergeHealthHistory_idempotent_last_wins Date_getTime
                    datedPrev datedIncoming)
             (healthRow "2024-05-01T10:00:05Z" "11")
             (healthRow "2024-05-01T10:00:05Z" "11")).
    + vm_compute. auto.
    + vm_compute. auto.
    + reflexivity.
Defined.

(** C4 as stated fails here.  Two of the forty-one rows are at the same
    instant.  The first merge drops the first of them; merging the same
    rows again brings it back behind its twin and drops the twin
    instead. *)
Lemma mergeHealthHistory_not_idempotent :
  mergeHealthHistory Date_getTime
    (mergeHealthHistory Date_getTime [] tiedRows41) tiedRows41 <>
  mergeHealthHistory Date_getTime [] tiedRows41.
Proof.
  intros H.
  apply (f_equal (fun l => map CatHealthRow.timestamp (firstn 1 l))) in H.
  vm_compute in H. discriminate.
Qed.

(** The same with time-of-day timestamps: nothing is a date, the order
    is the insertion order and the second merge rotates the history. *)
Example mergeHealthHistory_clock_rotation :
  map CatHealthRow.timestamp
    (firstn 2 (mergeHealthHistory Date_getTime [] clockRows41)) =
    ["16:17:01"; "16:17:02"] /\
  map CatHealthRow.timestamp
    (firstn 2 (mergeHealthHistory Date_getTime
                 (mergeHealthHistory Date_getTime [] clockRows41) clockRows41)) =
    ["16:17:02"; "16:17:03"].
Proof. split; vm_compute; reflexivity. Qed.

(** ** The connection list *)

Lemma labels_addCluster_new (st : Provider) (input : CreateClusterInput.t) :
  NoDup (labels st) -> NoDup (labels (addCluster st input)).
Proof.
  unfold labels, addCluster. cbn [clusters toast setActiveClusterLabel setClusters].
  set (newCluster := ClusterConnection.mk _ _ _ _).
  intros H.
  destruct (existsb _ (clusters st)) eqn:E.
  - rewrite map_map.
    erewrite map_ext; [exact H|].
    intros c. cbn beta.
    destruct (String.eqb_spec (ClusterConnection.label c)
                              (ClusterConnection.label newCluster)); auto.
  - rewrite map_app. simpl.
    apply NoDup_app; auto.
    + repeat constructor. intros [].
    + intros x Hx [<-|[]].
      apply in_map_iff in Hx. destruct Hx as (c & Ec & Hc).
      assert (T : existsb
                    (fun c => String.eqb (ClusterConnection.label c)
                                (ClusterConnection.label newCluster))
                    (clusters st) = true).
      { apply existsb_exists. exists c. split; auto. now apply String.eqb_eq. }
      congruence.
Qed.

Lemma filter_keeps_labels_distinct
  (keep : ClusterConnection.t -> bool) (l : list ClusterConnection.t) :
  NoDup (map ClusterConnection.label l) ->
  NoDup (map ClusterConnection.label (filter keep l)).
Proof.
  induction l as [|c r IH]; intros H; [exact H|].
  simpl in H. apply NoDup_cons_iff in H. destruct H as [Hc Hr]. simpl.
  destruct (keep c); [|now apply IH].
  simpl. apply NoDup_cons; [|now apply IH].
  intros Hin. apply Hc. apply in_map_iff in Hin. destruct Hin as (d & E & Hd).
  apply filter_In in Hd. apply in_map_iff. exists d. tauto.
Qed.

Lemma labels_deleteCluster (st : Provider) (clusterLabel : string) :
  NoDup (labels st) -> NoDup (labels (deleteCluster st clusterLabel)).
Proof.
  unfold labels, deleteCluster. intros H.
  destruct (length (clusters st) =? 1)%nat; [exact H|].
  destruct (String.eqb (activeClusterLabel st) clusterLabel);
    cbn [clusters toast setActiveClusterLabel setClusters];
    now apply filter_keeps_labels_distinct.
Qed.

Lemma NoDup_rename (old new : string) (l : list string) :
  new = old \/ ~ In new l ->
  NoDup l ->
  NoDup (map (fun x => if String.eqb x old then new else x) l).
Proof.
  intros [Hsame|Hfresh] Hn.
  - erewrite map_ext; [rewrite map_id; exact Hn|].
    intros x. cbn beta. destruct (String.eqb_spec x old); congruence.
  - induction Hn as [|x r Hx Hr IH]; simpl; [constructor|].
    assert (IHr := IH (fun H => Hfresh (or_intror H))).
    constructor; auto.
    intros Hin. apply in_map_iff in Hin. destruct Hin as (y & Ey & Hy).
    destruct (String.eqb_spec x old) as [Ex|Nx],
             (String.eqb_spec y old) as [Eyo|Nyo].
    + apply Hx. now rewrite Ex, <- Eyo.
    + apply Hfresh. right. now rewrite <- Ey.
    + apply Hfresh. left. auto.
    + apply Hx. now rewrite <- Ey.
Qed.

Lemma labels_updateCluster (st : Provider) (clusterLabel : string)
  (input : CreateClusterInput.t) :
  labels (updateCluster st clusterLabel input) =
  map (fun x =>
         if String.eqb x clusterLabel
         then str_or (CreateClusterInput.label input)
                (dropTrailingSlash (trim (CreateClusterInput.baseUrl input)))
         else x)
      (labels st).
Proof.
  unfold labels, updateCluster.
  destruct (String.eqb (activeClusterLabel st) clusterLabel);
    cbn [clusters toast setActiveClusterLabel setClusters];
    rewrite !map_map; apply map_ext; intros c;
    destruct (String.eqb (ClusterConnection.label c) clusterLabel); reflexivity.
Qed.

(** [updateCluster] keeps the labels distinct when the new label is the
    old one or is not in use. *)
Lemma labels_updateCluster_fresh (st : Provider) (clusterLabel : string)
  (input : CreateClusterInput.t) :
  let newLabel :=
    str_or (CreateClusterInput.label input)
           (dropTrailingSlash (trim (CreateClusterInput.baseUrl input))) in
  newLabel = clusterLabel \/ ~ In newLabel (labels st) ->
  NoDup (labels st) -> NoDup (labels (updateCluster st clusterLabel input)).
Proof.
  intros newLabel Hfresh Hn. rewrite labels_updateCluster.
  now apply NoDup_rename.
Qed.

(** C9 (the defect). Starting from the distinct labels "prod" and
    "staging", editing "prod" and giving it the label "staging" leaves
    two connections labelled "staging". *)
Theorem updateCluster_duplicates_label :
  NoDup (labels twoClusters) /\
  labels (updateCluster twoClusters "prod" renameToStaging) =
    ["staging"; "staging"] /\
  ~ NoDup (labels (updateCluster twoClusters "prod" renameToStaging)).
Proof.
  split; [|split].
  - repeat constructor; simpl; intuition discriminate.
  - reflexivity.
  - intros H. inversion H as [|? ? Hx _]; subst. apply Hx. now left.
Qed.

(** C10. With exactly one connection left, [deleteCluster] refuses:
    the connection list and the active selection stay as they are and
    an error toast is raised.  When the connection that is deleted was
    the active one and another connection remains, the active
    connection afterwards is one of those that remain. *)
Theorem deleteCluster_last_and_active (st : Provider) (clusterLabel : string) :
  (length (clusters st) = 1%nat ->
   deleteCluster st clusterLabel =
     toast st (ToastError "Cannot delete"
                 (Some "At least one cluster must remain.")) /\
   clusters (deleteCluster st clusterLabel) = clusters st /\
   activeClusterLabel (deleteCluster st clusterLabel) = activeClusterLabel st /\
   activeCluster (deleteCluster st clusterLabel) = activeCluster st) /\
  (forall deleted other,
      activeCluster st = Some deleted ->
      ClusterConnection.label deleted = clusterLabel ->
      In other (clusters st) ->
      ClusterConnection.label other <> clusterLabel ->
      exists next,
        activeCluster (deleteCluster st clusterLabel) = Some next /\
        In next (clusters st) /\
        ClusterConnection.label next <> clusterLabel /\
        In next (clusters (deleteCluster st clusterLabel))).
Proof.
  split.
  - intros H. unfold deleteCluster. rewrite H. simpl. auto.
  - intros deleted other Hact Hlabel Hother Hdiff.
    assert (Hin : In deleted (clusters st)).
    { unfold activeCluster in Hact.
      destruct (find _ (clusters st)) eqn:F.
      - injection Hact as <-. now apply find_some in F.
      - destruct (clusters st); [discriminate|]. injection Hact as <-. now left. }
    assert (Hlen : (length (clusters st) =? 1)%nat = false).
    { apply Nat.eqb_neq. intros L.
      destruct (clusters st) as [|c [|c' r]]; try discriminate.
      destruct Hin as [<-|[]], Hother as [<-|[]]. congruence. }
    set (differs := fun c =>
           negb (String.eqb (ClusterConnection.label c) clusterLabel)).
    assert (Hrem : In other (filter differs (clusters st))).
    { apply filter_In. split; auto. unfold differs.
      now apply negb_true_iff, String.eqb_neq. }
    assert (Hres : forall next, In next (filter differs (clusters st)) ->
                     In next (clusters st) /\
                     ClusterConnection.label next <> clusterLabel).
    { intros next Hn. apply filter_In in Hn. destruct Hn as [Hn Hd].
      split; auto. unfold differs in Hd.
      now apply negb_true_iff, String.eqb_neq in Hd. }
    unfold deleteCluster. rewrite Hlen. fold differs.
    destruct (String.eqb_spec (activeClusterLabel st) clusterLabel) as [Ea|Na].
    + destruct (filter differs (clusters st)) as [|c r] eqn:F; [destruct Hrem|].
      exists c. unfold activeCluster.
      cbn [clusters activeClusterLabel toast setActiveClusterLabel setClusters].
      cbn [find]. rewrite String.eqb_refl.
      destruct (Hres c (or_introl eq_refl)) as [H1 H2].
      repeat split; auto. now left.
    + unfold activeCluster in *.
      cbn [clusters activeClusterLabel toast setActiveClusterLabel setClusters].
      destruct (find (fun c => String.eqb (ClusterConnection.label c)
                                 (activeClusterLabel st)) (clusters st)) eqn:F.
      * injection Hact as <-. apply find_some in F. destruct F as [_ F].
        apply String.eqb_eq in F. congruence.
      * assert (F' : find (fun c => String.eqb (ClusterConnection.label c)
                                      (activeClusterLabel st))
                          (filter differs (clusters st)) = None).
        { destruct (find _ (filter differs (clusters st))) eqn:G; auto.
          apply find_some in G. destruct G as [G1 G2].
          apply filter_In in G1. destruct G1 as [G1 _].
          pose proof (find_none _ _ F _ G1) as C. simpl in C. congruence. }
        rewrite F'.
        destruct (filter differs (clusters st)) as [|c r] eqn:G; [destruct Hrem|].
        exists c. destruct (Hres c (or_introl eq_refl)) as [H1 H2].
        simpl. repeat split; auto.
Qed.

Lemma deleteCluster_last_and_active_witness :
  clusters (deleteCluster oneCluster "prod") = clusters oneCluster /\
  exists next,
    activeCluster (deleteCluster twoClusters "prod") = Some next /\
    In next (clusters twoClusters) /\
    ClusterConnection.label next <> "prod" /\
    In next (clusters (deleteCluster twoClusters "prod")).
Proof.
  split.
  - exact (proj1 (proj2 (proj1 (deleteCluster_last_and_active oneCluster "prod")
                           eq_refl))).
  - apply (proj2 (deleteCluster_last_and_active twoClusters "prod")
             clusterA clusterB).
    + reflexivity.
    + reflexivity.
    + simpl. auto.
    + discriminate.
Defined.

Example deleteCluster_examples :
  activeCluster (deleteCluster twoClusters "prod") = Some clusterB /\
  clusters (deleteCluster twoClusters "prod") = [clusterB] /\
  toasts (deleteCluster oneCluster "prod") =
    [ToastError "Cannot delete" (Some "At least one cluster must remain.")].
Proof. repeat split; reflexivity. Qed.

(** ** The fetch cycle *)

(** C1 (amended). The [catch] block of [fetchAll] treats a failure as
    transient (it leaves [connectionFailed] clear) exactly when three
    things hold: the thrown value is an [Error] whose name is AbortError
    or TimeoutError, or whose message holds "timeout" or "aborted" in
    any letter case; the cycle was started with an active connection;
    and the probe that follows succeeds.  The message is then surfaced
    and the polling timer stays.  In every other case the flag is set,
    an error message is surfaced, the polling timer is not installed
    and the next call of [fetchAll] sends no request; a value that is
    not of the time-out kind has its own message surfaced (or, for a
    network error, the one naming the URL of the connection). *)
Theorem fetchAll_rejected_transient_iff
  (st : Provider) (cl : FetchClosure) (err : Thrown) (healthResult : HealthResult) :
  let st' := fetchAll_rejected st cl err healthResult in
  let message := failureMessage err in
  let timeoutKind :=
    exists name thrown,
      err = ThrownError name thrown /\
      (name = "AbortError" \/ name = "TimeoutError" \/
       includes "timeout" (toLowerCase message) = true \/
       includes "aborted" (toLowerCase message) = true) in
  (connectionFailed st' = false <->
   timeoutKind /\ cl_activeCluster cl <> None /\ success healthResult = true) /\
  (connectionFailed st' = false ->
   error st' = Some message /\
   (activeCluster st <> None -> pollingActive st' = true)) /\
  (connectionFailed st' = true ->
   error st' <> None /\
   pollingActive st' = false /\
   snd (fetchAll_start st' (currentClosure st')) = false) /\
  (~ timeoutKind ->
   error st' =
     Some match cl_activeCluster cl with
          | Some cluster =>
              if includes "network error" (toLowerCase message)
              then cannotAccess cluster else message
          | None => message
          end) /\
  loading st' = false /\ refreshing st' = false.
Proof.
  intros st' message timeoutKind.
  assert (Hcl : clusters st' = clusters st /\
                activeClusterLabel st' = activeClusterLabel st).
  { unfold st', fetchAll_rejected, refreshFailedToast.
    destruct (isTimeout err); destruct (cl_activeCluster cl);
      try destruct (negb (success healthResult));
      try destruct (includes "network error" (toLowerCase (failureMessage err)));
      destruct (negb (includes "mock" (toLowerCase (failureMessage err))));
      split; reflexivity. }
  assert (Hact : activeCluster st' = activeCluster st).
  { unfold activeCluster. destruct Hcl as [-> ->]. reflexivity. }
  assert (Hflag : connectionFailed st' =
                  negb (isTimeout err &&
                        match cl_activeCluster cl with
                        | Some _ => success healthResult
                        | None => false
                        end)).
  { unfold st', fetchAll_rejected, refreshFailedToast.
    destruct (isTimeout err); destruct (cl_activeCluster cl);
      try destruct (success healthResult);
      try destruct (includes "network error" (toLowerCase (failureMessage err)));
      destruct (negb (includes "mock" (toLowerCase (failureMessage err))));
      reflexivity. }
  assert (Hkind : isTimeout err = true <-> timeoutKind).
  { unfold timeoutKind, isTimeout, message. destruct err as [name thrown|].
    - rewrite !orb_true_iff, !String.eqb_eq. split.
      + intros H. exists name, thrown. split; [reflexivity|tauto].
      + intros (name' & thrown' & [= <- <-] & H). tauto.
    - split; [discriminate|]. intros (name & thrown & H & _). discriminate H. }
  split; [|split; [|split; [|split; [|split]]]].
  - rewrite Hflag, negb_false_iff, andb_true_iff, Hkind.
    destruct (cl_activeCluster cl) as [cluster|]; split.
    + intros [H1 H2]. repeat split; [exact H1|discriminate|exact H2].
    + intros (H1 & _ & H2). split; assumption.
    + intros [_ H]. discriminate H.
    + intros (_ & H & _). congruence.
  - intros Hcf. rewrite Hflag, negb_false_iff, andb_true_iff in Hcf.
    destruct Hcf as [Ht Hs].
    destruct (cl_activeCluster cl) as [cluster|] eqn:Ec; [|discriminate Hs].
    split.
    + unfold st', fetchAll_rejected, refreshFailedToast, message.
      rewrite Ht, Ec, Hs. cbn [negb].
      destruct (negb (includes "mock" (toLowerCase (failureMessage err))));
        reflexivity.
    + intros Ha. unfold pollingActive. rewrite Hact, Hflag, Ht, Hs.
      cbn [andb negb]. destruct (activeCluster st); [reflexivity|congruence].
  - intros Hcf. split; [|split].
    + unfold st', fetchAll_rejected, refreshFailedToast.
      destruct (isTimeout err); destruct (cl_activeCluster cl) as [cluster|];
        try destruct (negb (success healthResult));
        try destruct (includes "network error" (toLowerCase (failureMessage err)));
        destruct (negb (includes "mock" (toLowerCase (failureMessage err))));
        discriminate.
    + unfold pollingActive. now rewrite Hcf.
    + unfold fetchAll_start, currentClosure.
      cbn [cl_activeCluster cl_connectionFailed].
      rewrite Hcf. now destruct (activeCluster st').
  - intros Hn. assert (Ht : isTimeout err = false).
    { destruct (isTimeout err); [|reflexivity]. exfalso. now apply Hn, Hkind. }
    unfold st', fetchAll_rejected, refreshFailedToast, message. rewrite Ht.
    destruct (cl_activeCluster cl) as [cluster|];
      [destruct (includes "network error" (toLowerCase (failureMessage err)))|];
      destruct (negb (includes "mock" (toLowerCase (failureMessage err))));
      reflexivity.
  - unfold st', fetchAll_rejected, refreshFailedToast.
    destruct (isTimeout err); destruct (cl_activeCluster cl);
      try destruct (negb (success healthResult));
      destruct (negb (includes "mock" (toLowerCase (failureMessage err))));
      reflexivity.
  - unfold st', fetchAll_rejected, refreshFailedToast.
    destruct (isTimeout err); destruct (cl_activeCluster cl);
      try destruct (negb (success healthResult));
      destruct (negb (includes "mock" (toLowerCase (failureMessage err))));
      reflexivity.
Qed.

Lemma fetchAll_rejected_transient_iff_witness :
  connectionFailed
    (fetchAll_rejected twoClusters (currentClosure twoClusters)
       http504 probeOk) = false /\
  error
    (fetchAll_rejected twoClusters (currentClosure twoClusters)
       http504 probeOk) = Some "Elasticsearch 504 Gateway Timeout" /\
  error
    (fetchAll_rejected twoClusters (currentClosure twoClusters)
       http500 probeOk) = Some "Elasticsearch 500 Internal Server Error" /\
  pollingActive
    (fetchAll_rejected twoClusters (currentClosure twoClusters)
       http500 probeOk) = false.
Proof.
  pose proof (fetchAll_rejected_transient_iff twoClusters
                (currentClosure twoClusters) http504 probeOk) as H504.
  pose proof (fetchAll_rejected_transient_iff twoClusters
                (currentClosure twoClusters) http500 probeOk) as H500.
  cbv zeta in H504, H500.
  destruct H504 as (Hiff & Htransient & _).
  destruct H500 as (_ & _ & Hfailed & Hother & _).
  assert (Hclear : connectionFailed
                     (fetchAll_rejected twoClusters (currentClosure twoClusters)
                        http504 probeOk) = false).
  { apply Hiff. split; [|split; [discriminate|reflexivity]].
    exists "Error", "Elasticsearch 504 Gateway Timeout".
    split; [reflexivity|]. right. right. left. reflexivity. }
  split; [exact Hclear|]. split; [exact (proj1 (Htransient Hclear))|].
  split.
  - apply Hother. intros (name & thrown & E & [H|[H|[H|H]]]);
      injection E as <- <-; discriminate H.
  - exact (proj1 (proj2 (Hfailed eq_refl))).
Defined.

(** C1 as stated fails here.  A response with status 500 is not a
    time-out, and yet it sets [connectionFailed] and stops the
    polling. *)
Lemma http500_sets_connectionFailed :
  isTimeout http500 = false /\
  connectionFailed
    (fetchAll_rejected twoClusters (currentClosure twoClusters)
       http500 probeOk) = true /\
  pollingActive
    (fetchAll_rejected twoClusters (currentClosure twoClusters)
       http500 probeOk) = false.
Proof. repeat split; reflexivity. Qed.

Example badJson_sets_connectionFailed :
  isTimeout badJson = false /\
  connectionFailed
    (fetchAll_rejected twoClusters (currentClosure twoClusters)
       badJson probeOk) = true.
Proof. split; reflexivity. Qed.

(** A reply with status 504 is of the time-out kind, by its status
    text: with a good probe the cycle counts as transient and the
    polling goes on. *)
Example http504_is_transient :
  http504 =
    ThrownError "Error"
      (statusMessage 504 "Gateway Timeout") /\
  isTimeout http504 = true /\
  connectionFailed
    (fetchAll_rejected twoClusters (currentClosure twoClusters)
       http504 probeOk) = false /\
  pollingActive
    (fetchAll_rejected twoClusters (currentClosure twoClusters)
       http504 probeOk) = true.
Proof. repeat split; reflexivity. Qed.

(** The one transient path of the handler: a time-out whose probe
    succeeds. *)
Example timeout_with_good_probe_is_transient :
  isTimeout (ThrownError "Error" "Request timeout") = true /\
  connectionFailed
    (fetchAll_rejected twoClusters (currentClosure twoClusters)
       (ThrownError "Error" "Request timeout") probeOk) = false /\
  error
    (fetchAll_rejected twoClusters (currentClosure twoClusters)
       (ThrownError "Error" "Request timeout") probeOk) =
    Some "Request timeout".
Proof. repeat split; reflexivity. Qed.

Section InterleavingFacts.

Variable getTime : string -> jsnum.

(** C2 (amended). When another connection is selected while a fetch
    cycle is outstanding, the result of that cycle is published on
    arrival as the snapshot, whatever connection the cycle was started
    for and whatever connection is active by then: nothing compares the
    two. *)
Theorem outstanding_cycle_published_after_switch
  (sys : System) (i : nat) (cl : FetchClosure) (clusterLabel : string)
  (data : Fetched) (fetchedAt : string) :
  nth_error (outstanding sys) i = Some cl ->
  let sys' :=
    run getTime sys
        [SelectCluster clusterLabel; CycleResolved i data fetchedAt] in
  snapshot (provider sys') =
    Some (MonitoringSnapshot.mk (f_allocation data) (f_recovery data)
            (f_health data) (f_nodes data) (f_settings data)
            (f_catHealth data) fetchedAt) /\
  healthHistory (provider sys') =
    mergeHealthHistory getTime (healthHistory (provider sys))
                       (f_catHealth data) /\
  activeClusterLabel (provider sys') = clusterLabel /\
  outstanding sys' = removeAt i (outstanding sys).
Proof.
  intros H sys'. unfold sys', run. cbn [fold_left handle provider outstanding].
  rewrite H. repeat split; reflexivity.
Qed.

End InterleavingFacts.

Lemma outstanding_cycle_published_after_switch_witness :
  nth_error
    (outstanding
       (run Date_getTime (mkSystem twoClusters []) [CallFetchAll])) 0 =
    Some (mkFetchClosure (Some clusterA) false) /\
  activeClusterLabel
    (provider
       (run Date_getTime
          (run Date_getTime (mkSystem twoClusters []) [CallFetchAll])
          [SelectCluster "staging";
           CycleResolved 0 fetchedFromA "2024-05-01T10:00:00.000Z"])) =
    "staging".
Proof.
  split.
  - reflexivity.
  - exact (proj1 (proj2 (proj2
             (outstanding_cycle_published_after_switch Date_getTime
                (run Date_getTime (mkSystem twoClusters []) [CallFetchAll])
                0 (mkFetchClosure (Some clusterA) false) "staging"
                fetchedFromA "2024-05-01T10:00:00.000Z" eq_refl)))).
Defined.

(** C2 as stated fails here.  A cycle is started for "prod", "staging"
    is selected, and the answer of "prod" arrives: it becomes the
    snapshot shown for "staging". *)
Lemma stale_cycle_overwrites_snapshot :
  let sys :=
    run Date_getTime (mkSystem twoClusters [])
        [CallFetchAll; SelectCluster "staging";
         CycleResolved 0 fetchedFromA "2024-05-01T10:00:00.000Z"] in
  activeCluster (provider sys) = Some clusterB /\
  option_map (fun s => ClusterHealth.cluster_name (MonitoringSnapshot.health s))
             (snapshot (provider sys)) = Some "prod-cluster" /\
  snapshot (provider sys) =
    Some (MonitoringSnapshot.mk (f_allocation fetchedFromA)
            (f_recovery fetchedFromA) (f_health fetchedFromA)
            (f_nodes fetchedFromA) (f_settings fetchedFromA)
            (f_catHealth fetchedFromA) "2024-05-01T10:00:00.000Z").
Proof. repeat split; reflexivity. Qed.

(** The same when the new connection has already shown its own
    snapshot: the late answer of "prod" replaces it. *)
Example stale_cycle_overwrites_newer_snapshot :
  let before :=
    run Date_getTime (mkSystem twoClusters [])
        [CallFetchAll; SelectCluster "staging"; CallFetchAll;
         CycleResolved 1 fetchedFromB "2024-05-01T10:00:01.000Z"] in
  let after :=
    run Date_getTime before
        [CycleResolved 0 fetchedFromA "2024-05-01T10:00:02.000Z"] in
  activeCluster (provider before) = Some clusterB /\
  option_map (fun s => ClusterHealth.cluster_name (MonitoringSnapshot.health s))
             (snapshot (provider before)) = Some "staging-cluster" /\
  activeCluster (provider after) = Some clusterB /\
  option_map (fun s => ClusterHealth.cluster_name (MonitoringSnapshot.health s))
             (snapshot (provider after)) = Some "prod-cluster".
Proof. repeat split; reflexivity. Qed.

(** ** More on version order *)

Lemma js_or0_num (a : jsnum) : js_or0 a <> NaN.
Proof.
  unfold js_or0. destruct (js_truthy a) eqn:E; [|discriminate].
  intros ->. discriminate.
Qed.

(** On numbers other than NaN, "neither below the other" behaves as an
    equality for [<]. *)
Lemma js_ltb_equiv_r (x y z : jsnum) :
  y <> NaN -> z <> NaN ->
  js_ltb x y = true -> js_ltb z y = false -> js_ltb x z = true.
Proof.
  destruct x, y, z; simpl; try congruence.
  intros _ _ H1 H2. apply js_ltb_Fin. apply js_ltb_Fin in H1.
  apply negb_false_iff, Qle_bool_iff in H2. lra.
Qed.

Lemma js_ltb_equiv_l (x y z : jsnum) :
  x <> NaN -> y <> NaN ->
  js_ltb y x = false -> js_ltb y z = true -> js_ltb x z = true.
Proof.
  destruct x, y, z; simpl; try congruence.
  intros _ _ H1 H2. apply js_ltb_Fin. apply js_ltb_Fin in H2.
  apply negb_false_iff, Qle_bool_iff in H1. lra.
Qed.

Lemma js_ltb_equiv_trans (x y z : jsnum) :
  x <> NaN -> y <> NaN -> z <> NaN ->
  js_ltb x y = false -> js_ltb y z = false -> js_ltb x z = false.
Proof.
  destruct x, y, z; simpl; try congruence.
  intros _ _ _ H1 H2.
  apply negb_false_iff, Qle_bool_iff in H1.
  apply negb_false_iff, Qle_bool_iff in H2.
  apply negb_false_iff, Qle_bool_iff. lra.
Qed.

Section VersionOrder.

Variable Number : string -> jsnum.

Lemma partAt_num (parts : list jsnum) (i : nat) : partAt parts i <> NaN.
Proof.
  unfold partAt. destruct (nth_error parts i); [apply js_or0_num|discriminate].
Qed.

Lemma partAt_beyond (parts : list jsnum) (i : nat) :
  (length parts <= i)%nat -> partAt parts i = Fin 0.
Proof.
  intros H. unfold partAt.
  now rewrite (proj2 (nth_error_None parts i) H).
Qed.

(** Iterations past the end of both lists compare zero with zero. *)
Lemma compareLoop_more (p1 p2 : list jsnum) (n m i : nat) :
  (Nat.max (length p1) (length p2) <= i + n)%nat ->
  compareLoop p1 p2 (n + m) i = compareLoop p1 p2 n i.
Proof.
  revert i. induction n as [|n IH]; intros i H; simpl.
  - rewrite Nat.add_0_r in H.
    revert i H. induction m as [|m IHm]; intros i H; simpl; auto.
    unfold js_gtb.
    rewrite !partAt_beyond by lia. simpl. apply IHm. lia.
  - destruct (js_ltb _ _); auto. destruct (js_gtb _ _); auto.
    apply IH. lia.
Qed.

Lemma compareVersions_loop (v1 v2 : string) (n : nat) :
  (Nat.max (length (versionParts Number v1))
           (length (versionParts Number v2)) <= n)%nat ->
  compareVersions Number v1 v2 =
  compareLoop (versionParts Number v1) (versionParts Number v2) n 0.
Proof.
  intros H. unfold compareVersions.
  replace n with
    (Nat.max (length (versionParts Number v1))
             (length (versionParts Number v2)) +
     (n - Nat.max (length (versionParts Number v1))
                  (length (versionParts Number v2))))%nat by lia.
  symmetry. apply compareLoop_more. lia.
Qed.

Lemma compareLoop_swap (p1 p2 : list jsnum) (n i : nat) :
  compareLoop p2 p1 n i = - compareLoop p1 p2 n i.
Proof.
  revert i. induction n as [|n IH]; intros i; simpl; auto.
  unfold js_gtb.
  destruct (js_ltb (partAt p1 i) (partAt p2 i)) eqn:E1.
  - now rewrite (js_ltb_asym _ _ E1).
  - destruct (js_ltb (partAt p2 i) (partAt p1 i)); auto.
Qed.

(** Swapping the arguments of [compareVersions] negates the result. *)
Theorem compareVersions_swap (v1 v2 : string) :
  compareVersions Number v2 v1 = - compareVersions Number v1 v2.
Proof.
  unfold compareVersions. rewrite Nat.max_comm. apply compareLoop_swap.
Qed.

Lemma compareLoop_trans (a b c : list jsnum) (n i : nat) :
  compareLoop a b n i <= 0 -> compareLoop b c n i <= 0 ->
  compareLoop a c n i <= 0.
Proof.
  revert i. induction n as [|n IH]; intros i; simpl; [lia|].
  unfold js_gtb.
  pose proof (partAt_num a i) as Na. pose proof (partAt_num b i) as Nb.
  pose proof (partAt_num c i) as Nc.
  destruct (js_ltb (partAt a i) (partAt b i)) eqn:Eab.
  - intros _.
    destruct (js_ltb (partAt b i) (partAt c i)) eqn:Ebc.
    + intros _. rewrite (js_ltb_trans _ _ _ Eab Ebc). lia.
    + destruct (js_ltb (partAt c i) (partAt b i)) eqn:Ecb; [lia|].
      intros _. rewrite (js_ltb_equiv_r _ _ _ Nb Nc Eab Ecb). lia.
  - destruct (js_ltb (partAt b i) (partAt a i)) eqn:Eba; [lia|].
    intros Hab.
    destruct (js_ltb (partAt b i) (partAt c i)) eqn:Ebc.
    + intros _. rewrite (js_ltb_equiv_l _ _ _ Na Nb Eba Ebc). lia.
    + destruct (js_ltb (partAt c i) (partAt b i)) eqn:Ecb; [lia|].
      intros Hbc.
      rewrite (js_ltb_equiv_trans _ _ _ Na Nb Nc Eab Ebc).
      rewrite (js_ltb_equiv_trans _ _ _ Nc Nb Na Ecb Eba).
      now apply IH.
Qed.

(** "Not above" is transitive: the comparison is a total preorder on
    version strings. *)
Theorem compareVersions_trans (v1 v2 v3 : string) :
  compareVersions Number v1 v2 <= 0 ->
  compareVersions Number v2 v3 <= 0 ->
  compareVersions Number v1 v3 <= 0.
Proof.
  set (n := Nat.max (length (versionParts Number v1))
              (Nat.max (length (versionParts Number v2))
                       (length (versionParts Number v3)))).
  rewrite (compareVersions_loop v1 v2 n), (compareVersions_loop v2 v3 n),
          (compareVersions_loop v1 v3 n) by lia.
  apply compareLoop_trans.
Qed.

(** The reduction of [getHighestVersion]. *)
Lemma highest_fold (rest done1 done2 : list string) (acc : string) :
  Forall (fun v => compareVersions Number v acc = -1) done1 ->
  Forall (fun v => compareVersions Number v acc <= 0) done2 ->
  exists l1 l2 h,
    fold_left
      (fun highest current =>
         if compareVersions Number current highest >? 0 then current
         else highest) rest acc = h /\
    done1 ++ acc :: done2 ++ rest = l1 ++ h :: l2 /\
    Forall (fun v => compareVersions Number v h = -1) l1 /\
    Forall (fun v => compareVersions Number v h <= 0) l2.
Proof.
  revert done1 done2 acc.
  induction rest as [|x rest IH]; intros done1 done2 acc H1 H2; simpl.
  - exists done1, done2, acc. rewrite app_nil_r. auto.
  - destruct (Z.gtb_spec (compareVersions Number x acc) 0) as [G|G].
    + destruct (IH (done1 ++ acc :: done2) [] x) as (l1 & l2 & h & E & El & F1 & F2).
      * assert (Hx : forall v, compareVersions Number v acc <= 0 ->
                       compareVersions Number v x = -1).
        { intros v Hv.
          destruct (compareLoop_range (versionParts Number v)
                      (versionParts Number x)
                      (Nat.max (length (versionParts Number v))
                               (length (versionParts Number x))) 0)
            as [C|[C|C]]; fold (compareVersions Number v x) in C; auto.
          - pose proof (compareVersions_swap v x) as S.
            assert (T : compareVersions Number x acc <= 0).
            { apply (compareVersions_trans x v acc); lia. }
            lia.
          - pose proof (compareVersions_swap v x) as S.
            assert (T : compareVersions Number x acc <= 0).
            { apply (compareVersions_trans x v acc); lia. }
            lia. }
        apply Forall_app. split.
        -- eapply Forall_impl; [|exact H1]. intros v Hv. apply Hx. simpl in Hv. lia.
        -- constructor.
           ++ apply Hx. pose proof (compareVersions_swap acc acc). lia.
           ++ eapply Forall_impl; [|exact H2]. intros v Hv. now apply Hx.
      * constructor.
      * exists l1, l2, h. repeat split; auto.
        rewrite <- El. simpl. rewrite <- !app_assoc. simpl. reflexivity.
    + destruct (IH done1 (done2 ++ [x]) acc) as (l1 & l2 & h & E & El & F1 & F2);
        auto.
      * apply Forall_app. split; auto.
      * exists l1, l2, h. repeat split; auto.
        rewrite <- El. rewrite <- !app_assoc. reflexivity.
Qed.

(** [getHighestVersion] answers null exactly on the empty list;
    otherwise it answers an element of the list that no element is
    above, and among equals the first one: everything before it is
    strictly below. *)
Theorem getHighestVersion_first_maximum (versions : list string) :
  (getHighestVersion Number versions = None <-> versions = []) /\
  forall h, getHighestVersion Number versions = Some h ->
    exists l1 l2,
      versions = l1 ++ h :: l2 /\
      Forall (fun v => compareVersions Number v h = -1) l1 /\
      Forall (fun v => compareVersions Number v h <= 0) l2.
Proof.
  split.
  - destruct versions; simpl; split; intros; congruence.
  - intros h H. destruct versions as [|first rest]; [discriminate|].
    simpl in H. injection H as H.
    destruct (highest_fold rest [] [] first) as (l1 & l2 & h' & E & El & F1 & F2);
      try constructor.
    rewrite H in E. subst h'. exists l1, l2. simpl in El. auto.
Qed.

End VersionOrder.

Lemma compareVersions_trans_witness :
  compareVersions NumberDigits "8.2.0" "8.19.7" <= 0.
Proof.
  apply (compareVersions_trans NumberDigits "8.2.0" "8.15.3" "8.19.7");
    vm_compute; discriminate.
Defined.

Lemma getHighestVersion_first_maximum_witness :
  exists l1 l2,
    ["8.15.3"; "8.19.7"; "8.19.7.0"; "8.2.0"] = l1 ++ "8.19.7" :: l2 /\
    Forall (fun v => compareVersions NumberDigits v "8.19.7" = -1) l1 /\
    Forall (fun v => compareVersions NumberDigits v "8.19.7" <= 0) l2.
Proof.
  apply (proj2 (getHighestVersion_first_maximum NumberDigits
                  ["8.15.3"; "8.19.7"; "8.19.7.0"; "8.2.0"])).
  reflexivity.
Defined.

(** ** Tier labels *)

Lemma label_of_tier_injective (o1 o2 : option Z) :
  (forall t, o1 = Some t -> 1 <= t <= 8) ->
  (forall t, o2 = Some t -> 1 <= t <= 8) ->
  getUpgradeOrderLabel o1 = getUpgradeOrderLabel o2 -> o1 = o2.
Proof.
  intros H1 H2.
  assert (E : forall o, (forall t, o = Some t -> 1 <= t <= 8) ->
    o = None \/ o = Some 1 \/ o = Some 2 \/ o = Some 3 \/ o = Some 4 \/
    o = Some 5 \/ o = Some 6 \/ o = Some 7 \/ o = Some 8).
  { intros [t|] H; auto. specialize (H t eq_refl).
    assert (t = 1 \/ t = 2 \/ t = 3 \/ t = 4 \/ t = 5 \/ t = 6 \/ t = 7 \/ t = 8)
      by lia.
    intuition (subst; auto 10). }
  destruct (E o1 H1) as [->|[->|[->|[->|[->|[->|[->|[->| ->]]]]]]]];
  destruct (E o2 H2) as [->|[->|[->|[->|[->|[->|[->|[->| ->]]]]]]]];
  vm_compute; intros H; try reflexivity; discriminate.
Qed.

Section LabelFacts.

Variable Number : string -> jsnum.

(** The label shown for a node is "Upgraded" exactly when the node is
    at or above the highest version, and two nodes are labelled alike
    exactly when they are given the same tier. *)
Theorem label_of_calculated_tier
  (n1 n2 : NodeInfo.t) (h1 h2 : option string) :
  (getUpgradeOrderLabel (calculateUpgradeOrder Number n1 h1) = "Upgraded" <->
   alreadyUpgraded Number n1 h1 = true) /\
  (getUpgradeOrderLabel (calculateUpgradeOrder Number n1 h1) =
   getUpgradeOrderLabel (calculateUpgradeOrder Number n2 h2) <->
   calculateUpgradeOrder Number n1 h1 = calculateUpgradeOrder Number n2 h2).
Proof.
  split.
  - split.
    + intros H.
      assert (E : calculateUpgradeOrder Number n1 h1 = None).
      { apply label_of_tier_injective; auto.
        - apply calculateUpgradeOrder_range.
        - discriminate. }
      unfold calculateUpgradeOrder in E.
      destruct (alreadyUpgraded Number n1 h1); auto.
      repeat match type of E with
             | context [includes ?l ?r] => destruct (includes l r); cbn [orb] in E
             end; discriminate.
    + intros H. unfold calculateUpgradeOrder. now rewrite H.
  - split.
    + apply label_of_tier_injective; apply calculateUpgradeOrder_range.
    + now intros ->.
Qed.

End LabelFacts.

(** ** Uptime strings *)

Lemma spanDigits_digits (s : string) : all_digits (fst (spanDigits s)) = true.
Proof.
  induction s as [|c r IH]; simpl; auto.
  destruct (is_digit c) eqn:E; simpl; auto.
  destruct (spanDigits r). simpl in *. now rewrite E.
Qed.

Lemma digit_value_nonneg (c : ascii) : is_digit c = true -> 0 <= digit_value c.
Proof.
  unfold is_digit, digit_value. intros H.
  apply andb_true_iff in H. destruct H as [H _].
  apply Nat.leb_le in H. lia.
Qed.

Lemma digits_value_nonneg (s : string) (acc : Z) :
  0 <= acc -> all_digits s = true -> 0 <= digits_value acc s.
Proof.
  revert acc. induction s as [|c r IH]; intros acc Ha H;
    cbn [digits_value all_digits] in *; auto.
  apply andb_true_iff in H. destruct H as [Hc Hr].
  apply IH; auto. pose proof (digit_value_nonneg c Hc). lia.
Qed.

Lemma all_digits_app (a b : string) :
  all_digits (a ++ b) = all_digits a && all_digits b.
Proof.
  induction a as [|c r IH]; simpl; auto. now rewrite IH, andb_assoc.
Qed.

Lemma parseFloat_nonneg (s : string) :
  parseFloat s = NaN \/ exists q, parseFloat s = Fin q /\ (0 <= q)%Q.
Proof.
  unfold parseFloat.
  pose proof (spanDigits_digits s) as Hi.
  destruct (spanDigits s) as [ipart rest]. simpl in Hi.
  set (fpart := match rest with
                | String "."%char r => fst (spanDigits r)
                | _ => EmptyString
                end).
  assert (Hf : all_digits fpart = true).
  { unfold fpart. destruct rest as [|c r]; auto.
    destruct (Ascii.eqb_spec c "."%char) as [->|N].
    - apply spanDigits_digits.
    - destruct c as [[] [] [] [] [] [] [] []]; auto. }
  assert (Hq : (0 <= Qmake (digits_value 0 (ipart ++ fpart)%string)
                      (Z.to_pos (10 ^ Z.of_nat (String.length fpart))))%Q).
  { unfold Qle. simpl. rewrite Z.mul_1_r.
    apply digits_value_nonneg; [lia|]. now rewrite all_digits_app, Hi, Hf. }
  destruct ipart, fpart; eauto.
Qed.

Lemma mul_nonneg (v : jsnum) (k : Z) :
  0 < k -> js_ltb v (Fin 0) = false ->
  js_ltb (js_mul v (js_of_Z k)) (Fin 0) = false.
Proof.
  intros Hk Hv. destruct v as [| |q|]; try reflexivity.
  - discriminate Hv.
  - cbn [js_mul js_of_Z] in *. unfold js_ltb in *.
    apply negb_false_iff, Qle_bool_iff in Hv.
    apply negb_false_iff, Qle_bool_iff.
    apply Qmult_le_0_compat; [exact Hv|].
    unfold Qle. simpl. lia.
  - cbn. destruct k; try lia. reflexivity.
Qed.

Lemma parseFloat_not_negative (s : string) : js_ltb (parseFloat s) (Fin 0) = false.
Proof.
  destruct (parseFloat_nonneg s) as [->|(q & -> & Hq)]; [reflexivity|].
  unfold js_ltb. now apply negb_false_iff, Qle_bool_iff.
Qed.

Lemma matchUptime_digits (d : string) (u : ascii) :
  d <> EmptyString -> all_digits d = true ->
  u = "s"%char \/ u = "m"%char \/ u = "h"%char \/ u = "d"%char ->
  matchUptime (d ++ String u EmptyString) = Some (d, u).
Proof.
  intros Hne Hd Hu.
  assert (Eu : Ascii.eqb u "s" || Ascii.eqb u "m" || Ascii.eqb u "h" ||
               Ascii.eqb u "d" = true)
    by (destruct Hu as [->|[->|[->| ->]]]; reflexivity).
  induction d as [|c r IH]; [congruence|].
  simpl in Hd. apply andb_true_iff in Hd. destruct Hd as [Hc Hr].
  destruct r as [|c' r'].
  - simpl. now rewrite Hc, Eu.
  - change ((String c (String c' r') ++ String u EmptyString)%string)
      with (String c (String c' r' ++ String u EmptyString)%string).
    assert (IH' := IH ltac:(discriminate) Hr).
    simpl. simpl in IH'. rewrite Hc. simpl.
    destruct (r' ++ String u EmptyString)%string eqn:E.
    + destruct r'; discriminate.
    + now rewrite IH'.
Qed.

Lemma spanDigits_all (d : string) :
  all_digits d = true -> spanDigits d = (d, EmptyString).
Proof.
  induction d as [|c r IH]; simpl; auto.
  intros H. apply andb_true_iff in H. destruct H as [Hc Hr].
  now rewrite Hc, (IH Hr).
Qed.

Lemma append_empty_r_local (s : string) : (s ++ EmptyString)%string = s.
Proof. induction s as [|c r IH]; simpl; congruence. Qed.

Lemma matchUptime_step (c c' : ascii) (r : string) :
  matchUptime (String c (String c' r)) =
  if is_digit c || Ascii.eqb c "." then
    match r with
    | EmptyString =>
        if Ascii.eqb c' "s" || Ascii.eqb c' "m" || Ascii.eqb c' "h" ||
           Ascii.eqb c' "d"
        then Some (String c EmptyString, c') else None
    | _ =>
        match matchUptime (String c' r) with
        | Some (num, u) => Some (String c num, u)
        | None => None
        end
    end
  else None.
Proof. destruct r; reflexivity. Qed.

(** The regular expression of the uptime, spelled out: a non-empty run
    of digits and dots followed by one unit letter. *)
Lemma matchUptime_spec (s num : string) (u : ascii) :
  matchUptime s = Some (num, u) <->
  num <> EmptyString /\ digitsAndDots num = true /\
  In u ["s"; "m"; "h"; "d"]%char /\
  s = (num ++ String u EmptyString)%string.
Proof.
  assert (Hunit : forall x,
             Ascii.eqb x "s" || Ascii.eqb x "m" || Ascii.eqb x "h" ||
             Ascii.eqb x "d" = true <-> In x ["s"; "m"; "h"; "d"]%char).
  { intros x. cbn [In]. rewrite !orb_true_iff, !Ascii.eqb_eq.
    intuition congruence. }
  split.
  - revert num u. induction s as [|c r IH]; intros num u H; [discriminate H|].
    cbn [matchUptime] in H.
    destruct r as [|c' r']; [discriminate H|].
    destruct (is_digit c || Ascii.eqb c ".") eqn:Ec; [|discriminate H].
    destruct r' as [|c'' r''].
    + destruct (Ascii.eqb c' "s" || Ascii.eqb c' "m" || Ascii.eqb c' "h" ||
                Ascii.eqb c' "d") eqn:Eu; [|discriminate H].
      injection H as <- <-.
      repeat split; [discriminate|cbn; now rewrite Ec|now apply Hunit].
    + destruct (matchUptime (String c' (String c'' r''))) as [[num' u']|] eqn:Er;
        [|discriminate H].
      injection H as <- <-.
      destruct (IH num' u' eq_refl) as (Hne & Hd & Hu & Hs).
      repeat split; [discriminate|cbn; now rewrite Ec, Hd|exact Hu|].
      cbn [String.append]. now rewrite Hs.
  - intros (Hne & Hd & Hu & ->). apply Hunit in Hu.
    induction num as [|c r IH]; [congruence|].
    cbn [digitsAndDots] in Hd. apply andb_true_iff in Hd. destruct Hd as [Hc Hr].
    destruct r as [|c' r'].
    + cbn [String.append matchUptime]. now rewrite Hc, Hu.
    + assert (E : matchUptime (String c' r' ++ String u EmptyString) =
                  Some (String c' r', u)) by (apply IH; [discriminate|exact Hr]).
      cbn [String.append] in E |- *. rewrite matchUptime_step, Hc.
      destruct (r' ++ String u EmptyString)%string eqn:Er.
      * destruct r'; discriminate Er.
      * rewrite E. reflexivity.
Qed.

Lemma parseUptime_standsFor (s : string) (secs : Z) :
  standsFor s secs -> parseUptime (orZeroSeconds s) = js_of_Z secs.
Proof.
  assert (G : forall d u k,
             wholeNumber d -> multipliers u = Some k -> 0 < k ->
             parseUptime (orZeroSeconds (d ++ String u EmptyString)) =
             js_of_Z (digits_value 0 d * k)).
  { intros d u k (Hne & Hd & _) Hk Hpos.
    assert (Hu : u = "s"%char \/ u = "m"%char \/ u = "h"%char \/ u = "d"%char).
    { unfold multipliers in Hk.
      destruct (Ascii.eqb_spec u "s"); auto.
      destruct (Ascii.eqb_spec u "m"); auto.
      destruct (Ascii.eqb_spec u "h"); auto.
      destruct (Ascii.eqb_spec u "d"); auto. discriminate. }
    assert (Ht : str_truthy (d ++ String u EmptyString) = true)
      by (destruct d; [congruence|reflexivity]).
    unfold orZeroSeconds, parseUptime. rewrite Ht. cbn [negb].
    rewrite (matchUptime_digits d u Hne Hd Hu), Hk.
    assert (Hk' : js_truthy (js_of_Z k) = true) by (destruct k; try lia; reflexivity).
    rewrite Hk'. unfold parseFloat. rewrite (spanDigits_all d Hd).
    destruct d as [|c r]; [congruence|]. rewrite append_empty_r_local.
    cbn [String.length Nat.add Z.of_nat Z.pow Z.to_pos js_mul js_of_Z].
    unfold inject_Z, Qmult. cbn [Qnum Qden Pos.mul]. reflexivity. }
  intros H. destruct H as [d H|d H|d H|d H].
  - rewrite <- (Z.mul_1_r (digits_value 0 d)). apply G; [exact H|reflexivity|lia].
  - apply G; [exact H|reflexivity|lia].
  - apply G; [exact H|reflexivity|lia].
  - apply G; [exact H|reflexivity|lia].
Qed.

Lemma standsFor_truthy (s : string) (secs : Z) :
  standsFor s secs -> orZeroSeconds s = s.
Proof.
  intros H. unfold orZeroSeconds.
  destruct H as [d (Hne & _)|d (Hne & _)|d (Hne & _)|d (Hne & _)];
    destruct d; try congruence; reflexivity.
Qed.

(** [parseUptimeToSeconds] never answers a negative number; it answers
    0 for a missing value and for every string that is not a non-empty
    run of digits and dots followed by one of the letters s, m, h, d;
    and an uptime that stands for a whole number of seconds, minutes,
    hours or days is read as that number of seconds. *)
Theorem parseUptimeToSeconds_values :
  (forall uptime, js_ltb (parseUptimeToSeconds uptime) (Fin 0) = false) /\
  parseUptimeToSeconds None = Fin 0 /\
  (forall s,
      (forall num u,
          num <> EmptyString -> digitsAndDots num = true ->
          In u ["s"; "m"; "h"; "d"]%char ->
          s <> (num ++ String u EmptyString)%string) ->
      parseUptimeToSeconds (Some s) = Fin 0) /\
  (forall s secs,
      standsFor s secs -> parseUptimeToSeconds (Some s) = js_of_Z secs).
Proof.
  split; [|split; [|split]].
  - intros [s|]; simpl; [|reflexivity].
    unfold parseUptime.
    destruct (negb (str_truthy s)); [reflexivity|].
    destruct (matchUptime s) as [[num unit]|]; [|reflexivity].
    assert (Hm : exists k, 0 < k /\
               match multipliers unit with
               | Some k => if js_truthy (js_of_Z k) then js_of_Z k else Fin 1
               | None => Fin 1
               end = js_of_Z k).
    { unfold multipliers.
      destruct (Ascii.eqb unit "s"); [exists 1; split; [lia|reflexivity]|].
      destruct (Ascii.eqb unit "m"); [exists 60; split; [lia|reflexivity]|].
      destruct (Ascii.eqb unit "h"); [exists 3600; split; [lia|reflexivity]|].
      destruct (Ascii.eqb unit "d"); [exists 86400; split; [lia|reflexivity]|].
      exists 1. split; [lia|reflexivity]. }
    destruct Hm as (k & Hk & ->).
    apply mul_nonneg; [exact Hk|apply parseFloat_not_negative].
  - reflexivity.
  - intros s H. cbn [parseUptimeToSeconds]. unfold parseUptime.
    destruct (negb (str_truthy s)); [reflexivity|].
    destruct (matchUptime s) as [[num u]|] eqn:E; [|reflexivity].
    apply matchUptime_spec in E. destruct E as (Hne & Hd & Hu & Hs).
    exfalso. exact (H num u Hne Hd Hu Hs).
  - intros s secs H. cbn [parseUptimeToSeconds].
    rewrite <- (standsFor_truthy s secs H) at 1.
    now apply parseUptime_standsFor.
Qed.

Lemma parseUptimeToSeconds_values_witness :
  parseUptimeToSeconds (Some "45m") = js_of_Z 2700 /\
  parseUptimeToSeconds (Some "soon") = Fin 0.
Proof.
  split.
  - apply (proj2 (proj2 (proj2 parseUptimeToSeconds_values)) "45m" (45 * 60)).
    apply (standsFor_m "45"). repeat split; [discriminate|cbn; lia].
  - apply (proj1 (proj2 (proj2 parseUptimeToSeconds_values)) "soon").
    intros num u Hne Hd Hu E.
    assert (M : matchUptime "soon" = Some (num, u))
      by (apply matchUptime_spec; auto).
    discriminate M.
Defined.

(** ** Positions, for every snapshot *)

Lemma assign_positions (c : Z) (l : list NodeInfo.t) :
  positions (assignSequentialOrder c l) =
  map (fun k => c + Z.of_nat k)
      (seq 1 (length (positions (assignSequentialOrder c l)))).
Proof.
  revert c. induction l as [|n r IH]; intros c; simpl; auto.
  destruct (isNull (NodeInfo.upgradeOrder n)); simpl; [apply IH|].
  f_equal; try lia.
  rewrite IH at 1. rewrite <- (seq_shift _ 1), map_map.
  apply map_ext. intros k. lia.
Qed.

Lemma assign_length (c : Z) (l : list NodeInfo.t) :
  length (assignSequentialOrder c l) = length l.
Proof. now rewrite <- (length_map node), assign_nodes. Qed.

Section PositionFacts.

Variable Number : string -> jsnum.

(** Whatever the snapshot, [nodesWithSequentialOrder] returns one entry
    per node (none without a snapshot); an entry has a null position
    exactly when its tier is null; and the positions handed out, read
    in output order, are 1, 2, ..., k without gap or repetition. *)
Theorem nodesWithSequentialOrder_numbering
  (snapshot : option MonitoringSnapshot.t) :
  let out := nodesWithSequentialOrder Number snapshot in
  length out =
    match snapshot with
    | Some s => length (MonitoringSnapshot.nodes s)
    | None => 0%nat
    end /\
  Forall (fun s => sequentialOrder s = None <->
                   NodeInfo.upgradeOrder (node s) = Some None) out /\
  positions out = map Z.of_nat (seq 1 (length (positions out))).
Proof.
  destruct snapshot as [s|]; simpl.
  - destruct (allSameVersion (MonitoringSnapshot.nodes s)).
    + split; [|split].
      * rewrite assign_length, (Permutation_length (Array_sort_perm _ _)).
        apply length_map.
      * apply assign_null_iff.
      * apply (assign_positions 0).
    + split; [|split].
      * rewrite assign_length. apply (Permutation_length (Array_sort_perm _ _)).
      * apply assign_null_iff.
      * apply (assign_positions 0).
  - repeat split; constructor.
Qed.

End PositionFacts.

(** ** More on the health history *)

Lemma distinctStrings_seen (s1 s2 l : list string) :
  (forall k, In k s1 <-> In k s2) ->
  distinctStrings s1 l = distinctStrings s2 l.
Proof.
  revert s1 s2. induction l as [|x r IH]; intros s1 s2 H; simpl; auto.
  assert (E : existsb (String.eqb x) s1 = existsb (String.eqb x) s2).
  { destruct (existsb (String.eqb x) s1) eqn:E1, (existsb (String.eqb x) s2) eqn:E2;
      auto.
    - apply existsb_eqb_In, H, existsb_eqb_In in E1. congruence.
    - apply existsb_eqb_In, H, existsb_eqb_In in E2. congruence. }
  rewrite E. destruct (existsb (String.eqb x) s2); auto.
  f_equal. apply IH. intros k. simpl. rewrite H. tauto.
Qed.

Lemma fold_Map_set_keys (l : list CatHealthRow.t)
  (m : list (string * CatHealthRow.t)) :
  map fst (fold_left
             (fun merged item => Map_set merged (CatHealthRow.timestamp item) item)
             l m) =
  map fst m ++ distinctStrings (map fst m) (map CatHealthRow.timestamp l).
Proof.
  revert m. induction l as [|x r IH]; intros m; simpl.
  - now rewrite app_nil_r.
  - rewrite IH, Map_set_keys.
    destruct (existsb (String.eqb (CatHealthRow.timestamp x)) (map fst m)); auto.
    rewrite <- app_assoc. simpl. do 2 f_equal.
    apply distinctStrings_seen. intros k. rewrite in_app_iff. simpl. tauto.
Qed.

(** The keys of the map are the timestamps in order of first
    occurrence. *)
Lemma mergedMap_keys (items : list CatHealthRow.t) :
  map fst (mergedMap items) =
  distinctStrings [] (map CatHealthRow.timestamp items).
Proof. unfold mergedMap. now rewrite fold_Map_set_keys. Qed.

Lemma StronglySorted_app_cross {A : Type} (R : A -> A -> Prop) (l1 l2 : list A) :
  StronglySorted R (l1 ++ l2) ->
  forall x y, In x l1 -> In y l2 -> R x y.
Proof.
  induction l1 as [|a r IH]; simpl; intros H x y Hx Hy; [destruct Hx|].
  inversion H as [|? ? Hr Ha]; subst.
  destruct Hx as [<-|Hx].
  - rewrite Forall_forall in Ha. apply Ha, in_or_app. now right.
  - now apply IH.
Qed.

Section HealthHistoryMore.

Variable getTime : string -> jsnum.

(** The merge returns as many rows as its inputs hold distinct
    timestamps, up to 40, and every one of them is a row of the
    inputs. *)
Theorem mergeHealthHistory_size (prev incoming : list CatHealthRow.t) :
  length (mergeHealthHistory getTime prev incoming) =
    Nat.min 40
      (length (distinctStrings []
                 (map CatHealthRow.timestamp (prev ++ incoming)))) /\
  forall r, In r (mergeHealthHistory getTime prev incoming) ->
            In r prev \/ In r incoming.
Proof.
  split.
  - unfold mergeHealthHistory, sliceLast.
    rewrite length_skipn, (Permutation_length (Array_sort_perm _ _)).
    unfold Map_values. rewrite length_map, <- (length_map fst), mergedMap_keys.
    lia.
  - intros r Hr. apply merge_In in Hr. now apply in_app_or.
Qed.

(** A history that came out of a merge is left as it is by a merge
    with no incoming row. *)
Theorem mergeHealthHistory_nothing_new (prev incoming : list CatHealthRow.t) :
  mergeHealthHistory getTime (mergeHealthHistory getTime prev incoming) [] =
  mergeHealthHistory getTime prev incoming.
Proof.
  set (M := mergeHealthHistory getTime prev incoming).
  assert (Hn : NoDup (map CatHealthRow.timestamp M))
    by apply merge_timestamps_NoDup.
  assert (Hs : StronglySorted (inOrder (compareByTime getTime)) M).
  { unfold M, mergeHealthHistory. apply sliceLast_sorted.
    apply Array_sort_sorted; [apply time_trans | apply time_asym]. }
  assert (HU : Map_values (mergedMap (M ++ [])) = M).
  { apply (same_keys_same_rows
             (fun r => lastWithTimestamp (M ++ [])
                         (CatHealthRow.timestamp r) = Some r)).
    - intros a b Ha Hb E. rewrite E in Ha. congruence.
    - rewrite mergedMap_timestamps. apply mergedMap_keys_known; auto.
      intros r [].
    - apply Forall_forall. intros r Hr. now apply mergedMap_spec.
    - apply Forall_forall. intros r Hr. rewrite app_nil_r.
      now apply lastWithTimestamp_unique. }
  unfold mergeHealthHistory at 1. rewrite HU, (Array_sort_sorted_id _ M Hs).
  apply sliceLast_all. apply sliceLast_length.
Qed.

(** When every timestamp is a date, the rows cut by the bound of 40 are
    the oldest: a row that was the latest for its timestamp and is not
    in the result is not later than any row of the result. *)
Theorem mergeHealthHistory_keeps_latest
  (prev incoming : list CatHealthRow.t) (cut kept : CatHealthRow.t) :
  allDates getTime (prev ++ incoming) ->
  lastWithTimestamp (prev ++ incoming) (CatHealthRow.timestamp cut) = Some cut ->
  ~ In cut (mergeHealthHistory getTime prev incoming) ->
  In kept (mergeHealthHistory getTime prev incoming) ->
  js_leb (timeOf getTime cut) (timeOf getTime kept) = true.
Proof.
  intros Hd Hcut Hnot Hkept.
  unfold mergeHealthHistory, sliceLast in *.
  set (S := Array_sort (compareByTime getTime)
              (Map_values (mergedMap (prev ++ incoming)))) in *.
  assert (HS : StronglySorted (inOrder (compareByTime getTime)) S)
    by (apply Array_sort_sorted; [apply time_trans | apply time_asym]).
  assert (Hin : In cut S).
  { apply (Permutation_in _ (Permutation_sym (sorted_values_perm getTime _))).
    now apply mergedMap_spec. }
  rewrite <- (firstn_skipn (length S - 40) S) in Hin, HS.
  apply in_app_or in Hin. destruct Hin as [Hin|Hin]; [|contradiction].
  pose proof (StronglySorted_app_cross _ _ _ HS cut kept Hin Hkept) as Hord.
  unfold inOrder in Hord. rewrite sortsBefore_time in Hord.
  unfold allDates in Hd. rewrite Forall_forall in Hd.
  destruct (Hd cut) as [qc Ec].
  { now apply lastWithTimestamp_some in Hcut. }
  destruct (Hd kept) as [qk Ek].
  { apply (merge_In getTime). unfold mergeHealthHistory, sliceLast. exact Hkept. }
  rewrite Ec, Ek in *. simpl in *. now apply negb_false_iff in Hord.
Qed.

End HealthHistoryMore.

Lemma rowsWithStatus_cons (status : ClusterStatus) (r : CatHealthRow.t)
  (l : list CatHealthRow.t) :
  rowsWithStatus status (r :: l) =
  (if statusEqb (CatHealthRow.status r) status then 1 else 0) +
  rowsWithStatus status l.
Proof.
  unfold rowsWithStatus. cbn [filter].
  destruct (statusEqb (CatHealthRow.status r) status); cbn [length]; lia.
Qed.

Lemma bump_fold (l : list CatHealthRow.t) (acc : StatusSummary) :
  let s := fold_left (fun acc row => bumpStatus acc (CatHealthRow.status row))
                     l acc in
  n_green s = n_green acc + rowsWithStatus green l /\
  n_yellow s = n_yellow acc + rowsWithStatus yellow l /\
  n_red s = n_red acc + rowsWithStatus red l /\
  n_unknown s = n_unknown acc + rowsWithStatus unknown l.
Proof.
  revert acc. induction l as [|r l IH]; intros acc; cbn zeta.
  - unfold rowsWithStatus. cbn [fold_left filter length]. lia.
  - cbn [fold_left]. specialize (IH (bumpStatus acc (CatHealthRow.status r))).
    cbn zeta in IH. destruct IH as (G & Y & R & U).
    rewrite G, Y, R, U, !rowsWithStatus_cons.
    destruct (CatHealthRow.status r);
      cbn [bumpStatus statusEqb n_green n_yellow n_red n_unknown]; lia.
Qed.

Lemma rowsWithStatus_total (l : list CatHealthRow.t) :
  rowsWithStatus green l + rowsWithStatus yellow l + rowsWithStatus red l +
  rowsWithStatus unknown l = Z.of_nat (length l).
Proof.
  induction l as [|r l IH]; [reflexivity|].
  rewrite !rowsWithStatus_cons. cbn [length].
  destruct (CatHealthRow.status r); cbn [statusEqb]; lia.
Qed.

(** The status summary counts, for each status, the rows of the history
    with that status; the four counts add up to the length of the
    history. *)
Theorem statusSummary_counts (st : Provider) :
  n_green (statusSummary st) = rowsWithStatus green (healthHistory st) /\
  n_yellow (statusSummary st) = rowsWithStatus yellow (healthHistory st) /\
  n_red (statusSummary st) = rowsWithStatus red (healthHistory st) /\
  n_unknown (statusSummary st) = rowsWithStatus unknown (healthHistory st) /\
  n_green (statusSummary st) + n_yellow (statusSummary st) +
  n_red (statusSummary st) + n_unknown (statusSummary st) =
  Z.of_nat (length (healthHistory st)).
Proof.
  unfold statusSummary.
  destruct (bump_fold (healthHistory st) (mkStatusSummary 0 0 0 0))
    as (G & Y & R & U).
  cbn [n_green n_yellow n_red n_unknown] in G, Y, R, U.
  rewrite G, Y, R, U. repeat split; auto.
  rewrite !Z.add_0_l. apply rowsWithStatus_total.
Qed.

Lemma mergeHealthHistory_keeps_latest_witness :
  js_leb (timeOf Date_getTime (healthRow "2024-05-01T10:00:00Z" "10"))
         (timeOf Date_getTime (healthRow "2024-05-01T10:00:40Z" "10")) = true.
Proof.
  apply (mergeHealthHistory_keeps_latest Date_getTime [] datedRows41).
  - apply Forall_forall. intros r Hr. vm_compute in Hr.
    repeat (destruct Hr as [<-|Hr]; [eexists; vm_compute; reflexivity|]).
    destruct Hr.
  - vm_compute. reflexivity.
  - intros H. vm_compute in H.
    repeat (destruct H as [H|H]; [discriminate|]). destruct H.
  - apply (nth_error_In _ 39). vm_compute. reflexivity.
Defined.

(** ** More on the connection list *)

(** The active connection is always one of the known connections, and
    there is none only when the list is empty. *)
Theorem activeCluster_known (st : Provider) :
  (forall c, activeCluster st = Some c -> In c (clusters st)) /\
  (activeCluster st = None <-> clusters st = []) /\
  (forall c, In c (clusters st) ->
             ClusterConnection.label c = activeClusterLabel st ->
             exists a, activeCluster st = Some a /\
                       ClusterConnection.label a = activeClusterLabel st).
Proof.
  unfold activeCluster. split; [|split].
  - intros c H. destruct (find _ (clusters st)) eqn:F.
    + injection H as <-. now apply find_some in F.
    + destruct (clusters st); [discriminate|]. injection H as <-. now left.
  - destruct (find _ (clusters st)) eqn:F.
    + split; [discriminate|]. intros E. rewrite E in F. discriminate.
    + destruct (clusters st); simpl; split; congruence.
  - intros c Hc Hl. destruct (find _ (clusters st)) eqn:F.
    + exists t. split; auto. apply find_some in F. destruct F as [_ F].
      now apply String.eqb_eq in F.
    + pose proof (find_none _ _ F c Hc) as N. simpl in N.
      apply String.eqb_neq in N. contradiction.
Qed.

Lemma find_first_label {A : Type} (f : A -> bool) (l : list A) (x : A) :
  f x = true -> (forall y, In y l -> f y = true -> y = x) -> In x l ->
  find f l = Some x.
Proof.
  intros Hx Hu Hin. destruct (find f l) eqn:F.
  - apply find_some in F. destruct F as [F1 F2]. f_equal. now apply Hu.
  - pose proof (find_none _ _ F x Hin). congruence.
Qed.

(** After [addCluster] the connection built from the form is in the
    list and is the active one; a connection with the same label is
    replaced (the list keeps its length), otherwise the list grows by
    one; and connections with another label are neither added nor
    lost. *)
Theorem addCluster_activates (st : Provider) (input : CreateClusterInput.t) :
  let added := newClusterOf input in
  let st' := addCluster st input in
  activeCluster st' = Some added /\
  In added (clusters st') /\
  length (clusters st') =
    (if existsb (fun c => String.eqb (ClusterConnection.label c)
                            (ClusterConnection.label added)) (clusters st)
     then length (clusters st) else S (length (clusters st))) /\
  (forall c, ClusterConnection.label c <> ClusterConnection.label added ->
             (In c (clusters st') <-> In c (clusters st))).
Proof.
  intros added st'.
  set (same := fun c => String.eqb (ClusterConnection.label c)
                          (ClusterConnection.label added)).
  assert (Ecl : clusters st' =
                if existsb same (clusters st)
                then map (fun c => if same c then added else c) (clusters st)
                else clusters st ++ [added]) by reflexivity.
  assert (Eal : activeClusterLabel st' = ClusterConnection.label added)
    by reflexivity.
  assert (Hin : In added (clusters st')).
  { rewrite Ecl. destruct (existsb same (clusters st)) eqn:E.
    - apply existsb_exists in E. destruct E as (c & Hc & Hs).
      apply in_map_iff. exists c. now rewrite Hs.
    - apply in_or_app. right. now left. }
  assert (Hother : forall c,
             ClusterConnection.label c <> ClusterConnection.label added ->
             (In c (clusters st') <-> In c (clusters st))).
  { intros c Hc. rewrite Ecl.
    destruct (existsb same (clusters st)).
    - rewrite in_map_iff. split.
      + intros (d & Ed & Hd). unfold same in Ed.
        destruct (String.eqb (ClusterConnection.label d)
                             (ClusterConnection.label added)); congruence.
      + intros H. exists c. split; auto. unfold same.
        apply String.eqb_neq in Hc. now rewrite Hc.
    - rewrite in_app_iff. simpl. intuition congruence. }
  split; [|split; [exact Hin|split; [|exact Hother]]].
  - unfold activeCluster. rewrite Eal.
    erewrite find_first_label; eauto.
    + apply String.eqb_refl.
    + intros y Hy Ey. apply String.eqb_eq in Ey.
      rewrite Ecl in Hy. destruct (existsb same (clusters st)) eqn:E.
      * apply in_map_iff in Hy. destruct Hy as (d & Ed & Hd).
        unfold same in Ed.
        destruct (String.eqb_spec (ClusterConnection.label d)
                                  (ClusterConnection.label added)); congruence.
      * apply in_app_or in Hy. destruct Hy as [Hy|[<-|[]]]; auto.
        exfalso.
        assert (T : existsb same (clusters st) = true).
        { apply existsb_exists. exists y. split; auto. unfold same.
          now apply String.eqb_eq. }
        congruence.
  - rewrite Ecl. fold same. destruct (existsb same (clusters st)).
    + apply length_map.
    + rewrite length_app. simpl. lia.
Qed.

(** When [deleteCluster] does not refuse, no connection with the given
    label is left and the other connections stay, in their order.  A
    label that no connection carries changes neither the list nor the
    active connection, and is still reported with the toast "Cluster
    deleted". *)
Theorem deleteCluster_removes (st : Provider) (clusterLabel : string) :
  length (clusters st) <> 1%nat ->
  let st' := deleteCluster st clusterLabel in
  clusters st' =
    filter (fun c => negb (String.eqb (ClusterConnection.label c) clusterLabel))
           (clusters st) /\
  ~ In clusterLabel (labels st') /\
  (~ In clusterLabel (labels st) ->
   clusters st' = clusters st /\
   activeCluster st' = activeCluster st /\
   toasts st' = toasts st ++ [ToastSuccess "Cluster deleted" None]).
Proof.
  intros Hlen st'.
  assert (L : (length (clusters st) =? 1)%nat = false) by now apply Nat.eqb_neq.
  assert (Ecl : clusters st' =
                filter (fun c => negb (String.eqb (ClusterConnection.label c)
                                                  clusterLabel)) (clusters st)).
  { unfold st', deleteCluster. rewrite L.
    destruct (String.eqb (activeClusterLabel st) clusterLabel); reflexivity. }
  split; [exact Ecl|]. split.
  - unfold labels. rewrite Ecl. intros H. apply in_map_iff in H.
    destruct H as (c & E & Hc). apply filter_In in Hc. destruct Hc as [_ Hc].
    apply negb_true_iff, String.eqb_neq in Hc. contradiction.
  - intros Hno.
    assert (Hall : forall c, In c (clusters st) ->
              String.eqb (ClusterConnection.label c) clusterLabel = false).
    { intros c Hc. apply String.eqb_neq. intros E. apply Hno.
      unfold labels. rewrite <- E. now apply in_map. }
    assert (Efil : filter (fun c => negb (String.eqb (ClusterConnection.label c)
                                            clusterLabel)) (clusters st) =
                   clusters st).
    { clear - Hall. induction (clusters st) as [|c r IH]; simpl; auto.
      rewrite (Hall c (or_introl eq_refl)). simpl. f_equal.
      apply IH. intros d Hd. apply Hall. now right. }
    assert (Efind : find (fun c => String.eqb (ClusterConnection.label c)
                                     clusterLabel) (clusters st) = None).
    { destruct (find _ (clusters st)) eqn:F; auto.
      apply find_some in F. destruct F as [F1 F2].
      rewrite (Hall _ F1) in F2. discriminate. }
    split; [now rewrite Ecl|].
    unfold st', deleteCluster. rewrite L, Efind, Efil.
    destruct (String.eqb_spec (activeClusterLabel st) clusterLabel) as [Ea|Na].
    + split; [|reflexivity].
      unfold activeCluster.
      cbn [clusters activeClusterLabel toast setActiveClusterLabel setClusters].
      rewrite Ea. rewrite Efind.
      destruct (clusters st) as [|c r] eqn:Ec; [reflexivity|].
      cbn [find hd_error]. now rewrite String.eqb_refl.
    + split; reflexivity.
Qed.

(** When the labels are distinct and the new label is the old one or is
    not in use, editing the active connection keeps it active: the
    active connection afterwards is the edited one, with the fields of
    the form.  Editing a label that no connection carries leaves the
    list as it is. *)
Theorem updateCluster_keeps_active
  (st : Provider) (clusterLabel : string) (input : CreateClusterInput.t) :
  let edited := updatedClusterOf input in
  (NoDup (labels st) ->
   ClusterConnection.label edited = clusterLabel \/
     ~ In (ClusterConnection.label edited) (labels st) ->
   In clusterLabel (labels st) ->
   activeClusterLabel st = clusterLabel ->
   activeCluster (updateCluster st clusterLabel input) = Some edited) /\
  (~ In clusterLabel (labels st) ->
   clusters (updateCluster st clusterLabel input) = clusters st).
Proof.
  intros edited.
  set (f := fun cluster =>
              if String.eqb (ClusterConnection.label cluster) clusterLabel
              then edited else cluster).
  assert (Ecl : clusters (updateCluster st clusterLabel input) =
                map f (clusters st)).
  { unfold updateCluster.
    destruct (String.eqb (activeClusterLabel st) clusterLabel); reflexivity. }
  split.
  - intros Hn Hfresh Hin Hact.
    unfold activeCluster. rewrite Ecl.
    assert (Eal : activeClusterLabel (updateCluster st clusterLabel input) =
                  ClusterConnection.label edited).
    { unfold updateCluster. rewrite Hact, String.eqb_refl. reflexivity. }
    rewrite Eal.
    erewrite find_first_label; eauto.
    + apply String.eqb_refl.
    + intros y Hy Ey. apply String.eqb_eq in Ey.
      apply in_map_iff in Hy. destruct Hy as (c & Ec & Hc). unfold f in Ec.
      destruct (String.eqb_spec (ClusterConnection.label c) clusterLabel)
        as [El|Nl]; [congruence|]. subst y.
      exfalso. destruct Hfresh as [Hsame|Hfresh].
      * congruence.
      * apply Hfresh. rewrite <- Ey. unfold labels. now apply in_map.
    + unfold labels in Hin. apply in_map_iff in Hin.
      destruct Hin as (c & Ec & Hc). apply in_map_iff. exists c.
      split; auto. unfold f. rewrite Ec, String.eqb_refl. reflexivity.
  - intros Hno. rewrite Ecl.
    rewrite <- (map_id (clusters st)) at 2. apply map_ext_in.
    intros c Hc. unfold f.
    destruct (String.eqb_spec (ClusterConnection.label c) clusterLabel) as [E|N];
      auto.
    exfalso. apply Hno. unfold labels. rewrite <- E. now apply in_map.
Qed.

Lemma activeCluster_known_witness :
  In clusterA (clusters twoClusters) /\
  exists a, activeCluster twoClusters = Some a /\
            ClusterConnection.label a = activeClusterLabel twoClusters.
Proof.
  split.
  - apply (proj1 (activeCluster_known twoClusters) clusterA). reflexivity.
  - apply (proj2 (proj2 (activeCluster_known twoClusters)) clusterA).
    + simpl. auto.
    + reflexivity.
Defined.

Lemma addCluster_activates_witness :
  activeCluster (addCluster twoClusters devForm) =
    Some (ClusterConnection.mk "dev" "http://dev:9200" "elastic" "") /\
  (In clusterB (clusters (addCluster twoClusters devForm)) <->
   In clusterB (clusters twoClusters)).
Proof.
  split.
  - exact (proj1 (addCluster_activates twoClusters devForm)).
  - apply (proj2 (proj2 (proj2 (addCluster_activates twoClusters devForm)))).
    discriminate.
Defined.

Lemma deleteCluster_removes_witness :
  ~ In "staging" (labels (deleteCluster twoClusters "staging")) /\
  toasts (deleteCluster twoClusters "qa") =
    toasts twoClusters ++ [ToastSuccess "Cluster deleted" None].
Proof.
  split.
  - apply (proj1 (proj2 (deleteCluster_removes twoClusters "staging"
                           ltac:(discriminate)))).
  - apply (proj2 (proj2 (deleteCluster_removes twoClusters "qa"
                           ltac:(discriminate)))).
    simpl. intuition discriminate.
Defined.

Lemma updateCluster_keeps_active_witness :
  activeCluster (updateCluster twoClusters "prod" prodEdit) =
    Some (ClusterConnection.mk "prod" "https://prod:9243" "" "") /\
  clusters (updateCluster twoClusters "qa" prodEdit) = clusters twoClusters.
Proof.
  split.
  - apply (proj1 (updateCluster_keeps_active twoClusters "prod" prodEdit)).
    + repeat constructor; simpl; intuition discriminate.
    + left. reflexivity.
    + simpl. auto.
    + reflexivity.
  - apply (proj2 (updateCluster_keeps_active twoClusters "qa" prodEdit)).
    simpl. intuition discriminate.
Defined.

(** ** More on the fetch cycle *)

(** A cycle that fails publishes nothing: neither the start of
    [fetchAll] nor its [catch] block touches the snapshot, the health
    history, the time of the last update or the connections; the
    [catch] block always leaves an error message and clears [loading]
    and [refreshing]. *)
Theorem failed_cycle_publishes_nothing
  (st : Provider) (cl : FetchClosure) (err : Thrown) (healthResult : HealthResult) :
  let started := fst (fetchAll_start st cl) in
  let failed := fetchAll_rejected started cl err healthResult in
  snapshot failed = snapshot st /\
  healthHistory failed = healthHistory st /\
  lastUpdated failed = lastUpdated st /\
  clusters failed = clusters st /\
  activeClusterLabel failed = activeClusterLabel st /\
  error failed <> None /\
  loading failed = false /\ refreshing failed = false.
Proof.
  unfold fetchAll_start, fetchAll_rejected, refreshFailedToast.
  destruct (cl_activeCluster cl) as [cluster|];
    destruct (cl_connectionFailed cl);
    destruct (isTimeout err);
    destruct (success healthResult);
    destruct (includes "network error" (toLowerCase (failureMessage err)));
    destruct (negb (includes "mock" (toLowerCase (failureMessage err))));
    cbn; repeat split; discriminate.
Qed.

Section CycleFacts.

Variable getTime : string -> jsnum.

Lemma handle_keeps_bounds (sys : System) (ev : Event) :
  historyWithinBounds (provider sys) ->
  historyWithinBounds (provider (handle getTime sys ev)).
Proof.
  intros H. destruct ev as [|l|i data at_|i err hr]; simpl.
  - destruct (fetchAll_start (provider sys) (currentClosure (provider sys)))
      as [st' sent] eqn:E.
    simpl. unfold fetchAll_start in E.
    destruct (cl_activeCluster _); [destruct (cl_connectionFailed _)|];
      injection E as <- _; exact H.
  - exact H.
  - destruct (nth_error (outstanding sys) i); [|exact H].
    simpl. split.
    + apply merge_timestamps_NoDup.
    + apply sliceLast_length.
  - destruct (nth_error (outstanding sys) i) as [cl|]; [|exact H].
    simpl. unfold fetchAll_rejected, refreshFailedToast.
    destruct (isTimeout err); destruct (cl_activeCluster cl);
      try destruct (negb (success hr));
      try destruct (includes "network error" (toLowerCase (failureMessage err)));
      destruct (negb (includes "mock" (toLowerCase (failureMessage err))));
      exact H.
Qed.

Lemma handle_keeps_clusters (sys : System) (ev : Event) :
  clusters (provider (handle getTime sys ev)) = clusters (provider sys).
Proof.
  destruct ev as [|l|i data at_|i err hr]; simpl.
  - destruct (fetchAll_start (provider sys) (currentClosure (provider sys)))
      as [st' sent] eqn:E.
    simpl. unfold fetchAll_start in E.
    destruct (cl_activeCluster _); [destruct (cl_connectionFailed _)|];
      injection E as <- _; reflexivity.
  - reflexivity.
  - destruct (nth_error (outstanding sys) i); reflexivity.
  - destruct (nth_error (outstanding sys) i) as [cl|]; [|reflexivity].
    simpl. unfold fetchAll_rejected, refreshFailedToast.
    destruct (isTimeout err); destruct (cl_activeCluster cl);
      try destruct (negb (success hr));
      try destruct (includes "network error" (toLowerCase (failureMessage err)));
      destruct (negb (includes "mock" (toLowerCase (failureMessage err))));
      reflexivity.
Qed.

(** Through any sequence of calls, selections, answers and failures the
    health history keeps distinct timestamps and at most 40 rows, and
    the list of connections is never changed. *)
Theorem run_keeps_history_bounds (sys : System) (evs : list Event) :
  historyWithinBounds (provider sys) ->
  historyWithinBounds (provider (run getTime sys evs)) /\
  clusters (provider (run getTime sys evs)) = clusters (provider sys).
Proof.
  unfold run. revert sys.
  induction evs as [|ev evs IH]; intros sys H; simpl; [auto|].
  destruct (IH (handle getTime sys ev) (handle_keeps_bounds sys ev H)) as [B C].
  split; auto. rewrite C. apply handle_keeps_clusters.
Qed.

(** [fetchAll] does not look at cycles already under way: with an
    active connection and [connectionFailed] clear, [n] calls in a row
    send [n] sets of requests, all for that connection. *)
Theorem fetchAll_calls_overlap (sys : System) (n : nat) :
  activeCluster (provider sys) <> None ->
  connectionFailed (provider sys) = false ->
  outstanding (run getTime sys (repeat CallFetchAll n)) =
  outstanding sys ++
  repeat (mkFetchClosure (activeCluster (provider sys)) false) n.
Proof.
  unfold run. revert sys.
  induction n as [|n IH]; intros sys Ha Hc; cbn [repeat fold_left].
  - now rewrite app_nil_r.
  - assert (E : handle getTime sys CallFetchAll =
                mkSystem
                  (setConnectionFailed
                     (setError (setRefreshing (provider sys) true) None) false)
                  (outstanding sys ++
                   [mkFetchClosure (activeCluster (provider sys)) false])).
    { unfold handle, fetchAll_start, currentClosure.
      cbn [cl_activeCluster cl_connectionFailed]. rewrite Hc.
      destruct (activeCluster (provider sys)); [reflexivity|congruence]. }
    rewrite E, IH; cbn [provider outstanding]; auto.
    rewrite <- app_assoc. reflexivity.
Qed.

End CycleFacts.

Lemma run_keeps_history_bounds_witness :
  historyWithinBounds
    (provider
       (run Date_getTime (mkSystem twoClusters [])
          [CallFetchAll; CycleResolved 0 fetchedFromA "2024-05-01T10:00:00.000Z";
           CallFetchAll; CycleRejected 0 http500 probeOk])).
Proof.
  apply (run_keeps_history_bounds Date_getTime (mkSystem twoClusters [])).
  split; simpl; [constructor | lia].
Defined.

Lemma fetchAll_calls_overlap_witness :
  outstanding (run Date_getTime (mkSystem twoClusters [])
                   [CallFetchAll; CallFetchAll]) =
  [mkFetchClosure (Some clusterA) false; mkFetchClosure (Some clusterA) false].
Proof.
  apply (fetchAll_calls_overlap Date_getTime (mkSystem twoClusters []) 2).
  - discriminate.
  - reflexivity.
Defined.

(** ** Requests *)

(** [request] makes at most two attempts: it answers the body of the
    first attempt that succeeds, and when both fail it throws the error
    of the second attempt, reworded; what a third call of [fetch] would
    give is never looked at. *)
Theorem request_retries_once {T : Type} (outcome : nat -> FetchOutcome T) :
  request outcome 1 =
    match requestAttempt (outcome 1%nat) with
    | inl v => inl v
    | inr _ =>
        match requestAttempt (outcome 2%nat) with
        | inl v => inl v
        | inr error => inr (surfacedError error)
        end
    end /\
  forall outcome' : nat -> FetchOutcome T,
    outcome' 1%nat = outcome 1%nat -> outcome' 2%nat = outcome 2%nat ->
    request outcome' 1 = request outcome 1.
Proof.
  assert (E : forall o : nat -> FetchOutcome T,
             request o 1 =
             match requestAttempt (o 1%nat) with
             | inl v => inl v
             | inr _ =>
                 match requestAttempt (o 2%nat) with
                 | inl v => inl v
                 | inr error => inr (surfacedError error)
                 end
             end).
  { intros o. unfold request. simpl. destruct (requestAttempt (o 1%nat)); auto. }
  split; [apply E|].
  intros outcome' H1 H2. now rewrite !E, H1, H2.
Qed.

Lemma surfacedError_no_fetch (e : Thrown) :
  includes "fetch" (toLowerCase (thrownMessage (surfacedError e))) = false.
Proof.
  destruct e as [name message|]; [|reflexivity]. simpl.
  destruct (String.eqb name "AbortError"); [reflexivity|].
  destruct (includes "fetch" (toLowerCase message)) eqn:E; [reflexivity|].
  destruct (includes "network" (toLowerCase message)); [reflexivity|].
  exact E.
Qed.

(** How the errors thrown by [request] are read by [fetchAll]: their
    message is shown as it is; an attempt aborted by the timeout comes
    out as "Request timeout" and is classified as a time-out; an error
    whose message mentions "fetch" or "network" comes out as "Network
    error", which sets [connectionFailed] and shows the message naming
    the URL of the connection the cycle was started for. *)
Theorem request_errors_in_fetchAll :
  (forall e, failureMessage (surfacedError e) = thrownMessage (surfacedError e)) /\
  (forall message,
      surfacedError (ThrownError "AbortError" message) =
        ThrownError "Error" "Request timeout" /\
      isTimeout (surfacedError (ThrownError "AbortError" message)) = true) /\
  (forall name message st cluster failedBefore healthResult,
      name <> "AbortError" ->
      includes "fetch" (toLowerCase message) ||
        includes "network" (toLowerCase message) = true ->
      let st' :=
        fetchAll_rejected st (mkFetchClosure (Some cluster) failedBefore)
          (surfacedError (ThrownError name message)) healthResult in
      connectionFailed st' = true /\
      error st' = Some (cannotAccess cluster)).
Proof.
  split; [|split].
  - intros e. pose proof (surfacedError_no_fetch e) as H.
    unfold failureMessage.
    destruct (surfacedError e) as [name m|]; simpl in *; [|reflexivity].
    now rewrite H.
  - intros message. split; reflexivity.
  - intros name message st cluster failedBefore healthResult Hn Hm st'.
    assert (E : surfacedError (ThrownError name message) =
                ThrownError "Error" "Network error").
    { simpl. apply String.eqb_neq in Hn. now rewrite Hn, Hm. }
    unfold st'. rewrite E. split; reflexivity.
Qed.

Lemma request_errors_in_fetchAll_witness :
  error (fetchAll_rejected twoClusters (mkFetchClosure (Some clusterA) false)
           (surfacedError (ThrownError "TypeError" "Failed to fetch")) probeOk) =
  Some "Network error, cannot access your cluster. Cluster uri: http://prod:9200".
Proof.
  apply (proj2 (proj2 request_errors_in_fetchAll)
           "TypeError" "Failed to fetch" twoClusters clusterA false probeOk).
  - discriminate.
  - reflexivity.
Defined.

Lemma request_retries_once_witness :
  request (fun k => if (k =? 1)%nat
                    then FetchRejected (ThrownError "TypeError" "Failed to fetch")
                    else FetchResponded true 200 "OK" (inl 7)) 1 = inl 7.
Proof.
  rewrite (proj2 (request_retries_once
                    (fun k => if (k =? 2)%nat
                              then FetchResponded true 200 "OK" (inl 7)
                              else FetchRejected
                                     (ThrownError "TypeError" "Failed to fetch")))
             (fun k => if (k =? 1)%nat
                       then FetchRejected (ThrownError "TypeError" "Failed to fetch")
                       else FetchResponded true 200 "OK" (inl 7))
             eq_refl eq_refl).
  reflexivity.
Defined.

(** The probe answers success exactly for a response with an ok status,
    and a failure always carries a message.  When a cycle timed out and
    the probe fails, [fetchAll] sets [connectionFailed], shows the
    message of the probe, and raises no toast; when the probe succeeds
    the time-out is shown and [connectionFailed] stays clear. *)
Theorem probe_after_timeout {T : Type}
  (st : Provider) (cluster : ClusterConnection.t) (failedBefore : bool)
  (err : Thrown) (o : FetchOutcome T) :
  let probe := checkClusterHealth cluster o in
  let st' :=
    fetchAll_rejected st (mkFetchClosure (Some cluster) failedBefore) err probe in
  (success probe = true <->
   exists status statusText body, o = FetchResponded true status statusText body) /\
  (success probe = false ->
   exists m, healthError probe = Some m /\ m <> EmptyString) /\
  (isTimeout err = true ->
   (success probe = false ->
    connectionFailed st' = true /\ error st' = healthError probe /\
    toasts st' = toasts st) /\
   (success probe = true ->
    connectionFailed st' = false /\ error st' = Some (failureMessage err))).
Proof.
  intros probe st'. split; [|split].
  - unfold probe. destruct o as [e|ok status statusText body]; simpl.
    + split; [discriminate|]. intros (s & t & b & E). discriminate.
    + destruct ok; simpl; split; try discriminate; eauto.
      intros (s & t & b & E). discriminate.
  - unfold probe. destruct o as [e|ok status statusText body]; simpl.
    + intros _. eexists. split; [reflexivity|]. discriminate.
    + destruct ok; simpl; [discriminate|].
      intros _. eexists. split; [reflexivity|]. discriminate.
  - intros Ht. unfold st', fetchAll_rejected, refreshFailedToast. rewrite Ht.
    cbn [cl_activeCluster]. split.
    + intros Hs. rewrite Hs. cbn [negb].
      unfold probe in *. destruct o as [e|ok status statusText body]; simpl in *.
      * repeat split; reflexivity.
      * destruct ok; simpl in *; [discriminate|]. repeat split; reflexivity.
    + intros Hs. rewrite Hs. cbn [negb].
      destruct (negb (includes "mock" (toLowerCase (failureMessage err))));
        split; reflexivity.
Qed.

Lemma probe_after_timeout_witness :
  connectionFailed
    (fetchAll_rejected twoClusters (mkFetchClosure (Some clusterA) false)
       (ThrownError "Error" "Request timeout")
       (checkClusterHealth clusterA
          (FetchRejected (T := unit) (ThrownError "TypeError" "Failed to fetch")))) =
    true /\
  error
    (fetchAll_rejected twoClusters (mkFetchClosure (Some clusterA) false)
       (ThrownError "Error" "Request timeout")
       (checkClusterHealth clusterA
          (FetchRejected (T := unit) (ThrownError "TypeError" "Failed to fetch")))) =
    Some "Network error, cannot access your cluster. Cluster uri: http://prod:9200".
Proof.
  destruct (proj1 (proj2 (proj2
              (probe_after_timeout twoClusters clusterA false
                 (ThrownError "Error" "Request timeout")
                 (FetchRejected (T := unit)
                    (ThrownError "TypeError" "Failed to fetch")))) eq_refl)
              eq_refl) as (H1 & H2 & _).
  split; [exact H1 | exact H2].
Defined.

(** ** The polling interval *)

Ltac qbool :=
  repeat match goal with
         | H : Qle_bool ?a ?b = true |- _ => apply Qle_bool_iff in H
         | H : Qle_bool ?a ?b = false |- _ =>
             assert (~ (a <= b)%Q) by (rewrite <- Qle_bool_iff; congruence);
             clear H
         | |- Qle_bool _ _ = true => apply Qle_bool_iff
         | |- Qle_bool ?a ?b = false =>
             let E := fresh "E" in
             destruct (Qle_bool a b) eqn:E; [exfalso|reflexivity]
         end;
  unfold inject_Z in *; try lra.

(** The value stored by [setPollInterval] lies between 3000 and 60000
    for every number, infinite ones included; a value in that range is
    stored as it is; storing is idempotent; and NaN is stored as NaN. *)
Theorem safePollInterval_bounds :
  (forall ms, ms <> NaN ->
     js_leb (js_of_Z 3000) (safePollInterval ms) = true /\
     js_leb (safePollInterval ms) (js_of_Z 60000) = true) /\
  (forall ms, js_leb (js_of_Z 3000) ms = true ->
              js_leb ms (js_of_Z 60000) = true ->
              safePollInterval ms = ms) /\
  (forall ms, safePollInterval (safePollInterval ms) = safePollInterval ms) /\
  safePollInterval NaN = NaN.
Proof.
  assert (Hb : forall ms, ms <> NaN ->
             js_leb (js_of_Z 3000) (safePollInterval ms) = true /\
             js_leb (safePollInterval ms) (js_of_Z 60000) = true).
  { intros [| |q|] H; try congruence; try (split; reflexivity).
    unfold safePollInterval, js_max, js_min, js_of_Z. cbn [js_ltb].
    destruct (Qle_bool (inject_Z 3000) q) eqn:E1; cbn [negb js_ltb].
    - destruct (Qle_bool q (inject_Z 60000)) eqn:E2; cbn [negb js_leb];
        split; qbool.
    - split; reflexivity. }
  assert (Hid : forall ms, js_leb (js_of_Z 3000) ms = true ->
              js_leb ms (js_of_Z 60000) = true -> safePollInterval ms = ms).
  { intros [| |q|] H1 H2; try discriminate.
    unfold safePollInterval, js_max, js_min, js_of_Z in *. cbn [js_ltb js_leb] in *.
    rewrite H1. cbn [negb js_ltb]. rewrite H2. reflexivity. }
  split; [exact Hb|]. split; [exact Hid|]. split; [|reflexivity].
  intros ms. destruct ms as [| |q|]; try reflexivity.
  destruct (Hb (Fin q)) as [B1 B2]; [discriminate|].
  now apply Hid.
Qed.

Lemma safePollInterval_bounds_witness :
  safePollInterval (js_of_Z 5000) = js_of_Z 5000 /\
  js_leb (safePollInterval (js_of_Z 100)) (js_of_Z 60000) = true.
Proof.
  split.
  - apply (proj1 (proj2 safePollInterval_bounds)); reflexivity.
  - apply (proj1 safePollInterval_bounds). discriminate.
Defined.

(** ** The table *)

Section ArraySortGroups.

Context {A : Type}.
Variable comparefn : A -> A -> jsnum.
Variable isLast : A -> bool.

Hypothesis last_never_before :
  forall x y, isLast x = true -> sortsBefore comparefn x y = false.
Hypothesis others_before_last :
  forall x y, isLast x = false -> isLast y = true ->
              sortsBefore comparefn x y = true.

Lemma insert_before_group (x : A) (l1 l2 : list A) :
  isLast x = false ->
  Forall (fun y => isLast y = true) l2 ->
  exists l1', insertSorted comparefn x (l1 ++ l2) = l1' ++ l2 /\
              Permutation l1' (x :: l1).
Proof.
  intros Hx H2. induction l1 as [|z r IH]; cbn [app insertSorted].
  - destruct l2 as [|y r2]; cbn [insertSorted].
    + exists [x]. split; reflexivity.
    + apply Forall_inv in H2.
      rewrite (others_before_last x y Hx H2).
      exists [x]. split; reflexivity.
  - destruct (sortsBefore comparefn x z).
    + exists (x :: z :: r). split; reflexivity.
    + destruct IH as (l1' & E & P). exists (z :: l1'). split.
      * cbn [app]. now rewrite E.
      * rewrite P. apply perm_swap.
Qed.

Lemma fold_insert_groups (l l1 : list A) (done : list A) :
  Forall (fun y => isLast y = false) l1 ->
  exists l1',
    fold_left (fun a x => insertSorted comparefn x a) l
              (l1 ++ filter isLast done) =
    l1' ++ filter isLast (done ++ l) /\
    Forall (fun y => isLast y = false) l1'.
Proof.
  revert l1 done. induction l as [|x r IH]; intros l1 done H1; cbn [fold_left].
  - exists l1. now rewrite app_nil_r.
  - destruct (isLast x) eqn:Ex.
    + rewrite insertSorted_last.
      * rewrite <- app_assoc.
        replace (filter isLast done ++ [x]) with (filter isLast (done ++ [x]))
          by (rewrite filter_app; simpl; now rewrite Ex).
        destruct (IH l1 (done ++ [x]) H1) as (l1' & E & F).
        exists l1'. rewrite <- app_assoc in E. auto.
      * apply Forall_forall. intros y _. now apply last_never_before.
    + destruct (insert_before_group x l1 (filter isLast done) Ex)
        as (l1' & E & P).
      { apply Forall_forall. intros y Hy. now apply filter_In in Hy. }
      rewrite E.
      replace (filter isLast done) with (filter isLast (done ++ [x]))
        by (rewrite filter_app; simpl; rewrite Ex; apply app_nil_r).
      destruct (IH l1' (done ++ [x])) as (l1'' & E' & F).
      { apply Forall_forall. intros y Hy.
        apply (Permutation_in _ P) in Hy. destruct Hy as [<-|Hy]; auto.
        rewrite Forall_forall in H1. auto. }
      exists l1''. rewrite <- app_assoc in E'. auto.
Qed.

(** Elements that never sort before another, and that every other
    element sorts before, end up last, in the order they came in. *)
Lemma Array_sort_groups (l : list A) :
  exists l1,
    Array_sort comparefn l = l1 ++ filter isLast l /\
    Forall (fun y => isLast y = false) l1.
Proof.
  unfold Array_sort.
  destruct (fold_insert_groups l [] []) as (l1 & E & F); [constructor|].
  exists l1. auto.
Qed.

End ArraySortGroups.

Section DataTableFacts.

Context {T : Type}.
Variable cell : T -> string -> CellValue.
Variable numberText : jsnum -> string.

(** A click on a column header that has an effect leaves a coherent
    sort state, whatever the state was; a click on a column that is
    unknown or not sortable has no effect; and from the unsorted state
    three clicks on one sortable column go through ascending and
    descending and back to unsorted. *)
Theorem handleSort_cycle (columns : list (@Column T)) (s : SortState)
  (columnKey : string) :
  (handleSort columns s columnKey <> s ->
   coherent (handleSort columns s columnKey)) /\
  (findColumn columns columnKey = None \/
   (exists column, findColumn columns columnKey = Some column /\
                   sortable column = Some false) ->
   handleSort columns s columnKey = s) /\
  (forall column,
      findColumn columns columnKey = Some column ->
      sortable column <> Some false ->
      let s0 := mkSortState None None in
      handleSort columns s0 columnKey =
        mkSortState (Some columnKey) (Some asc) /\
      handleSort columns (handleSort columns s0 columnKey) columnKey =
        mkSortState (Some columnKey) (Some desc) /\
      handleSort columns
        (handleSort columns (handleSort columns s0 columnKey) columnKey)
        columnKey = s0).
Proof.
  split; [|split].
  - unfold handleSort, coherent.
    destruct (findColumn columns columnKey) as [column|]; [|congruence].
    destruct (sortable column) as [[|]|]; try congruence;
      destruct (sortColumn s) as [c|];
      try destruct (String.eqb c columnKey);
      destruct (sortDirection s) as [[|]|]; intros _; simpl;
      split; congruence.
  - intros [H|(column & H & Hs)]; unfold handleSort; rewrite H; auto.
    now rewrite Hs.
  - intros column H Hs s0. unfold handleSort. rewrite H.
    destruct (sortable column) as [[|]|]; try congruence;
      cbn [sortColumn sortDirection s0]; rewrite String.eqb_refl;
      cbn [sortColumn sortDirection]; rewrite String.eqb_refl;
      repeat split; reflexivity.
Qed.

(** The rows shown are always a rearrangement of the data; they are
    the data itself while no sort is chosen or the chosen column does
    not exist; and under a column without [sortFn] the rows whose cell
    is null or undefined come last, in their original order, whether
    the direction is ascending or descending. *)
Theorem sortedData_rows (columns : list (@Column T)) (s : SortState)
  (data : list T) :
  Permutation (sortedData cell numberText columns s data) data /\
  (sortColumn s = None \/ sortDirection s = None \/
   (exists c, sortColumn s = Some c /\ findColumn columns c = None) ->
   sortedData cell numberText columns s data = data) /\
  (forall c direction column,
      sortColumn s = Some c -> c <> EmptyString ->
      sortDirection s = Some direction ->
      findColumn columns c = Some column ->
      sortFn column = None ->
      exists others,
        sortedData cell numberText columns s data =
          others ++ filter (nullCell cell c) data /\
        Forall (fun row => nullCell cell c row = false) others).
Proof.
  split; [|split].
  - unfold sortedData.
    destruct (sortColumn s) as [c|], (sortDirection s) as [d|]; auto.
    destruct (str_truthy c); auto.
    destruct (findColumn columns c); auto. apply Array_sort_perm.
  - unfold sortedData. intros [H|[H|(c & H1 & H2)]].
    + now rewrite H.
    + rewrite H. now destruct (sortColumn s).
    + rewrite H1, H2. destruct (sortDirection s); auto.
      now destruct (str_truthy c).
  - intros c direction column Hc Hne Hd Hf Hs.
    unfold sortedData. rewrite Hc, Hd, Hf.
    assert (Tc : str_truthy c = true) by (destruct c; [congruence|reflexivity]).
    rewrite Tc.
    assert (Ek : col_key column = c).
    { unfold findColumn in Hf. apply find_some in Hf. destruct Hf as [_ Hf].
      now apply String.eqb_eq in Hf. }
    apply Array_sort_groups.
    + intros x y Hx. unfold sortsBefore, columnCompare. rewrite Hs, Ek.
      unfold defaultCompare, nullCell in *.
      destruct (cell x c); try discriminate.
      destruct (cell y c); reflexivity.
    + intros x y Hx Hy. unfold sortsBefore, columnCompare. rewrite Hs, Ek.
      unfold defaultCompare, nullCell in *.
      destruct (cell y c); try discriminate.
      destruct (cell x c); try discriminate; reflexivity.
Qed.

End DataTableFacts.

Lemma handleSort_cycle_witness :
  handleSort allocationColumns (mkSortState (Some "node") (Some asc)) "actions" =
    mkSortState (Some "node") (Some asc) /\
  handleSort allocationColumns
    (handleSort allocationColumns
       (handleSort allocationColumns (mkSortState None None) "ip") "ip") "ip" =
    mkSortState None None /\
  coherent (handleSort allocationColumns (mkSortState (Some "ip") None) "node").
Proof.
  split; [|split].
  - apply (proj1 (proj2 (handleSort_cycle allocationColumns
                           (mkSortState (Some "node") (Some asc)) "actions"))).
    right. exists (mkColumn "actions" (Some false) None). split; reflexivity.
  - apply (proj2 (proj2 (handleSort_cycle allocationColumns
                           (mkSortState None None) "ip"))
             (mkColumn "ip" None None)); [reflexivity | discriminate].
  - apply (proj1 (handleSort_cycle allocationColumns
                    (mkSortState (Some "ip") None) "node")).
    discriminate.
Defined.

Lemma sortedData_rows_witness :
  exists others,
    sortedData allocationCell integerText allocationColumns
      (mkSortState (Some "ip") (Some desc)) allocationRows =
    others ++ [ CatAllocationRow.mk 12 "50gb" "hot-2" None;
                CatAllocationRow.mk 3 "N/A" "UNASSIGNED" None ] /\
    Forall (fun row => nullCell allocationCell "ip" row = false) others.
Proof.
  apply (proj2 (proj2 (sortedData_rows allocationCell integerText
                         allocationColumns
                         (mkSortState (Some "ip") (Some desc)) allocationRows))
           "ip" desc (mkColumn "ip" None None));
    [reflexivity | discriminate | reflexivity | reflexivity | reflexivity].
Defined.

Example sortedData_example :
  map CatAllocationRow.node
    (sortedData allocationCell integerText allocationColumns
       (mkSortState (Some "ip") (Some asc)) allocationRows) =
    ["warm-1"; "hot-1"; "hot-2"; "UNASSIGNED"] /\
  map CatAllocationRow.node
    (sortedData allocationCell integerText allocationColumns
       (mkSortState (Some "ip") (Some desc)) allocationRows) =
    ["hot-1"; "warm-1"; "hot-2"; "UNASSIGNED"].
Proof. split; vm_compute; reflexivity. Qed.

(** ** The recovery targets *)

Lemma Map_get_In (m : list (string * Z)) (k : string) (v : Z) :
  NoDup (map fst m) -> (Map_get m k = Some v <-> In (k, v) m).
Proof.
  induction m as [|[k0 v0] r IH]; simpl; intros Hnd.
  - split; [discriminate|tauto].
  - inversion Hnd as [|? ? Hnot Hr]; subst.
    destruct (String.eqb_spec k0 k) as [->|Hne].
    + split.
      * intros [= ->]. now left.
      * intros [[= ->]|Hin]; auto.
        exfalso. apply Hnot. apply (in_map fst) in Hin. exact Hin.
    + rewrite (IH Hr). split; auto.
      intros [[= -> ->]|Hin]; [congruence|auto].
Qed.

Lemma Map_get_set (m : list (string * Z)) (k : string) (v : Z) (k' : string) :
  Map_get (Map_set m k v) k' =
  if String.eqb k k' then Some v else Map_get m k'.
Proof.
  induction m as [|[k0 v0] r IH]; simpl.
  - reflexivity.
  - destruct (String.eqb_spec k0 k) as [->|Hne]; simpl.
    + destruct (String.eqb k k'); reflexivity.
    + rewrite IH. destruct (String.eqb_spec k0 k') as [->|Hne'].
      * destruct (String.eqb_spec k k'); [congruence|reflexivity].
      * reflexivity.
Qed.

Lemma countTarget_counting (m : list (string * Z)) (r : RecoveryRow.t) :
  counting m -> counting (countTarget m r).
Proof.
  intros [Hnd Hv]. unfold countTarget.
  destruct (str_truthy (recoveryTarget r)) eqn:Et; [|split; assumption].
  split; [now apply Map_set_NoDup|].
  intros k v Hin. apply Map_set_In in Hin; [|assumption].
  destruct Hin as [[-> ->]|[_ Hin]]; [|eauto].
  split; [assumption|].
  destruct (Map_get m (recoveryTarget r)) as [c|] eqn:Eg; [|lia].
  apply Map_get_In in Eg; [|assumption].
  destruct (Hv _ _ Eg) as [_ Hc].
  destruct (Z.eqb_spec c 0); lia.
Qed.

Lemma countTarget_stored (m : list (string * Z)) (r : RecoveryRow.t)
  (name : string) :
  counting m ->
  stored (countTarget m r) name =
  stored m name +
  (if str_truthy name then tally name [r] else 0).
Proof.
  intros [Hnd Hv]. unfold countTarget, stored, tally. cbn [filter].
  destruct (str_truthy (recoveryTarget r)) eqn:Et.
  - rewrite Map_get_set.
    destruct (String.eqb_spec (recoveryTarget r) name) as [<-|Hne].
    + rewrite Et. cbn [length].
      destruct (Map_get m (recoveryTarget r)) as [c|] eqn:Eg; [|reflexivity].
      apply Map_get_In in Eg; [|assumption].
      destruct (Hv _ _ Eg) as [_ Hc].
      destruct (Z.eqb_spec c 0); lia.
    + cbn [length]. destruct (str_truthy name); lia.
  - destruct (String.eqb_spec (recoveryTarget r) name) as [<-|Hne].
    + rewrite Et. lia.
    + cbn [length]. destruct (str_truthy name); lia.
Qed.

Lemma tally_cons (name : string) (r : RecoveryRow.t) (rows : list RecoveryRow.t) :
  tally name (r :: rows) = tally name [r] + tally name rows.
Proof.
  unfold tally. cbn [filter].
  destruct (String.eqb (recoveryTarget r) name); cbn [length]; lia.
Qed.

Lemma fold_countTarget (rows : list RecoveryRow.t) (m : list (string * Z)) :
  counting m ->
  counting (fold_left countTarget rows m) /\
  forall name,
    stored (fold_left countTarget rows m) name =
    stored m name + (if str_truthy name then tally name rows else 0).
Proof.
  revert m. induction rows as [|r rows IH]; intros m Hm; cbn [fold_left].
  - split; [assumption|]. intros name. unfold tally. cbn.
    destruct (str_truthy name); lia.
  - destruct (IH _ (countTarget_counting m r Hm)) as [Hc Hs].
    split; [assumption|]. intros name.
    rewrite Hs, (countTarget_stored m r name Hm), (tally_cons name r rows).
    destruct (str_truthy name); lia.
Qed.

Lemma counting_nil : counting [].
Proof. split; [constructor|]. intros k v []. Qed.

Lemma stored_In (m : list (string * Z)) (k : string) (v : Z) :
  counting m -> (In (k, v) m <-> stored m k = v /\ 1 <= v).
Proof.
  intros [Hnd Hv]. unfold stored. split.
  - intros Hin. destruct (Hv _ _ Hin) as [_ H1].
    apply Map_get_In in Hin; [|assumption]. now rewrite Hin.
  - intros [Hs H1]. destruct (Map_get m k) as [c|] eqn:Eg; [|lia].
    subst c. now apply Map_get_In.
Qed.

Lemma byCountDescending_before (a b : TargetCount) :
  sortsBefore byCountDescending a b = (tc_count b <? tc_count a).
Proof.
  unfold sortsBefore, byCountDescending.
  rewrite js_sub_neg. unfold js_of_Z, js_ltb.
  destruct (Z.ltb_spec (tc_count b) (tc_count a)) as [H|H].
  - apply Bool.negb_true_iff.
    destruct (Qle_bool (inject_Z (tc_count a)) (inject_Z (tc_count b))) eqn:E; auto.
    apply Qle_bool_iff in E. rewrite <- Zle_Qle in E. lia.
  - apply Bool.negb_false_iff. apply Qle_bool_iff. rewrite <- Zle_Qle. lia.
Qed.

(** Whatever the snapshot, [recoveryTargetStats.targets] names each
    target once; a name is listed exactly when it is non-empty and some
    recovery row goes to it ([target], or [targetNode] when [target] is
    empty); the count listed with a name is the number of such rows; and
    the entries are in non-increasing order of count, so that the first
    one (the one displayed) has the largest count. *)
Theorem recoveryTargetStats_counts (snapshot : option MonitoringSnapshot.t) :
  let targets := recoveryTargetStats snapshot in
  NoDup (map tc_target targets) /\
  (forall name count,
      In (mkTargetCount name count) targets <->
      name <> EmptyString /\ rowsToTarget snapshot name <> [] /\
      count = Z.of_nat (length (rowsToTarget snapshot name))) /\
  StronglySorted (fun a b => tc_count b <= tc_count a) targets.
Proof.
  set (entry := fun e : string * Z => mkTargetCount (fst e) (snd e)).
  assert (G : forall rows,
             let targets := Array_sort byCountDescending
                              (map entry (fold_left countTarget rows [])) in
             NoDup (map tc_target targets) /\
             (forall name count,
                 In (mkTargetCount name count) targets <->
                 name <> EmptyString /\
                 filter (fun r => String.eqb (recoveryTarget r) name) rows <> [] /\
                 count = tally name rows) /\
             StronglySorted (fun a b => tc_count b <= tc_count a) targets).
  { intros rows targets.
    destruct (fold_countTarget rows [] counting_nil) as [Hc Hs].
    pose proof (Array_sort_perm byCountDescending
                  (map entry (fold_left countTarget rows []))) as Hp.
    fold targets in Hp.
    split; [|split].
    - apply (Permutation_NoDup (l := map tc_target
                 (map entry (fold_left countTarget rows [])))).
      + apply Permutation_map. symmetry. exact Hp.
      + rewrite map_map. unfold entry. cbn [tc_target]. apply Hc.
    - intros name count.
      assert (Hin : In (mkTargetCount name count) targets <->
                    In (name, count) (fold_left countTarget rows [])).
      { split.
        - intros H. apply (Permutation_in _ Hp) in H.
          apply in_map_iff in H. destruct H as ([k v] & [= <- <-] & H). exact H.
        - intros H. apply (Permutation_in _ (Permutation_sym Hp)).
          apply in_map_iff. exists (name, count). split; [reflexivity|exact H]. }
      rewrite Hin, (stored_In _ name count Hc), Hs.
      unfold stored at 1. cbn [Map_get].
      assert (Hlen : filter (fun r => String.eqb (recoveryTarget r) name) rows <> []
                     <-> 1 <= tally name rows).
      { unfold tally.
        destruct (filter (fun r => String.eqb (recoveryTarget r) name) rows);
          cbn [length]; split; try congruence; lia. }
      rewrite Hlen.
      destruct name as [|c name']; cbn [str_truthy].
      + split; [lia|]. intros [H _]. congruence.
      + split.
        * intros [<- H]. repeat split; try lia. discriminate.
        * intros (_ & H & ->). lia.
    - apply (StronglySorted_weaken (inOrder byCountDescending) _ (fun _ => True)).
      + intros a b _ _ H. unfold inOrder in H.
        rewrite byCountDescending_before in H. lia.
      + apply Forall_forall. auto.
      + apply Array_sort_sorted.
        * intros x y z. rewrite !byCountDescending_before. lia.
        * intros x y. rewrite !byCountDescending_before. lia. }
  destruct snapshot as [s|]; cbn [recoveryTargetStats rowsToTarget].
  - destruct (MonitoringSnapshot.recovery s) as [|r rows] eqn:Er.
    + cbn. split; [constructor|]. split; [|constructor].
      intros name count. split; [intros []|]. intros (_ & H & _). congruence.
    + specialize (G (r :: rows)). cbv zeta in G. unfold tally in G. exact G.
  - cbn. split; [constructor|]. split; [|constructor].
    intros name count. split; [intros []|]. intros (_ & H & _). congruence.
Qed.

Example recoveryTargetStats_example :
  recoveryTargetStats
    (Some (MonitoringSnapshot.mk [] recoveryRows
             (MonitoringSnapshot.health sampleSnapshot) []
             (MonitoringSnapshot.settings sampleSnapshot) [] "")) =
  [ mkTargetCount "warm-1" 3; mkTargetCount "hot-2" 1; mkTargetCount "hot-3" 1 ].
Proof. vm_compute. reflexivity. Qed.

(** ** utils/format.ts: disk sizes and percentages *)

Lemma toLowerCase_idem (s : string) : toLowerCase (toLowerCase s) = toLowerCase s.
Proof.
  induction s as [|c r IH]; cbn [toLowerCase]; [reflexivity|].
  rewrite IH. f_equal.
  destruct c as [[] [] [] [] [] [] [] []]; reflexivity.
Qed.

Lemma toLowerCase_not_NA (s : string) : String.eqb (toLowerCase s) "N/A" = false.
Proof.
  destruct s as [|c r]; [reflexivity|]. cbn [toLowerCase].
  apply String.eqb_neq. intros [= H _].
  destruct c as [[] [] [] [] [] [] [] []]; discriminate H.
Qed.

Lemma isDiskUnit_units (unit : string) :
  isDiskUnit unit = true <-> In unit ["b"; "kb"; "mb"; "gb"; "tb"].
Proof.
  cbn [In]. split.
  - destruct unit as [|u [|b [|x y]]]; cbn [isDiskUnit]; try discriminate.
    + rewrite Ascii.eqb_eq. intros ->. now left.
    + rewrite andb_true_iff, !orb_true_iff, !Ascii.eqb_eq.
      intros [[[[->| ->]| ->]| ->] ->]; tauto.
  - intros [<-|[<-|[<-|[<-|[<-|[]]]]]]; reflexivity.
Qed.

Lemma isDiskUnit_numeral (c : ascii) (r : string) :
  is_digit c || Ascii.eqb c "." = true -> isDiskUnit (String c r) = false.
Proof.
  intros H.
  destruct (isDiskUnit (String c r)) eqn:E; [|reflexivity].
  apply isDiskUnit_units in E. cbn [In] in E.
  destruct E as [E|[E|[E|[E|[E|[]]]]]]; injection E as <- _; discriminate H.
Qed.

(** The regular expression of the disk size, spelled out: a non-empty
    run of digits and dots followed by b, kb, mb, gb or tb. *)
Lemma matchDiskSize_spec (s num unit : string) :
  matchDiskSize s = Some (num, unit) <->
  num <> EmptyString /\ digitsAndDots num = true /\
  In unit ["b"; "kb"; "mb"; "gb"; "tb"] /\
  s = (num ++ unit)%string.
Proof.
  split.
  - revert num unit. induction s as [|c r IH]; intros num unit H;
      [discriminate H|].
    cbn [matchDiskSize] in H.
    destruct (is_digit c || Ascii.eqb c ".") eqn:Ec; [|discriminate H].
    destruct (isDiskUnit r) eqn:Eu.
    + injection H as <- <-.
      repeat split; [discriminate|cbn; now rewrite Ec|now apply isDiskUnit_units].
    + destruct (matchDiskSize r) as [[num' unit']|] eqn:Er; [|discriminate H].
      injection H as <- <-.
      destruct (IH num' unit' eq_refl) as (Hne & Hd & Hu & Hs).
      repeat split; [discriminate|cbn; now rewrite Ec, Hd|exact Hu|].
      cbn [String.append]. now rewrite Hs.
  - intros (Hne & Hd & Hu & ->). apply isDiskUnit_units in Hu.
    induction num as [|c r IH]; [congruence|].
    cbn [digitsAndDots] in Hd. apply andb_true_iff in Hd. destruct Hd as [Hc Hr].
    cbn [String.append matchDiskSize]. rewrite Hc.
    destruct r as [|c' r'].
    + cbn [String.append]. now rewrite Hu.
    + cbn [digitsAndDots] in Hr. apply andb_true_iff in Hr.
      destruct Hr as [Hc' Hr'].
      cbn [String.append]. rewrite (isDiskUnit_numeral c' _ Hc').
      cbn [String.append] in IH. rewrite IH; [reflexivity|discriminate|].
      cbn [digitsAndDots]. now rewrite Hc', Hr'.
Qed.

Lemma digitsAndDots_digits (d : string) :
  all_digits d = true -> digitsAndDots d = true.
Proof.
  induction d as [|c r IH]; [reflexivity|].
  cbn [all_digits digitsAndDots]. rewrite !andb_true_iff.
  intros [Hc Hr]. split; [now rewrite Hc|now apply IH].
Qed.

Lemma toLowerCase_digits_unit (d unit : string) :
  all_digits d = true -> toLowerCase unit = unit ->
  toLowerCase (d ++ unit) = (d ++ unit)%string.
Proof.
  intros Hd Hu. induction d as [|c r IH]; [exact Hu|].
  cbn [all_digits] in Hd. apply andb_true_iff in Hd. destruct Hd as [Hc Hr].
  cbn [String.append toLowerCase]. rewrite (IH Hr). f_equal.
  destruct c as [[] [] [] [] [] [] [] []]; try reflexivity; discriminate Hc.
Qed.

Lemma parseFloat_digits (d : string) :
  d <> EmptyString -> all_digits d = true ->
  parseFloat d = js_of_Z (digits_value 0 d).
Proof.
  intros Hne Hd. unfold parseFloat. rewrite (spanDigits_all d Hd).
  destruct d; [congruence|]. rewrite append_empty_r_local. reflexivity.
Qed.

(** [parseDiskSizeToBytes] never answers a negative number; it answers 0
    for a missing value, for N/A and for every string that, in lower
    case, is not a non-empty run of digits and dots followed by b, kb,
    mb, gb or tb; the case of the letters is ignored; and a whole number
    of at most fifteen digits followed by one of these units is read as
    that number times 1024 to the power 0, 1, 2, 3 or 4. *)
Theorem parseDiskSizeToBytes_values :
  (forall size, js_ltb (parseDiskSizeToBytes size) (Fin 0) = false) /\
  parseDiskSizeToBytes None = Fin 0 /\
  parseDiskSizeToBytes (Some "N/A") = Fin 0 /\
  (forall s,
      (forall num unit,
          num <> EmptyString -> digitsAndDots num = true ->
          In unit ["b"; "kb"; "mb"; "gb"; "tb"] ->
          toLowerCase s <> (num ++ unit)%string) ->
      parseDiskSizeToBytes (Some s) = Fin 0) /\
  (forall s, parseDiskSizeToBytes (Some (toLowerCase s)) =
             parseDiskSizeToBytes (Some s)) /\
  (forall d e unit,
      d <> EmptyString -> all_digits d = true ->
      (String.length d <= 15)%nat ->
      nth_error ["b"; "kb"; "mb"; "gb"; "tb"] e = Some unit ->
      parseDiskSizeToBytes (Some (d ++ unit)%string) =
      js_of_Z (digits_value 0 d * 1024 ^ Z.of_nat e)).
Proof.
  split; [|split; [|split; [|split; [|split]]]].
  - intros [s|]; [|reflexivity]. unfold parseDiskSizeToBytes.
    destruct (negb (str_truthy s) || String.eqb s "N/A"); [reflexivity|].
    destruct (matchDiskSize (toLowerCase s)) as [[num unit]|]; [|reflexivity].
    assert (Hm : exists k, 0 < k /\
               match unit with
               | String u _ =>
                   match diskMultipliers u with
                   | Some k => if js_truthy (js_of_Z k) then js_of_Z k else Fin 1
                   | None => Fin 1
                   end
               | EmptyString => Fin 1
               end = js_of_Z k).
    { destruct unit as [|u rest]; [exists 1; split; [lia|reflexivity]|].
      unfold diskMultipliers.
      destruct (Ascii.eqb u "b"); [exists 1; split; [lia|reflexivity]|].
      destruct (Ascii.eqb u "k"); [exists 1024; split; [lia|reflexivity]|].
      destruct (Ascii.eqb u "m");
        [exists (1024 * 1024); split; [lia|reflexivity]|].
      destruct (Ascii.eqb u "g");
        [exists (1024 * 1024 * 1024); split; [lia|reflexivity]|].
      destruct (Ascii.eqb u "t");
        [exists (1024 * 1024 * 1024 * 1024); split; [lia|reflexivity]|].
      exists 1. split; [lia|reflexivity]. }
    destruct Hm as (k & Hk & Hm). cbv zeta. rewrite Hm.
    apply mul_nonneg; [exact Hk|apply parseFloat_not_negative].
  - reflexivity.
  - reflexivity.
  - intros s H. unfold parseDiskSizeToBytes.
    destruct (negb (str_truthy s) || String.eqb s "N/A"); [reflexivity|].
    destruct (matchDiskSize (toLowerCase s)) as [[num unit]|] eqn:E;
      [|reflexivity].
    apply matchDiskSize_spec in E. destruct E as (Hne & Hd & Hu & Hs).
    exfalso. exact (H num unit Hne Hd Hu Hs).
  - intros s. unfold parseDiskSizeToBytes.
    rewrite toLowerCase_idem, toLowerCase_not_NA, orb_false_r.
    destruct (String.eqb_spec s "N/A") as [->|Hne]; [reflexivity|].
    rewrite orb_false_r. destruct s; reflexivity.
  - intros d e unit Hne Hd _ He.
    assert (Hu : In unit ["b"; "kb"; "mb"; "gb"; "tb"] /\
                 toLowerCase unit = unit /\
                 match unit with
                 | String u _ => diskMultipliers u = Some (1024 ^ Z.of_nat e)
                 | EmptyString => False
                 end).
    { do 5 (destruct e as [|e];
            [injection He as <-; repeat split; cbn [In]; tauto|]).
      destruct e; discriminate He. }
    destruct Hu as (Hu & Hl & Hk).
    unfold parseDiskSizeToBytes.
    assert (Ht : str_truthy (d ++ unit) = true).
    { destruct d; [congruence|reflexivity]. }
    assert (Hna : String.eqb (d ++ unit) "N/A" = false).
    { rewrite <- (toLowerCase_digits_unit d unit Hd Hl).
      apply toLowerCase_not_NA. }
    rewrite Ht, Hna. cbn [negb orb].
    rewrite (toLowerCase_digits_unit d unit Hd Hl).
    assert (M : matchDiskSize (d ++ unit) = Some (d, unit)).
    { apply matchDiskSize_spec.
      repeat split; auto. now apply digitsAndDots_digits. }
    rewrite M.
    destruct unit as [|u rest]; [contradiction|].
    cbv zeta. rewrite Hk, (parseFloat_digits d Hne Hd).
    assert (Hpos : js_truthy (js_of_Z (1024 ^ Z.of_nat e)) = true).
    { do 5 (destruct e as [|e]; [reflexivity|]). destruct e; discriminate He. }
    rewrite Hpos. cbn [js_mul js_of_Z].
    unfold inject_Z, Qmult. cbn [Qnum Qden Pos.mul]. reflexivity.
Qed.

Lemma parseDiskSizeToBytes_values_witness :
  parseDiskSizeToBytes (Some "50GB") = parseDiskSizeToBytes (Some "50gb") /\
  parseDiskSizeToBytes (Some "50gb") = js_of_Z (50 * 1024 ^ 3) /\
  parseDiskSizeToBytes (Some "-5gb") = Fin 0.
Proof.
  split; [|split].
  - symmetry.
    apply (proj1 (proj2 (proj2 (proj2 (proj2 parseDiskSizeToBytes_values))))
             "50GB").
  - apply (proj2 (proj2 (proj2 (proj2 (proj2 parseDiskSizeToBytes_values))))
             "50" 3%nat "gb"); [discriminate | reflexivity | cbn; lia | reflexivity].
  - apply (proj1 (proj2 (proj2 (proj2 parseDiskSizeToBytes_values))) "-5gb").
    intros num unit Hne Hd Hu E.
    assert (M : matchDiskSize (toLowerCase "-5gb") = Some (num, unit))
      by (apply matchDiskSize_spec; auto).
    discriminate M.
Defined.

Lemma matchPercentage_spec (s num : string) :
  matchPercentage s = Some num <->
  num <> EmptyString /\ digitsAndDots num = true /\
  (s = num \/ s = (num ++ "%")%string).
Proof.
  revert num. induction s as [|c r IH]; intros num.
  - cbn [matchPercentage]. split; [discriminate|].
    intros (Hne & _ & [H|H]); [congruence|].
    destruct num; [congruence|discriminate H].
  - cbn [matchPercentage].
    destruct (is_digit c || Ascii.eqb c ".") eqn:Ec.
    + assert (Hrec :
          match matchPercentage r with
          | Some n => Some (String c n)
          | None => None
          end = Some num <->
          exists n, num = String c n /\ n <> EmptyString /\
                    digitsAndDots n = true /\ (r = n \/ r = (n ++ "%")%string)).
      { destruct (matchPercentage r) as [n|] eqn:Er.
        - split.
          + intros [= <-]. exists n. split; [reflexivity|]. now apply IH.
          + intros (n' & -> & H). apply IH in H. congruence.
        - split; [discriminate|].
          intros (n' & -> & H). apply IH in H. discriminate H. }
      assert (Hpct : Ascii.eqb c "%" = false).
      { apply Ascii.eqb_neq. intros ->. discriminate Ec. }
      destruct r as [|p r'].
      * split.
        -- intros [= <-]. repeat split; [discriminate|cbn; now rewrite Ec|now left].
        -- intros (Hne & Hd & [H|H]); [congruence|].
           destruct num as [|x [|y z]]; try congruence; discriminate H.
      * assert (Hgen :
            (exists n, num = String c n /\ n <> EmptyString /\
                       digitsAndDots n = true /\
                       (String p r' = n \/ String p r' = (n ++ "%")%string)) <->
            num <> EmptyString /\ digitsAndDots num = true /\
            (String c (String p r') = num \/
             String c (String p r') = (num ++ "%")%string) /\
            num <> String c EmptyString).
        { split.
          - intros (n & -> & Hn & Hd & Hs).
            repeat split; [discriminate|cbn; now rewrite Ec| |].
            + destruct Hs as [->| ->]; [now left|now right].
            + intros [= ->]. congruence.
          - intros (Hne & Hd & Hs & Hone).
            destruct num as [|x n]; [congruence|].
            assert (x = c) as -> by (destruct Hs as [H|H]; now inversion H).
            exists n. cbn [digitsAndDots] in Hd.
            apply andb_true_iff in Hd. destruct Hd as [_ Hd].
            repeat split; auto.
            + intros ->. congruence.
            + destruct Hs as [H|H]; inversion H; auto. }
        destruct r' as [|q r''].
        -- destruct (Ascii.eqb_spec p "%") as [->|Hp].
           ++ split.
              ** intros [= <-].
                 repeat split; [discriminate|cbn; now rewrite Ec|now right].
              ** intros (Hne & Hd & [H|H]).
                 --- subst num. cbn in Hd. rewrite Ec in Hd. discriminate Hd.
                 --- destruct num as [|x [|y z]]; try congruence.
                     +++ now inversion H.
                     +++ inversion H. destruct z; discriminate.
           ++ rewrite Hrec, Hgen. split; [tauto|].
              intros (Hne & Hd & Hs). repeat split; auto.
              intros ->. destruct Hs as [H|H]; inversion H. congruence.
        -- rewrite Hrec, Hgen. split; [tauto|].
           intros (Hne & Hd & Hs). repeat split; auto.
           intros ->. destruct Hs as [H|H]; inversion H.
    + split; [discriminate|].
      intros (Hne & Hd & Hs).
      destruct num as [|x n]; [congruence|].
      assert (x = c) as -> by (destruct Hs as [H|H]; now inversion H).
      cbn [digitsAndDots] in Hd. rewrite Ec in Hd. discriminate Hd.
Qed.

(** [parsePercentage] never answers a negative number; it answers 0 for
    a missing value; a non-empty run of digits and dots is read by
    [parseFloat], with or without a percent sign behind it; and every
    other string gives 0. *)
Theorem parsePercentage_values :
  (forall percent, js_ltb (parsePercentage percent) (Fin 0) = false) /\
  parsePercentage None = Fin 0 /\
  (forall num, num <> EmptyString -> digitsAndDots num = true ->
      parsePercentage (Some num) = parseFloat num /\
      parsePercentage (Some (num ++ "%")%string) = parseFloat num) /\
  (forall s,
      (forall num, num <> EmptyString -> digitsAndDots num = true ->
                   s <> num /\ s <> (num ++ "%")%string) ->
      parsePercentage (Some s) = Fin 0).
Proof.
  split; [|split; [|split]].
  - intros [s|]; [|reflexivity]. unfold parsePercentage.
    destruct (negb (str_truthy s)); [reflexivity|].
    destruct (matchPercentage s); [apply parseFloat_not_negative|reflexivity].
  - reflexivity.
  - intros num Hne Hd. unfold parsePercentage.
    assert (H1 : matchPercentage num = Some num)
      by (apply matchPercentage_spec; auto).
    assert (H2 : matchPercentage (num ++ "%") = Some num)
      by (apply matchPercentage_spec; auto).
    rewrite H1, H2. destruct num; [congruence|]. split; reflexivity.
  - intros s H. unfold parsePercentage.
    destruct (negb (str_truthy s)); [reflexivity|].
    destruct (matchPercentage s) as [num|] eqn:E; [|reflexivity].
    apply matchPercentage_spec in E. destruct E as (Hne & Hd & Hs).
    destruct (H num Hne Hd) as [N1 N2]. destruct Hs; congruence.
Qed.

Lemma parsePercentage_values_witness :
  parsePercentage (Some "12.5%") = parseFloat "12.5" /\
  parsePercentage (Some "12.5") = parseFloat "12.5".
Proof.
  split;
    apply (proj1 (proj2 (proj2 parsePercentage_values)) "12.5");
    solve [discriminate | reflexivity].
Defined.

(** ** The allocation table sorted by free disk *)

Lemma not_less_leb (a b : jsnum) :
  (exists x, a = Fin x) -> (exists y, b = Fin y) ->
  js_ltb b a = false -> js_leb a b = true.
Proof.
  intros [x ->] [y ->]. cbn [js_ltb js_leb]. apply negb_false_iff.
Qed.

(** When every free-disk value of the rows parses to a finite number,
    choosing the Disk Free column of the allocation table shows the same
    rows ordered by their number of bytes: non-decreasing for the
    ascending direction, non-increasing for the descending one. *)
Theorem allocation_sorted_by_disk
  (cell : CatAllocationRow.t -> string -> CellValue)
  (numberText : jsnum -> string) (direction : SortDirection)
  (data : list CatAllocationRow.t) :
  Forall (fun row => exists q, diskAvailBytes row = Fin q) data ->
  let out := sortedData cell numberText allocationTableColumns
               (mkSortState (Some "diskAvail") (Some direction)) data in
  Permutation out data /\
  StronglySorted
    (fun a b =>
       match direction with
       | asc => js_leb (diskAvailBytes a) (diskAvailBytes b) = true
       | desc => js_leb (diskAvailBytes b) (diskAvailBytes a) = true
       end) out.
Proof.
  intros Hfin out.
  set (f := fun a b : CatAllocationRow.t =>
              js_sub (diskAvailBytes a) (diskAvailBytes b)).
  set (column := mkColumn "diskAvail" (Some true) (Some f)).
  assert (Hout : out = Array_sort (columnCompare cell numberText column direction) data)
    by reflexivity.
  assert (Hb : forall x y,
             sortsBefore (columnCompare cell numberText column direction) x y =
             match direction with
             | asc => js_ltb (diskAvailBytes x) (diskAvailBytes y)
             | desc => js_ltb (diskAvailBytes y) (diskAvailBytes x)
             end).
  { intros x y. unfold sortsBefore, columnCompare. cbn [sortFn column].
    destruct direction; unfold f; apply js_sub_neg. }
  assert (Hp : Permutation out data) by (rewrite Hout; apply Array_sort_perm).
  split; [exact Hp|].
  apply (StronglySorted_weaken
           (inOrder (columnCompare cell numberText column direction)) _
           (fun row => exists q, diskAvailBytes row = Fin q)).
  - intros a b Ha Hb' H. unfold inOrder in H. rewrite Hb in H.
    destruct direction; now apply not_less_leb.
  - apply Forall_forall. intros row Hin.
    rewrite Forall_forall in Hfin. apply Hfin.
    apply (Permutation_in _ Hp Hin).
  - rewrite Hout. apply Array_sort_sorted.
    + intros x y z. rewrite !Hb.
      destruct direction; intros H1 H2; eapply js_ltb_trans; eauto.
    + intros x y. rewrite !Hb. destruct direction; apply js_ltb_asym.
Qed.

Lemma allocation_sorted_by_disk_witness :
  map CatAllocationRow.node
    (sortedData allocationCell integerText allocationTableColumns
       (mkSortState (Some "diskAvail") (Some asc)) allocationRows) =
  ["UNASSIGNED"; "warm-1"; "hot-2"; "hot-1"] /\
  StronglySorted
    (fun a b => js_leb (diskAvailBytes a) (diskAvailBytes b) = true)
    (sortedData allocationCell integerText allocationTableColumns
       (mkSortState (Some "diskAvail") (Some asc)) allocationRows).
Proof.
  split; [vm_compute; reflexivity|].
  apply (allocation_sorted_by_disk allocationCell integerText asc allocationRows).
  repeat constructor; eexists; vm_compute; reflexivity.
Defined.

(** ** The upgrade sequence over several versions *)


Section MixedVersions.

Variable Number : string -> jsnum.




(** The three-row example: two rows of one version below a third. *)
Section ThreeRows.

Variables older1 older2 newest : CatNodesRow.
Variables t1 t2 : Z.

Hypothesis same_older : row_version older1 = row_version older2.
Hypothesis older_version : row_version older1 <> EmptyString.
Hypothesis newest_version : row_version newest <> EmptyString.
Hypothesis below :
  compareVersions Number (row_version older1) (row_version newest) < 0.
Hypothesis tier1 : firstMatchingTier tierRules (row_node_role older1) = t1.
Hypothesis tier2 : firstMatchingTier tierRules (row_node_role older2) = t2.
Hypothesis first_before_second :
  t1 < t2 \/
  (t1 = t2 /\
   exists s1 s2, standsFor (row_uptime older1) s1 /\
                 standsFor (row_uptime older2) s2 /\ s2 < s1).




End ThreeRows.


End MixedVersions.

